(** * Plate preview: scale resolver, motif compositor and plate list

    A shallow embedding of [src/components/MultiPlatePreview.jsx] (the
    [compute] layout effect, [totalWidthCm], [frameDims], [tile] and the
    render loop) and of the [addPlate] / [removePlate] updaters of
    [App.jsx], followed by the properties the design document states
    about them.  The second half covers the code around them: the
    frame scheduling of the layout effect, [reorder] and [onDragEnd] of
    [PlateListDnd.jsx], the other updaters and the initial state of
    [App.jsx], the unit conversion and validation of [PlateItem.jsx],
    the total of [PlatesSummary.jsx] and the text input of
    [MotifUploader.jsx].

    Numbers.  A JavaScript Number is modelled by [num]: a rational or
    one of the three special values NaN, +Infinity, -Infinity.  The
    special values follow ECMAScript (NaN is absorbing, Infinity * 0 is
    NaN, [Math.max] of a NaN is NaN, ...), and -0 is identified with 0
    (no operation of the modelled code tells them apart: every divisor
    is [HEIGHT_MAX] or at least 1).

    The arithmetic comes twice.  Module [JS] computes [+], [*] and [/]
    exactly; the functions built on it at top level are the component
    as it would run on real numbers, and the properties stated about
    them are orders and bounds that do not hinge on the last bit of a
    product.  Module [B64] rounds every [+], [*] and [/] to the nearest
    IEEE 754 double, as the engine does; the functions built on it are
    the component as it runs, and every property about the pixel values
    the component produces is stated about them. *)

From Stdlib Require Import ZArith QArith Qround Qminmax Qabs Qpower List Bool
  String Ascii Permutation Lia Lqa.
Import ListNotations.

Local Open Scope Q_scope.

(** ** JavaScript numbers *)

Module JS.

Inductive num : Type :=
| NaN
| PInf
| NInf
| Fin (q : Q).

Definition of_Z (z : Z) : num := Fin (inject_Z z).

Definition is_finite (a : num) : bool :=
  match a with Fin _ => true | _ => false end.

Definition Qltb (a b : Q) : bool := negb (Qle_bool b a).

(** Numeric equality of two numbers ([Q] has several representations of
    one rational); NaN is taken equal to itself here, this is the
    equality of values and not the JavaScript operator. *)
Definition num_eqv (a b : num) : Prop :=
  match a, b with
  | NaN, NaN => True
  | PInf, PInf => True
  | NInf, NInf => True
  | Fin x, Fin y => x == y
  | _, _ => False
  end.

Definition num_eqb (a b : num) : bool :=
  match a, b with
  | NaN, NaN => true
  | PInf, PInf => true
  | NInf, NInf => true
  | Fin x, Fin y => Qeq_bool x y
  | _, _ => false
  end.

(** [a + b] *)
Definition add (a b : num) : num :=
  match a, b with
  | NaN, _ | _, NaN => NaN
  | PInf, NInf | NInf, PInf => NaN
  | PInf, _ | _, PInf => PInf
  | NInf, _ | _, NInf => NInf
  | Fin x, Fin y => Fin (x + y)
  end.

(** [- a] *)
Definition neg (a : num) : num :=
  match a with
  | NaN => NaN
  | PInf => NInf
  | NInf => PInf
  | Fin x => Fin (- x)
  end.

(** Infinity of the sign of [x * s] for a positive infinity [s]; NaN
    when [x] is zero. *)
Definition inf_times (x : Q) : num :=
  if Qeq_bool x 0 then NaN else if Qltb 0 x then PInf else NInf.

(** [a * b] *)
Definition mul (a b : num) : num :=
  match a, b with
  | NaN, _ | _, NaN => NaN
  | PInf, PInf | NInf, NInf => PInf
  | PInf, NInf | NInf, PInf => NInf
  | PInf, Fin x | Fin x, PInf => inf_times x
  | NInf, Fin x | Fin x, NInf => neg (inf_times x)
  | Fin x, Fin y => Fin (x * y)
  end.

(** [a / b]; a zero divisor is the positive zero. *)
Definition div (a b : num) : num :=
  match a, b with
  | NaN, _ | _, NaN => NaN
  | Fin _, PInf | Fin _, NInf => Fin 0
  | PInf, Fin y => if Qltb y 0 then NInf else PInf
  | NInf, Fin y => if Qltb y 0 then PInf else NInf
  | Fin x, Fin y => if Qeq_bool y 0 then inf_times x else Fin (x / y)
  | _, _ => NaN
  end.

(** [a > b] and [a <= b]; both false when an operand is NaN. *)
Definition gt (a b : num) : bool :=
  match a, b with
  | NaN, _ | _, NaN => false
  | PInf, PInf => false
  | PInf, _ => true
  | _, PInf => false
  | NInf, _ => false
  | Fin _, NInf => true
  | Fin x, Fin y => Qltb y x
  end.

Definition le (a b : num) : bool :=
  match a, b with
  | NaN, _ | _, NaN => false
  | _, PInf => true
  | PInf, _ => false
  | NInf, _ => true
  | Fin _, NInf => false
  | Fin x, Fin y => Qle_bool x y
  end.

(** [Math.max(a, b)] and [Math.min(a, b)]: NaN when an argument is NaN. *)
Definition Math_max (a b : num) : num :=
  match a, b with
  | NaN, _ | _, NaN => NaN
  | _, _ => if le a b then b else a
  end.

Definition Math_min (a b : num) : num :=
  match a, b with
  | NaN, _ | _, NaN => NaN
  | _, _ => if le a b then a else b
  end.

(** [Math.round(a)]: the nearest integer, a tie going up. *)
Definition Math_round (a : num) : num :=
  match a with
  | Fin x => of_Z (Qfloor (x + (1 # 2)))
  | _ => a
  end.

(** [Math.ceil(a)] *)
Definition Math_ceil (a : num) : num :=
  match a with
  | Fin x => of_Z (Qceiling x)
  | _ => a
  end.

(** ToBoolean on a number: 0 and NaN are falsy. *)
Definition truthy (a : num) : bool :=
  match a with
  | NaN => false
  | Fin x => negb (Qeq_bool x 0)
  | _ => true
  end.

(** [a || b] on numbers. *)
Definition or_else (a b : num) : num := if truthy a then a else b.

(** The values a plate field can hold: a number, or nothing. *)
Inductive value : Type :=
| VUndefined
| VNull
| VNum (n : num).

(** [Number(v)] *)
Definition Number (v : value) : num :=
  match v with
  | VUndefined => NaN
  | VNull => Fin 0
  | VNum n => n
  end.

(** ToLength(v), as [Array.from] applies it to the [length] property:
    truncation, at least 0, at most 2^53 - 1. *)
Definition ToLength (a : num) : Z :=
  match a with
  | NaN | NInf => 0
  | PInf => 2 ^ 53 - 1
  | Fin x => Z.min (Z.max 0 (Qfloor x)) (2 ^ 53 - 1)
  end.

(** [Array.from({ length: n })] evaluated to the list of its indices.
    The array constructor throws a RangeError for a length above
    2^32 - 1; [None] stands for that exception. *)
Definition Array_from_length (n : num) : option (list nat) :=
  let len := ToLength n in
  if (len <=? 2 ^ 32 - 1)%Z then Some (seq 0 (Z.to_nat len)) else None.

End JS.

Import JS.

(** ** Data model *)

(** A plate as [App.jsx] stores it.  [widthCm] and [heightCm] are read
    through [Number(...)], so a missing field is [VUndefined]. *)
Record Plate : Type := mkPlate {
  id : string;
  widthCm : value;
  heightCm : value;
  motifUrl : string
}.

(** The measured preview container: what [boxRef.current] exposes.
    [None] as an [option Element] is the ref before the node is mounted. *)
Record Element : Type := mkElement {
  clientWidth : Z;
  clientHeight : Z
}.

(** The two [useState] cells of the component. *)
Record ScaleState : Type := mkScale {
  scaleX : num;
  scaleY : num
}.

(** [useState(1)] twice. *)
Definition initialScale : ScaleState := {| scaleX := Fin 1; scaleY := Fin 1 |}.

Record FrameDims : Type := mkFrame {
  frameW : num;
  frameH : num
}.

Record TileDims : Type := mkTile {
  tileW : num;
  tileCount : num
}.

(** One [<img>] of the mirror-tiled row. *)
Record TileImg : Type := mkTileImg {
  tileKey : nat;
  tileWidth : num;
  tileHeight : num;
  mirrored : bool
}.

(** What a plate box contains: the single stretched image, or the flex
    row of tiles.  Position and size of the images are kept; their
    [src], which is the [motifUrl] prop on every image, is not. *)
Inductive Motif : Type :=
| Stretched (alt : nat) (left width height : num)
| TileRow (left width height : num) (tiles : list TileImg).

(** One rendered [motion.div]. *)
Record PlateBox : Type := mkBox {
  boxKey : string;
  boxWidth : num;
  boxHeight : num;
  boxLeft : num;
  boxMotif : Motif
}.

(** ** The component *)

Definition MOTIF_WIDTH_CM : num := of_Z 300.

(** [Number(p?.widthCm) || 0] and [Number(p?.heightCm) || 0] *)
Definition plateWidthCm (p : Plate) : num := or_else (Number (widthCm p)) (Fin 0).
Definition plateHeightCm (p : Plate) : num := or_else (Number (heightCm p)) (Fin 0).

(** The reducer of [totalWidthCm], before the final [|| 1]. *)
Definition sumWidthCm (plates : list Plate) : num :=
  fold_left (fun s p => add s (plateWidthCm p)) plates (Fin 0).

Definition totalWidthCm (plates : list Plate) : num :=
  or_else (sumWidthCm plates) (Fin 1).

(** [frameDims].  The memo is recomputed when [totalWidthCm] or
    [scaleX] change, and [el] is the container as it was read then:
    [frameH] is the height the container had at that moment, which a
    later resize alone does not refresh. *)
Definition frameDims (el : option Element) (totalW sx : num) : FrameDims :=
  {| frameH := match el with Some e => of_Z (clientHeight e) | None => of_Z 360 end;
     frameW := Math_max (Fin 1) (Math_round (mul totalW sx)) |}.

(** [tile] *)
Definition tile (sx fw : num) : TileDims :=
  let tw := Math_max (Fin 1) (Math_round (mul MOTIF_WIDTH_CM sx)) in
  {| tileW := tw;
     tileCount := Math_max (Fin 1) (Math_ceil (div fw tw)) |}.

Definition needMirror (totalW : num) : bool := gt totalW MOTIF_WIDTH_CM.

Section Preview.

(** [HEIGHT_MAX] of [constants/limits.js], a configuration constant. *)
Variable HEIGHT_MAX : num.

(** [compute], as a transformer of the scale state.  Nothing in its
    [try] block can throw: the body is property reads and arithmetic. *)
Definition compute (el : option Element) (totalW : num) (st : ScaleState)
  : ScaleState :=
  match el with
  | None => st
  | Some e =>
      let boxW := Math_max (Fin 1) (of_Z (clientWidth e)) in
      let boxH := Math_max (Fin 1) (of_Z (clientHeight e)) in
      let vScale := div boxH HEIGHT_MAX in
      let hScale := div boxW (Math_max (Fin 1) totalW) in
      {| scaleY := vScale; scaleX := Math_min vScale hScale |}
  end.

End Preview.

(** The children of the tiled row: [Array.from({length}).map(...)]. *)
Definition tileRow (t : TileDims) (fh : num) : option (list TileImg) :=
  match Array_from_length (tileCount t) with
  | None => None
  | Some idxs =>
      Some (map (fun idx =>
                   {| tileKey := idx;
                      tileWidth := tileW t;
                      tileHeight := fh;
                      mirrored := (idx mod 2 =? 1)%nat |}) idxs)
  end.

Section Render.

Variable el : option Element.
Variable st : ScaleState.
Variable totalW : num.

Let fd : FrameDims := frameDims el totalW (scaleX st).
Let tl : TileDims := tile (scaleX st) (frameW fd).

(** The body of the [plates.map] callback for plate [p] at index [i]
    with the running offset [xCm]; [None] when building the tile row
    throws. *)
Definition renderPlate (xCm : num) (i : nat) (p : Plate) : option PlateBox :=
  let wCm := plateWidthCm p in
  let hCm := plateHeightCm p in
  let w := Math_max (Fin 1) (Math_round (mul wCm (scaleX st))) in
  let h := Math_max (Fin 1) (Math_round (mul hCm (scaleY st))) in
  let leftPx := Math_round (mul xCm (scaleX st)) in
  let motif :=
    if negb (needMirror totalW)
    then Some (Stretched (i + 1) (neg leftPx) (frameW fd) (frameH fd))
    else match tileRow tl (frameH fd) with
         | Some tiles => Some (TileRow (neg leftPx) (frameW fd) (frameH fd) tiles)
         | None => None
         end in
  match motif with
  | Some m =>
      Some {| boxKey := id p; boxWidth := w; boxHeight := h;
              boxLeft := leftPx; boxMotif := m |}
  | None => None
  end.

(** The render loop; [xCm] is the [let xCm] of the component body, which
    every callback advances by the plate's width. *)
Fixpoint renderFrom (xCm : num) (i : nat) (plates : list Plate)
  : option (list PlateBox) :=
  match plates with
  | [] => Some []
  | p :: rest =>
      match renderPlate xCm i p with
      | None => None
      | Some b =>
          match renderFrom (add xCm (plateWidthCm p)) (S i) rest with
          | None => None
          | Some bs => Some (b :: bs)
          end
      end
  end.

End Render.

(** One render pass of [MultiPlatePreview] for the given scale state
    and plates; [el] is the container as [frameDims] last read it. *)
Definition render (el : option Element) (st : ScaleState) (plates : list Plate)
  : option (list PlateBox) :=
  renderFrom el st (totalWidthCm plates) (Fin 0) 0 plates.

(** ** The plate list of [App.jsx] *)

Section App.

(** [NEW_PLATE] and [DEFAULT_MOTIF_URL] of [constants/config.js]. *)
Variable NEW_PLATE : Plate.
Variable DEFAULT_MOTIF_URL : string.

(** [withId]; [uuid] is what [crypto.randomUUID()] returned. *)
Definition withId (p : Plate) (uuid : string) : Plate :=
  {| id := uuid; widthCm := widthCm p; heightCm := heightCm p;
     motifUrl := DEFAULT_MOTIF_URL |}.

(** The updater [addPlate] hands to [setPlates]. *)
Definition addPlate (uuid : string) (prev : list Plate) : list Plate :=
  if (10 <=? List.length prev)%nat then prev
  else (prev ++ [withId NEW_PLATE uuid])%list.

(** The updater [removePlate(id)] hands to [setPlates]. *)
Definition removePlate (id0 : string) (prev : list Plate) : list Plate :=
  if (List.length prev <=? 1)%nat then prev
  else filter (fun p => negb (String.eqb (id p) id0)) prev.

(** A user action on the list. *)
Inductive PlateOp : Type :=
| OpAdd (uuid : string)
| OpRemove (id0 : string).

Definition applyOp (prev : list Plate) (op : PlateOp) : list Plate :=
  match op with
  | OpAdd uuid => addPlate uuid prev
  | OpRemove id0 => removePlate id0 prev
  end.

Definition runOps (ops : list PlateOp) (plates : list Plate) : list Plate :=
  fold_left applyOp ops plates.

(** Every [OpAdd] of the sequence carries an id that no plate of the
    list has at that moment, as a fresh UUID does. *)
Fixpoint freshOps (ops : list PlateOp) (plates : list Plate) : Prop :=
  match ops with
  | [] => True
  | op :: rest =>
      match op with
      | OpAdd uuid => ~ In uuid (map id plates)
      | OpRemove _ => True
      end /\ freshOps rest (applyOp plates op)
  end.

End App.

(** The Plate Set of the data model: one to ten plates, ids unique. *)
Definition plateCountOk (plates : list Plate) : Prop :=
  (1 <= List.length plates <= 10)%nat.

Definition uniqueIds (plates : list Plate) : Prop := NoDup (map id plates).

(** ** Scale states the component can be in *)


(** ** The layout effect and its animation frames *)

(** What the layout effect of [MultiPlatePreview] holds between events:
    the frame callbacks the browser has pending (each runs [compute]),
    the variable [rafId], whether the resize listener is attached, and
    how often [compute] has run. *)
Record EffectState : Type := mkEffect {
  nextHandle : nat;
  pendingFrames : list nat;
  rafId : option nat;
  listening : bool;
  computeRuns : nat
}.

Inductive EffectEvent : Type :=
| EvResize
| EvFrame
| EvCleanup.

(** [cancelAnimationFrame(rafId)]; an [undefined] or stale handle
    cancels nothing. *)
Definition cancelFrame (h : option nat) (pending : list nat) : list nat :=
  match h with
  | None => pending
  | Some i => filter (fun j => negb (j =? i)%nat) pending
  end.

(** The body of the effect: [compute()] once, the listener, one frame. *)
Definition mountEffect : EffectState :=
  {| nextHandle := 1; pendingFrames := [0%nat]; rafId := Some 0%nat;
     listening := true; computeRuns := 1 |}.

(** [onResize] for a resize event, the browser running the pending
    callbacks for a frame, and the cleanup the effect returns. *)
Definition effectStep (st : EffectState) (ev : EffectEvent) : EffectState :=
  match ev with
  | EvResize =>
      if listening st then
        {| nextHandle := S (nextHandle st);
           pendingFrames :=
             (cancelFrame (rafId st) (pendingFrames st) ++ [nextHandle st])%list;
           rafId := Some (nextHandle st);
           listening := true;
           computeRuns := computeRuns st |}
      else st
  | EvFrame =>
      {| nextHandle := nextHandle st;
         pendingFrames := [];
         rafId := rafId st;
         listening := listening st;
         computeRuns := computeRuns st + List.length (pendingFrames st) |}
  | EvCleanup =>
      {| nextHandle := nextHandle st;
         pendingFrames := cancelFrame (rafId st) (pendingFrames st);
         rafId := rafId st;
         listening := false;
         computeRuns := computeRuns st |}
  end.

Definition runEffect (events : list EffectEvent) : EffectState :=
  fold_left effectStep events mountEffect.

Definition countFrames (events : list EffectEvent) : nat :=
  List.length (filter (fun ev => match ev with EvFrame => true | _ => false end)
                 events).

(** At most the frame that [rafId] names is pending, and none once the
    effect is cleaned up; [compute] has run once at mount and at most
    once per frame since. *)
Definition effectInvariant (frames : nat) (st : EffectState) : Prop :=
  (pendingFrames st = [] \/
   exists h, pendingFrames st = [h] /\ rafId st = Some h /\ listening st = true) /\
  (computeRuns st <= 1 + frames)%nat.

(** ** Reordering by drag and drop ([PlateListDnd.jsx]) *)

(** [arr.splice(start, deleteCount, ...items)]: the array afterwards and
    the array of removed elements.  Indices are naturals, as the drag
    library reports them; a start past the end means the end. *)
Definition splice {A : Type} (arr : list A) (start deleteCount : nat)
    (items : list A) : list A * list A :=
  ((firstn start arr ++ items ++ skipn (start + deleteCount) arr)%list,
   firstn deleteCount (skipn start arr)).

(** [reorder].  A slot of the result is [None] when it holds
    [undefined], which is what [const [removed] = ...] binds when
    nothing was removed. *)
Definition reorder {A : Type} (lst : list A) (startIndex endIndex : nat)
  : list (option A) :=
  let result := map Some lst in
  let (result1, deleted) := splice result startIndex 1 [] in
  let removed := match deleted with x :: _ => x | [] => None end in
  fst (splice result1 endIndex 0 [removed]).

(** The drop result of the drag library: [destination] is null when the
    item was dropped outside the list. *)
Record DropResult : Type := mkDrop {
  destination : option nat;
  source : nat
}.

(** [onDragEnd]: the list handed to [onReorder], or [None] when the
    handler returns without calling it.  [reorder] cannot throw on an
    array, so the [catch] branch is never taken. *)
Definition onDragEnd (plates : list Plate) (result : option DropResult)
  : option (list (option Plate)) :=
  match result with
  | None => None
  | Some r =>
      match destination r with
      | None => None
      | Some d =>
          if (d =? source r)%nat then None
          else Some (reorder plates (source r) d)
      end
  end.

(** ** More of [App.jsx] *)

(** The [next] object of [updatePlate]: the own properties it has. *)
Record PlatePatch : Type := mkPatch {
  patchId : option string;
  patchWidthCm : option value;
  patchHeightCm : option value;
  patchMotifUrl : option string
}.

(** [{ ...p, ...next }] *)
Definition spread (p : Plate) (next : PlatePatch) : Plate :=
  {| id := match patchId next with Some i => i | None => id p end;
     widthCm := match patchWidthCm next with Some w => w | None => widthCm p end;
     heightCm := match patchHeightCm next with Some h => h | None => heightCm p end;
     motifUrl := match patchMotifUrl next with Some m => m | None => motifUrl p end |}.

(** A whole plate passed as [next], as [PlateItem] does. *)
Definition patchOf (p : Plate) : PlatePatch :=
  {| patchId := Some (id p); patchWidthCm := Some (widthCm p);
     patchHeightCm := Some (heightCm p); patchMotifUrl := Some (motifUrl p) |}.

(** The updater of [updatePlate(id, next)]. *)
Definition updatePlate (id0 : string) (next : PlatePatch) (prev : list Plate)
  : list Plate :=
  map (fun p => if String.eqb (id p) id0 then spread p next else p) prev.

(** The updater of [setMotifForAll(url)]. *)
Definition setMotifForAll (url : string) (prev : list Plate) : list Plate :=
  map (fun p => {| id := id p; widthCm := widthCm p; heightCm := heightCm p;
                   motifUrl := url |}) prev.

(** The test of [ensureMotif] on a motif that is a string. *)
Definition motifOk (m : string) : bool :=
  String.prefix "http" m || String.prefix "data:" m.

(** [App]'s own [totalWidthCm]: the widths are added as they are. *)
Definition appTotalWidthCm (plates : list Plate) : num :=
  fold_left (fun s p => add s (Number (widthCm p))) plates (Fin 0).

Section AppMotif.

Variable DEFAULT_MOTIF_URL : string.

(** [ensureMotif]; [motifUrl] is a string in this model, so the
    [typeof] test of the source always passes. *)
Definition ensureMotif (lst : list Plate) : list Plate :=
  map (fun p => {| id := id p; widthCm := widthCm p; heightCm := heightCm p;
                   motifUrl := if motifOk (motifUrl p) then motifUrl p
                               else DEFAULT_MOTIF_URL |}) lst.

Definition resetMotif (prev : list Plate) : list Plate :=
  setMotifForAll DEFAULT_MOTIF_URL prev.

(** [plates[0]?.motifUrl || DEFAULT_MOTIF_URL] *)
Definition currentMotif (plates : list Plate) : string :=
  match plates with
  | p :: _ => if String.eqb (motifUrl p) "" then DEFAULT_MOTIF_URL else motifUrl p
  | [] => DEFAULT_MOTIF_URL
  end.

End AppMotif.

(** ** Unit conversion and validation ([PlateItem.jsx]) *)

Definition CM_PER_IN : Q := 254 # 100.

(** [parseFloat(x.toFixed(2))]: two decimals, a tie going away from
    zero; from 10^21 on [toFixed] prints the number itself. *)
Definition toFixed2 (x : num) : num :=
  match x with
  | Fin q =>
      if Qle_bool (inject_Z (10 ^ 21)) (Qabs q) then Fin q
      else if Qltb q 0
           then Fin (- (inject_Z (Qfloor (- q * 100 + (1 # 2))) / 100))
           else Fin (inject_Z (Qfloor (q * 100 + (1 # 2))) / 100)
  | _ => x
  end.


(** [unitToCm] on the number the input was parsed to. *)
Definition unitToCm (val : num) (unit : string) : num :=
  if String.eqb unit "in" then toFixed2 (mul val (Fin CM_PER_IN))
  else toFixed2 val.

(** ** The total width card ([PlatesSummary.jsx]) *)




(** ** The motif input ([MotifUploader.jsx]) *)

(** White space and line terminators that [trim] removes, among the
    code units below 256 (a character of a [string] stands for one
    code unit). *)
Definition isWhite (c : ascii) : bool :=
  let n := nat_of_ascii c in
  ((9 <=? n) && (n <=? 13) || (n =? 32) || (n =? 160))%nat.

Fixpoint trimStart (s : string) : string :=
  match s with
  | EmptyString => EmptyString
  | String c r => if isWhite c then trimStart r else s
  end.

Fixpoint trimEnd (s : string) : string :=
  match s with
  | EmptyString => EmptyString
  | String c r =>
      match trimEnd r with
      | EmptyString => if isWhite c then EmptyString else String c EmptyString
      | r' => String c r'
      end
  end.

(** [str.trim()] *)
Definition trim (s : string) : string := trimEnd (trimStart s).

(** [isLikelyUrl] on a string. *)
Definition isLikelyUrl (str : string) : bool :=
  let s := trim str in
  String.prefix "http://" s || String.prefix "https://" s
  || String.prefix "data:" s.

(** [applyUrl]: the string handed to [onChange], if any, and the text
    field afterwards. *)
Definition applyUrl (urlInput : string) : option string * string :=
  let raw := trim urlInput in
  if String.eqb raw "" then (None, urlInput) else (Some raw, ""%string).

(** ** Loading the plates ([App.jsx], the initial state) *)

(** What reading a key of the storage and parsing it gives. *)
Inductive Stored (A : Type) : Type :=
| Absent
| Corrupt
| Parsed (a : A).

Arguments Absent {A}.
Arguments Corrupt {A}.
Arguments Parsed {A} a.

(** The parsed primary record: an array of plate objects, or anything
    else. *)
Inductive SavedJson : Type :=
| SavedOther
| SavedArray (lst : list Plate).

(** The parsed legacy record, as far as it is read: [p?.widthCm],
    [p?.heightCm] and [p?.motifUrl] ([None] when it is not a string). *)
Record LegacyJson : Type := mkLegacy {
  legacyWidthCm : value;
  legacyHeightCm : value;
  legacyMotifUrl : option string
}.

Section Hydrate.

(** [DEFAULT_PLATE], [NEW_PLATE] and [DEFAULT_MOTIF_URL] of
    [constants/config.js]. *)
Variable DEFAULT_PLATE NEW_PLATE : Plate.
Variable DEFAULT_MOTIF_URL : string.

(** The object the legacy branch passes to [withId]; it has no id yet,
    [withId] sets it. *)
Definition legacyPlate (p : LegacyJson) : Plate :=
  {| id := ""%string;
     widthCm := if is_finite (Number (legacyWidthCm p))
                then VNum (Number (legacyWidthCm p))
                else widthCm DEFAULT_PLATE;
     heightCm := if is_finite (Number (legacyHeightCm p))
                 then VNum (Number (legacyHeightCm p))
                 else heightCm DEFAULT_PLATE;
     motifUrl := match legacyMotifUrl p with
                 | Some m => m
                 | None => DEFAULT_MOTIF_URL
                 end |}.

(** The last [return] of the initialiser. *)
Definition defaultPlates (uuid1 uuid2 : string) : list Plate :=
  ensureMotif DEFAULT_MOTIF_URL
    [withId DEFAULT_MOTIF_URL DEFAULT_PLATE uuid1;
     withId DEFAULT_MOTIF_URL NEW_PLATE uuid2].

(** The initialiser of the [plates] state.  [saved] and [single] are
    the two storage keys, read and parsed; a [Corrupt] one makes
    [JSON.parse] throw into the empty [catch].  [uuid1] and [uuid2] are
    what the calls of [crypto.randomUUID()] return. *)
Definition initialPlates (saved : Stored SavedJson) (single : Stored LegacyJson)
    (uuid1 uuid2 : string) : list Plate :=
  match saved with
  | Corrupt => defaultPlates uuid1 uuid2
  | Parsed (SavedArray (p :: l)) => ensureMotif DEFAULT_MOTIF_URL (p :: l)
  | _ =>
      match single with
      | Parsed p =>
          ensureMotif DEFAULT_MOTIF_URL
            [withId DEFAULT_MOTIF_URL (legacyPlate p) uuid1]
      | _ => defaultPlates uuid1 uuid2
      end
  end.

End Hydrate.

(** ** The same code in binary64 arithmetic *)

(** Every [+], [*] and [/] of the source yields the IEEE 754 double
    nearest to the exact result: 53 significant bits, a tie going to the
    even neighbour, multiples of 2^-1074 below 2^-1022, and Infinity
    from 2^1024 - 2^970 on.  [Math.round], [Math.ceil], [Math.max],
    [Math.min], [toFixed] and the comparisons are exact on doubles and
    are those of [JS].  A finite [num] stands for the double of that
    value. *)
Module B64.

(** The exponent of a positive rational: the [k] with
    [2^k <= a < 2^(k+1)]. *)
Definition ilog2 (a : Q) : Z :=
  if Qle_bool 1 a then Z.log2 (Qfloor a)
  else (- Z.log2_up (Qceiling (/ a)))%Z.

(** The nearest integer, a tie going to the even one. *)
Definition nearestEven (x : Q) : Z :=
  let f := Qfloor x in
  let r := x - inject_Z f in
  if Qltb r (1 # 2) then f
  else if Qltb (1 # 2) r then (f + 1)%Z
  else if Z.even f then f else (f + 1)%Z.

(** A positive rational rounded to 53 significant bits, or to a
    multiple of 2^-1074 when it is below 2^-1022. *)
Definition roundNearest (a : Q) : Q :=
  let e := Z.max (ilog2 a - 52) (-1074) in
  inject_Z (nearestEven (a / 2 ^ e)) * 2 ^ e.

(** The double nearest to [q]. *)
Definition round64 (q : Q) : num :=
  if Qeq_bool q 0 then Fin 0 else
  let v := roundNearest (Qabs q) in
  if Qle_bool (2 ^ 1024) v then (if Qltb 0 q then PInf else NInf)
  else Fin (Qred (if Qltb 0 q then v else - v)).

Definition rnd (a : num) : num :=
  match a with Fin q => round64 q | _ => a end.

(** [a + b], [a * b] and [a / b] *)
Definition add (a b : num) : num := rnd (JS.add a b).
Definition mul (a b : num) : num := rnd (JS.mul a b).
Definition div (a b : num) : num := rnd (JS.div a b).

(** The reducer of [totalWidthCm], before the final [|| 1]. *)
Definition sumWidthCm (plates : list Plate) : num :=
  fold_left (fun s p => add s (plateWidthCm p)) plates (Fin 0).

Definition totalWidthCm (plates : list Plate) : num :=
  or_else (sumWidthCm plates) (Fin 1).

(** [frameDims]; [el] is the container as the memo last read it. *)
Definition frameDims (el : option Element) (totalW sx : num) : FrameDims :=
  {| frameH := match el with Some e => of_Z (clientHeight e) | None => of_Z 360 end;
     frameW := Math_max (Fin 1) (Math_round (mul totalW sx)) |}.

(** [tile] *)
Definition tile (sx fw : num) : TileDims :=
  let tw := Math_max (Fin 1) (Math_round (mul MOTIF_WIDTH_CM sx)) in
  {| tileW := tw;
     tileCount := Math_max (Fin 1) (Math_ceil (div fw tw)) |}.

Section Preview.

(** [HEIGHT_MAX] of [constants/limits.js], a configuration constant. *)
Variable HEIGHT_MAX : num.

(** [compute], as a transformer of the scale state. *)
Definition compute (el : option Element) (totalW : num) (st : ScaleState)
  : ScaleState :=
  match el with
  | None => st
  | Some e =>
      let boxW := Math_max (Fin 1) (of_Z (clientWidth e)) in
      let boxH := Math_max (Fin 1) (of_Z (clientHeight e)) in
      let vScale := div boxH HEIGHT_MAX in
      let hScale := div boxW (Math_max (Fin 1) totalW) in
      {| scaleY := vScale; scaleX := Math_min vScale hScale |}
  end.

End Preview.

Section Render.

Variable el : option Element.
Variable st : ScaleState.
Variable totalW : num.

Let fd : FrameDims := frameDims el totalW (scaleX st).
Let tl : TileDims := tile (scaleX st) (frameW fd).

(** The body of the [plates.map] callback for plate [p] at index [i]
    with the running offset [xCm]; [None] when building the tile row
    throws. *)
Definition renderPlate (xCm : num) (i : nat) (p : Plate) : option PlateBox :=
  let wCm := plateWidthCm p in
  let hCm := plateHeightCm p in
  let w := Math_max (Fin 1) (Math_round (mul wCm (scaleX st))) in
  let h := Math_max (Fin 1) (Math_round (mul hCm (scaleY st))) in
  let leftPx := Math_round (mul xCm (scaleX st)) in
  let motif :=
    if negb (needMirror totalW)
    then Some (Stretched (i + 1) (neg leftPx) (frameW fd) (frameH fd))
    else match tileRow tl (frameH fd) with
         | Some tiles => Some (TileRow (neg leftPx) (frameW fd) (frameH fd) tiles)
         | None => None
         end in
  match motif with
  | Some m =>
      Some {| boxKey := id p; boxWidth := w; boxHeight := h;
              boxLeft := leftPx; boxMotif := m |}
  | None => None
  end.

(** The render loop; every callback advances [xCm] by the plate's
    width. *)
Fixpoint renderFrom (xCm : num) (i : nat) (plates : list Plate)
  : option (list PlateBox) :=
  match plates with
  | [] => Some []
  | p :: rest =>
      match renderPlate xCm i p with
      | None => None
      | Some b =>
          match renderFrom (add xCm (plateWidthCm p)) (S i) rest with
          | None => None
          | Some bs => Some (b :: bs)
          end
      end
  end.

End Render.

(** One render pass of [MultiPlatePreview]. *)
Definition render (el : option Element) (st : ScaleState) (plates : list Plate)
  : option (list PlateBox) :=
  renderFrom el st (totalWidthCm plates) (Fin 0) 0 plates.

(** [CM_PER_IN]: the literal [2.54] as a double. *)
Definition CM_PER_IN : num := round64 (254 # 100).

(** [parseFloat(x.toFixed(2))]: [toFixed] prints the two-decimal number
    nearest to the double (a tie going away from zero), [parseFloat]
    reads the double nearest to what was printed; from 10^21 on
    [toFixed] prints the number itself. *)
Definition toFixed2 (x : num) : num :=
  match x with
  | Fin q =>
      if Qle_bool (inject_Z (10 ^ 21)) (Qabs q) then Fin q
      else if Qltb q 0
           then round64 (- (inject_Z (Qfloor (- q * 100 + (1 # 2))) / 100))
           else round64 (inject_Z (Qfloor (q * 100 + (1 # 2))) / 100)
  | _ => x
  end.

(** [unitToCm] on the number the input was parsed to. *)
Definition unitToCm (val : num) (unit : string) : num :=
  if String.eqb unit "in" then toFixed2 (mul val CM_PER_IN)
  else toFixed2 val.

Section PlateItem.

(** The limits of [constants/limits.js]. *)
Variable WIDTH_MIN WIDTH_MAX : num.

(** [commitWidth]: the plate handed to [onCommit], or [None] when the
    handler takes one of its two reject paths and does not call it.
    [nUnit] is what [parseLocaleNumber(wInput)] returned.  What the
    reject paths show ([formatNumber] of [utils/number.js]) is left
    out. *)
Definition commitWidth (plate : Plate) (unit : string) (nUnit : num)
  : option Plate :=
  if negb (is_finite nUnit) then None
  else
    let nCm := unitToCm nUnit unit in
    if gt WIDTH_MIN nCm || gt nCm WIDTH_MAX then None
    else Some {| id := id plate; widthCm := VNum nCm;
                 heightCm := heightCm plate; motifUrl := motifUrl plate |}.

Variable HEIGHT_MIN HEIGHT_MAX : num.

(** [commitHeight], likewise. *)
Definition commitHeight (plate : Plate) (unit : string) (nUnit : num)
  : option Plate :=
  if negb (is_finite nUnit) then None
  else
    let nCm := unitToCm nUnit unit in
    if gt HEIGHT_MIN nCm || gt nCm HEIGHT_MAX then None
    else Some {| id := id plate; widthCm := widthCm plate;
                 heightCm := VNum nCm; motifUrl := motifUrl plate |}.

End PlateItem.

(** The running offset after the plates [ps], started at [x]. *)
Definition offsetCm (x : num) (ps : list Plate) : num :=
  fold_left (fun s p => add s (plateWidthCm p)) ps x.

(** Building the tile row throws: the mode is tiled and the array
    constructor rejects the tile count. *)
Definition tileRowThrows (el : option Element) (st : ScaleState) (totalW : num)
  : bool :=
  needMirror totalW &&
  match Array_from_length
          (tileCount (tile (scaleX st)
                           (frameW (frameDims el totalW (scaleX st))))) with
  | Some _ => false
  | None => true
  end.

End B64.

(** ** Positions in a list, used to state what [reorder] does *)

Definition removeAt {A : Type} (k : nat) (l : list A) : list A :=
  (firstn k l ++ skipn (S k) l)%list.

Definition insertAt {A : Type} (k : nat) (x : A) (l : list A) : list A :=
  (firstn k l ++ x :: skipn k l)%list.

Definition startsWhite (s : string) : bool :=
  match s with String c _ => isWhite c | EmptyString => false end.

Fixpoint endsWhite (s : string) : bool :=
  match s with
  | EmptyString => false
  | String c EmptyString => isWhite c
  | String _ r => endsWhite r
  end.

(** ** Definitions used to state the properties *)

(** [Math.max(1, Math.round(x))] of a finite number, as an integer. *)
Definition roundClamp (x : Q) : Z := Z.max 1 (Qfloor (x + (1 # 2))).

(** The running offset after the plates [ps], started at [x]: what the
    [xCm += widthCm] of the callbacks has accumulated. *)
Definition offsetCm (x : num) (ps : list Plate) : num :=
  fold_left (fun s p => add s (plateWidthCm p)) ps x.

(** Building the tile row throws: the mode is tiled and the array
    constructor rejects the tile count. *)
Definition tileRowThrows (el : option Element) (st : ScaleState) (totalW : num)
  : bool :=
  needMirror totalW &&
  match Array_from_length
          (tileCount (tile (scaleX st)
                           (frameW (frameDims el totalW (scaleX st))))) with
  | Some _ => false
  | None => true
  end.

Definition isTiled (m : Motif) : bool :=
  match m with TileRow _ _ _ _ => true | Stretched _ _ _ _ => false end.

Definition motifTiles (m : Motif) : list TileImg :=
  match m with TileRow _ _ _ tiles => tiles | Stretched _ _ _ _ => [] end.

(** The width of a plate as a rational, 0 when it is not finite. *)
Definition widthQ (p : Plate) : Q :=
  match plateWidthCm p with Fin w => w | _ => 0 end.

Definition finiteWidth (p : Plate) : bool := is_finite (plateWidthCm p).


Definition sumQ (l : list Q) : Q := fold_right Qplus 0 l.

Definition sumZ (l : list Z) : Z := fold_right Z.add 0%Z l.

(** A field that is missing ([undefined], [null]) or holds NaN. *)
Definition absentOrNaN (v : value) : bool :=
  match v with
  | VUndefined | VNull | VNum NaN => true
  | VNum _ => false
  end.

Definition keepOthers (id0 : string) (p : Plate) : bool :=
  negb (String.eqb (id p) id0).

(** The relative error of one rounding to a double, 2^-53, and the
    absolute error of a rounding among the subnormal numbers, 2^-1075. *)
Definition u64 : Q := 1 # 9007199254740992.

Definition eta64 : Q := 2 ^ (-1075).

(** Scenario A of the design document: a container of 800 x 360 px, two
    plates of 250 x 128 cm and 100 x 90 cm, a height ceiling of 220 cm. *)
Definition exampleElement : Element := {| clientWidth := 800; clientHeight := 360 |}.

Definition plateA : Plate :=
  {| id := "a"; widthCm := VNum (Fin 250); heightCm := VNum (Fin 128);
     motifUrl := "m" |}.

Definition plateB : Plate :=
  {| id := "b"; widthCm := VNum (Fin 100); heightCm := VNum (Fin 90);
     motifUrl := "m" |}.

Definition examplePlates : list Plate := [plateA; plateB].

Definition exampleScale : ScaleState :=
  compute (Fin 220) (Some exampleElement) (totalWidthCm examplePlates) initialScale.

(** The same list with a plate in the middle that has no dimensions. *)
Definition blankPlate : Plate :=
  {| id := "c"; widthCm := VUndefined; heightCm := VNum NaN; motifUrl := "m" |}.

Definition exampleOps : list PlateOp :=
  [OpAdd "c"; OpRemove "a"; OpRemove "b"; OpRemove "c"; OpAdd "d"].

(** The stored width is a number between 0 and [hi]. *)
Definition widthWithin (hi : Q) (p : Plate) : bool :=
  match Number (widthCm p) with
  | Fin w => Qle_bool 0 w && Qle_bool w hi
  | _ => false
  end.

(** The product [widthCm * scaleX] of a plate as the engine computes
    it, 0 when it is not finite. *)
Definition scaledWidth64 (s : Q) (p : Plate) : Q :=
  match B64.mul (plateWidthCm p) (Fin s) with Fin r => r | _ => 0 end.

(** Scenario A in doubles. *)
Definition exampleScale64 : ScaleState :=
  B64.compute (Fin 220) (Some exampleElement) (B64.totalWidthCm examplePlates)
    initialScale.

(** Two plates of 91 cm in a container of 375 x 600 px.  The horizontal
    scale 375 / 182 governs; 91 * (375 / 182) is 187.5 on paper and
    187.49999999999997 in doubles. *)
Definition narrowElement : Element := {| clientWidth := 375; clientHeight := 600 |}.

Definition plate91 (i : string) : Plate :=
  {| id := i; widthCm := VNum (Fin 91); heightCm := VNum (Fin 100);
     motifUrl := "m" |}.

Definition narrowPlates : list Plate := [plate91 "a"; plate91 "b"].

Definition narrowScale : ScaleState :=
  B64.compute (Fin 220) (Some narrowElement) (B64.totalWidthCm narrowPlates)
    initialScale.

(** A plate whose stored width is [null], as a record in the storage can
    hold it, and the scales of the 800 x 360 container for it with a
    height ceiling of 128 cm. *)
Definition nullPlate : Plate :=
  {| id := "n"; widthCm := VNull; heightCm := VNum (Fin 100); motifUrl := "m" |}.

Definition nullScale : ScaleState :=
  B64.compute (Fin 128) (Some exampleElement) (B64.totalWidthCm [nullPlate])
    initialScale.

(** Two plates of 256 cm and 2^-45 cm and a scale of 2^50 px per cm. *)
Definition tinyPlates : list Plate :=
  [{| id := "a"; widthCm := VNum (Fin 256); heightCm := VNum (Fin 100);
      motifUrl := "m" |};
   {| id := "b"; widthCm := VNum (Fin (1 # 2 ^ 45)); heightCm := VNum (Fin 100);
      motifUrl := "m" |}].

Definition hugeScale : ScaleState :=
  {| scaleX := of_Z (2 ^ 50); scaleY := Fin 1 |}.

(** A plate of 110 cm height in a container of 800 x 441 px. *)
Definition tallElement : Element := {| clientWidth := 800; clientHeight := 441 |}.

Definition halfPlate : Plate :=
  {| id := "t"; widthCm := VNum (Fin 100); heightCm := VNum (Fin 110);
     motifUrl := "m" |}.

(** A plate of 3 * 10^12 cm. *)
Definition heavyPlate : Plate :=
  {| id := "h"; widthCm := VNum (of_Z (3 * 10 ^ 12)); heightCm := VNum (Fin 100);
     motifUrl := "m" |}.

(** More example data: a drop of the first plate on the second
    position, an edit of the first plate, a pasted address. *)
Definition exampleDrop : DropResult := {| destination := Some 1%nat; source := 0%nat |}.

Definition widerPlateA : Plate :=
  {| id := "a"; widthCm := VNum (Fin 200); heightCm := VNum (Fin 128);
     motifUrl := "m" |}.

(** Two plates that carry the same id. *)
Definition twinPlates : list Plate := [plateA; widerPlateA].

Definition exampleAddress : string := " https://example.com/bild.jpg ".

(** * Properties *)

(** ** Facts about the number model *)

Lemma Qltb_iff (a b : Q) : Qltb a b = true <-> a < b.
Proof.
  unfold Qltb. rewrite negb_true_iff. split; intro H.
  - apply Qnot_le_lt. intro Hle. apply Qle_bool_iff in Hle. congruence.
  - destruct (Qle_bool b a) eqn:E; [|reflexivity].
    apply Qle_bool_iff in E. exfalso. apply (Qlt_not_le _ _ H E).
Qed.

Lemma Qle_bool_false (a b : Q) : Qle_bool a b = false <-> b < a.
Proof.
  rewrite <- Qltb_iff. unfold Qltb. rewrite negb_true_iff. reflexivity.
Qed.

Lemma Qeq_bool_false (a b : Q) : Qeq_bool a b = false <-> ~ a == b.
Proof.
  split; intro H.
  - intro E. apply Qeq_bool_iff in E. congruence.
  - destruct (Qeq_bool a b) eqn:E; [|reflexivity].
    apply Qeq_bool_iff in E. contradiction.
Qed.

Lemma inject_Z_max1 (z : Z) : 1 <= inject_Z (Z.max 1 z).
Proof.
  change 1 with (inject_Z 1). rewrite <- Zle_Qle. lia.
Qed.

(** [Math.max(1, n)] of an integer is the integer maximum. *)
Lemma Math_max_1_of_Z (z : Z) : Math_max (Fin 1) (of_Z z) = of_Z (Z.max 1 z).
Proof.
  unfold Math_max, of_Z, le.
  destruct (Qle_bool 1 (inject_Z z)) eqn:E.
  - apply Qle_bool_iff in E. change 1 with (inject_Z 1) in E.
    rewrite <- Zle_Qle in E. rewrite Z.max_r by exact E. reflexivity.
  - apply Qle_bool_false in E. change 1 with (inject_Z 1) in E.
    rewrite <- Zlt_Qlt in E. rewrite Z.max_l by lia. reflexivity.
Qed.

Lemma max1_round_Fin (x : Q) :
  Math_max (Fin 1) (Math_round (Fin x)) = of_Z (roundClamp x).
Proof. unfold Math_round. apply Math_max_1_of_Z. Qed.

Lemma round_zero_eqv (x : Q) : x == 0 -> Math_round (Fin x) = Fin 0.
Proof.
  intro H. unfold Math_round, of_Z. rewrite H. reflexivity.
Qed.

(** [Math.max(1, t)] of a number other than NaN is a number at least 1. *)
Lemma Math_max_1_cases (t : num) :
  t = NaN \/ Math_max (Fin 1) t = PInf \/
  exists d, Math_max (Fin 1) t = Fin d /\ 1 <= d.
Proof.
  destruct t as [| | |q].
  - left; reflexivity.
  - right; left; reflexivity.
  - right; right. exists 1. split; [reflexivity | lra].
  - right; right. unfold Math_max, le.
    destruct (Qle_bool 1 q) eqn:E.
    + exists q. split; [reflexivity | now apply Qle_bool_iff].
    + exists 1. split; [reflexivity | lra].
Qed.

Lemma Math_max_1_Fin (t : Q) :
  exists d, Math_max (Fin 1) (Fin t) = Fin d /\ d == Qmax 1 t.
Proof.
  unfold Math_max, le. destruct (Qle_bool 1 t) eqn:E.
  - exists t. split; [reflexivity|]. apply Qle_bool_iff in E.
    symmetry. apply Q.max_r. exact E.
  - exists 1. split; [reflexivity|]. apply Qle_bool_false in E.
    symmetry. apply Q.max_l. lra.
Qed.

Lemma Math_min_Fin (a b : Q) :
  exists m, Math_min (Fin a) (Fin b) = Fin m /\ m == Qmin a b /\ m <= a.
Proof.
  unfold Math_min, le. destruct (Qle_bool a b) eqn:E.
  - exists a. split; [reflexivity|]. apply Qle_bool_iff in E.
    split; [symmetry; apply Q.min_l; exact E | lra].
  - exists b. split; [reflexivity|]. apply Qle_bool_false in E.
    split; [symmetry; apply Q.min_r; lra | lra].
Qed.

Lemma div_Fin_pos (a b : Q) : 0 < b -> div (Fin a) (Fin b) = Fin (a / b).
Proof.
  intro Hb. unfold div.
  destruct (Qeq_bool b 0) eqn:E; [|reflexivity].
  apply Qeq_bool_iff in E. lra.
Qed.


(** ** Facts about lists *)

Lemma Some_eq {A : Type} (x y : A) : Some x = Some y -> x = y.
Proof. congruence. Qed.

Lemma firstn_snoc_nth {A : Type} (l : list A) (k : nat) (x : A) :
  nth_error l k = Some x -> firstn (S k) l = (firstn k l ++ [x])%list.
Proof.
  revert k. induction l as [| y l IH]; intros [| k] H; try discriminate.
  - cbn in H. injection H as ->. reflexivity.
  - cbn [nth_error] in H. cbn [firstn app]. f_equal.
    exact (IH k H).
Qed.

(** ** Rounding to binary64 *)

Lemma pow2_pos (e : Z) : 0 < 2 ^ e.
Proof. apply Qpower_0_lt. reflexivity. Qed.

Lemma pow2_succ (e : Z) : 2 ^ (e + 1) == 2 * 2 ^ e.
Proof.
  rewrite Qpower_plus by (intro H; discriminate H).
  rewrite Qpower_1_r. ring.
Qed.

Lemma pow2_inject (n : Z) : (0 <= n)%Z -> inject_Z (2 ^ n) == 2 ^ n.
Proof. intro H. exact (Zpower_Qpower 2 n H). Qed.

Lemma pow2_opp (n : Z) : 2 ^ (- n) == / 2 ^ n.
Proof. apply Qpower_opp. Qed.

Lemma ilog2_spec (a : Q) :
  0 < a -> 2 ^ B64.ilog2 a <= a /\ a < 2 ^ (B64.ilog2 a + 1).
Proof.
  intro Ha. unfold B64.ilog2. destruct (Qle_bool 1 a) eqn:E.
  - apply Qle_bool_iff in E.
    assert (Hf : (1 <= Qfloor a)%Z).
    { rewrite <- (Qfloor_Z 1). apply Qfloor_resp_le. exact E. }
    destruct (Z.log2_spec (Qfloor a)) as [H1 H2]; [lia|].
    pose proof (Z.log2_nonneg (Qfloor a)) as Hn.
    set (L := Z.log2 (Qfloor a)) in *.
    split.
    + rewrite <- pow2_inject by exact Hn.
      eapply Qle_trans; [| apply Qfloor_le]. rewrite <- Zle_Qle. exact H1.
    + rewrite <- pow2_inject by lia.
      eapply Qlt_le_trans; [apply Qlt_floor|]. rewrite <- Zle_Qle.
      unfold Z.succ in H2. lia.
  - apply Qle_bool_false in E.
    assert (Hy : 1 < / a).
    { apply Qlt_shift_inv_l; [exact Ha | lra]. }
    pose proof (Qle_ceiling (/ a)) as Hc1.
    pose proof (Qceiling_lt (/ a)) as Hc2.
    set (c := Qceiling (/ a)) in *.
    assert (Hc : (1 < c)%Z).
    { assert (H : inject_Z 1 < inject_Z c) by (change (inject_Z 1) with 1; lra).
      rewrite <- Zlt_Qlt in H. exact H. }
    destruct (Z.log2_up_spec c Hc) as [H1 H2].
    assert (Hn : (0 < Z.log2_up c)%Z) by (apply Z.log2_up_pos; exact Hc).
    set (L := Z.log2_up c) in *.
    pose proof (pow2_pos L) as HpL.
    assert (Hp1 : 0 < 2 ^ (L - 1)) by apply pow2_pos.
    split.
    + rewrite pow2_opp. apply Qle_shift_inv_r; [exact HpL|].
      assert (Hle : / a <= 2 ^ L).
      { eapply Qle_trans; [exact Hc1|]. rewrite <- pow2_inject by lia.
        rewrite <- Zle_Qle. exact H2. }
      assert (E1 : a * / a == 1) by (field; lra).
      rewrite <- E1. rewrite (Qmult_comm a (2 ^ L)), (Qmult_comm a (/ a)).
      apply Qmult_le_compat_r; lra.
    + replace (- L + 1)%Z with (- (L - 1))%Z by lia.
      rewrite pow2_opp. apply Qlt_shift_inv_l; [exact Hp1|].
      assert (Hlt : 2 ^ (L - 1) < / a).
      { eapply Qle_lt_trans; [| exact Hc2].
        rewrite <- pow2_inject by lia. rewrite <- Zle_Qle.
        unfold Z.pred in H1. replace (L - 1)%Z with (L + -1)%Z by lia. lia. }
      assert (E1 : a * / a == 1) by (field; lra).
      rewrite <- E1. apply Qmult_lt_l; [exact Ha | exact Hlt].
Qed.

Lemma nearestEven_cases (x : Q) :
  B64.nearestEven x = Qfloor x /\ x - inject_Z (Qfloor x) <= 1 # 2 \/
  B64.nearestEven x = (Qfloor x + 1)%Z /\ 1 # 2 <= x - inject_Z (Qfloor x).
Proof.
  unfold B64.nearestEven. cbv zeta.
  destruct (Qltb (x - inject_Z (Qfloor x)) (1 # 2)) eqn:E1.
  - left. apply Qltb_iff in E1. split; [reflexivity | lra].
  - unfold Qltb in E1. apply negb_false_iff in E1. apply Qle_bool_iff in E1.
    destruct (Qltb (1 # 2) (x - inject_Z (Qfloor x))) eqn:E2.
    + right. split; [reflexivity | exact E1].
    + unfold Qltb in E2. apply negb_false_iff in E2. apply Qle_bool_iff in E2.
      destruct (Z.even (Qfloor x)); [left | right]; split;
        reflexivity || assumption.
Qed.

Lemma nearestEven_near (x : Q) :
  Qabs (inject_Z (B64.nearestEven x) - x) <= 1 # 2.
Proof.
  pose proof (Qfloor_le x) as Hl. pose proof (Qlt_floor x) as Hu.
  rewrite inject_Z_plus in Hu. change (inject_Z 1) with 1 in Hu.
  apply Qabs_Qle_condition.
  destruct (nearestEven_cases x) as [[-> H] | [-> H]].
  - split; lra.
  - rewrite inject_Z_plus. change (inject_Z 1) with 1. split; lra.
Qed.

Lemma nearestEven_le (x : Q) (z : Z) :
  x <= inject_Z z -> (B64.nearestEven x <= z)%Z.
Proof.
  intro H. pose proof (Qfloor_le x) as Hl.
  destruct (nearestEven_cases x) as [[-> Hr] | [-> Hr]].
  - rewrite Zle_Qle. lra.
  - assert (Hlt : inject_Z (Qfloor x) < inject_Z z) by lra.
    rewrite <- Zlt_Qlt in Hlt. lia.
Qed.

Lemma nearestEven_ge (x : Q) (z : Z) :
  inject_Z z <= x -> (z <= B64.nearestEven x)%Z.
Proof.
  intro H.
  assert (Hf : (z <= Qfloor x)%Z).
  { rewrite <- (Qfloor_Z z). apply Qfloor_resp_le. exact H. }
  destruct (nearestEven_cases x) as [[-> _] | [-> _]]; lia.
Qed.

Lemma Qabs_pos_eq (x : Q) : 0 < x -> Qabs x = x.
Proof.
  destruct x as [n d]. unfold Qlt. cbn. intro H. unfold Qabs.
  f_equal. apply Z.abs_eq. lia.
Qed.

Lemma Qabs_neg_eq (x : Q) : x < 0 -> Qabs x = - x.
Proof.
  destruct x as [n d]. unfold Qlt. cbn. intro H. unfold Qabs, Qopp. cbn.
  f_equal. apply Z.abs_neq. lia.
Qed.

Lemma round64_pos_unfold (x : Q) :
  0 < x ->
  B64.round64 x = if Qle_bool (2 ^ 1024) (B64.roundNearest x) then PInf
                  else Fin (Qred (B64.roundNearest x)).
Proof.
  intro H. unfold B64.round64.
  replace (Qeq_bool x 0) with false
    by (symmetry; apply Qeq_bool_false; lra).
  rewrite (Qabs_pos_eq x H).
  replace (Qltb 0 x) with true by (symmetry; now apply Qltb_iff).
  reflexivity.
Qed.

Lemma round64_neg_unfold (x : Q) :
  0 < x ->
  B64.round64 (- x) = if Qle_bool (2 ^ 1024) (B64.roundNearest x) then NInf
                      else Fin (- Qred (B64.roundNearest x)).
Proof.
  intro H. unfold B64.round64.
  replace (Qeq_bool (- x) 0) with false
    by (symmetry; apply Qeq_bool_false; lra).
  assert (Hn : - x < 0) by lra.
  rewrite (Qabs_neg_eq (- x) Hn).
  assert (E : - - x = x).
  { destruct x as [n d]. unfold Qopp. cbn. now rewrite Z.opp_involutive. }
  rewrite E.
  replace (Qltb 0 (- x)) with false.
  2:{ symmetry. unfold Qltb. apply negb_false_iff. apply Qle_bool_iff. lra. }
  rewrite Qred_opp. reflexivity.
Qed.

Lemma roundNearest_bound (x : Q) :
  0 < x ->
  0 <= B64.roundNearest x /\ Qabs (B64.roundNearest x - x) <= x * u64 + eta64.
Proof.
  intro Hx. unfold B64.roundNearest. cbv zeta.
  destruct (ilog2_spec x Hx) as [HL _].
  set (L := B64.ilog2 x) in *.
  set (e := Z.max (L - 52) (-1074)).
  pose proof (pow2_pos e) as He.
  set (y := x / 2 ^ e).
  assert (Hy : 0 <= y).
  { unfold y. apply Qle_shift_div_l; [exact He | lra]. }
  pose proof (nearestEven_near y) as Hn.
  pose proof (nearestEven_ge y 0 Hy) as Hm0.
  set (m := B64.nearestEven y) in *.
  assert (Hm0' : 0 <= inject_Z m).
  { change 0 with (inject_Z 0). rewrite <- Zle_Qle. exact Hm0. }
  split.
  - apply Qmult_le_0_compat; lra.
  - assert (Ex : x == y * 2 ^ e) by (unfold y; field; lra).
    assert (Hd : Qabs (inject_Z m * 2 ^ e - x) <= (1 # 2) * 2 ^ e).
    { assert (E : inject_Z m * 2 ^ e - x == (inject_Z m - y) * 2 ^ e)
        by (rewrite Ex at 1; ring).
      rewrite E, Qabs_Qmult, (Qabs_pos (2 ^ e)) by lra.
      apply Qmult_le_compat_r; lra. }
    eapply Qle_trans; [exact Hd|].
    assert (Hxu : 0 <= x * u64).
    { apply Qmult_le_0_compat; [lra | discriminate]. }
    assert (Heta : 0 < eta64) by apply pow2_pos.
    destruct (Z.max_spec (L - 52) (-1074)) as [[Hlt Ee] | [Hle Ee]].
    + (* subnormal *)
      assert (E : (1 # 2) * 2 ^ e == eta64).
      { unfold eta64, e. rewrite Ee.
        change (-1074)%Z with (-1075 + 1)%Z. rewrite pow2_succ. ring. }
      rewrite E. lra.
    + assert (E : (1 # 2) * 2 ^ e == 2 ^ L * u64).
      { unfold e. rewrite Ee.
        replace (L - 52)%Z with (L + -52)%Z by lia.
        rewrite Qpower_plus by (intro H; discriminate H).
        assert (E52 : (1 # 2) * 2 ^ (-52) == u64) by reflexivity.
        rewrite <- E52. ring. }
      rewrite E.
      assert (2 ^ L * u64 <= x * u64).
      { apply Qmult_le_compat_r; [exact HL | discriminate]. }
      lra.
Qed.

Lemma no_overflow_below (v x : Q) :
  0 < x -> x <= 2 ^ 1023 -> Qabs (v - x) <= x * u64 + eta64 ->
  Qle_bool (2 ^ 1024) v = false.
Proof.
  intros Hx Hb Hv. apply Qle_bool_false.
  apply Qabs_Qle_condition in Hv.
  assert (Hc : 2 ^ 1023 + 2 ^ 1023 * u64 + eta64 < 2 ^ 1024)
    by (vm_compute; reflexivity).
  assert (Hm : x * u64 <= 2 ^ 1023 * u64).
  { apply Qmult_le_compat_r; [exact Hb | discriminate]. }
  set (B := 2 ^ 1023) in *. set (C := 2 ^ 1024) in *. lra.
Qed.

(** Rounding a number of magnitude at most 2^1023 gives a finite number
    of the same sign within the relative error 2^-53 (and the absolute
    error 2^-1075 among the subnormal numbers). *)
Lemma round64_bound (x : Q) :
  Qabs x <= 2 ^ 1023 ->
  exists r, B64.round64 x = Fin r /\
            Qabs (r - x) <= Qabs x * u64 + eta64 /\
            (0 <= x -> 0 <= r) /\ (x <= 0 -> r <= 0).
Proof.
  intro Hb.
  assert (Heta : 0 < eta64) by apply pow2_pos.
  destruct (Q_dec x 0) as [[Hneg | Hpos] | Hz].
  - assert (Hp : 0 < - x) by lra.
    assert (Ex : x = - - x).
    { destruct x as [n d]. unfold Qopp. cbn. now rewrite Z.opp_involutive. }
    assert (Ea : Qabs x == - x) by (apply Qabs_neg; lra).
    rewrite Ea in Hb.
    destruct (roundNearest_bound (- x) Hp) as [H0 Hd].
    replace (B64.round64 x) with (B64.round64 (- - x)) by (now rewrite <- Ex).
    rewrite (round64_neg_unfold (- x) Hp).
    rewrite (no_overflow_below _ _ Hp Hb Hd).
    exists (- Qred (B64.roundNearest (- x))). split; [reflexivity|].
    rewrite Qred_correct. split; [| clear - H0 Hneg; split; intro; lra].
    apply Qabs_Qle_condition in Hd. apply Qabs_Qle_condition.
    rewrite Ea. clear - Hd. split; lra.
  - assert (Ea : Qabs x == x) by (apply Qabs_pos; lra).
    rewrite Ea in Hb.
    destruct (roundNearest_bound x Hpos) as [H0 Hd].
    rewrite (round64_pos_unfold x Hpos).
    rewrite (no_overflow_below _ _ Hpos Hb Hd).
    exists (Qred (B64.roundNearest x)). split; [reflexivity|].
    rewrite Qred_correct, Ea. split; [exact Hd | clear - H0 Hpos; split; intro; lra].
  - exists 0. unfold B64.round64.
    replace (Qeq_bool x 0) with true by (symmetry; now apply Qeq_bool_iff).
    split; [reflexivity|]. rewrite Hz.
    split; [| split; intro; lra].
    apply Qabs_Qle_condition. change (Qabs 0) with 0. split; lra.
Qed.

(** Rounding never crosses an integer below 2^53. *)
Lemma round64_le_int (x : Q) (z : Z) :
  0 < x -> x <= inject_Z z -> (z < 2 ^ 53)%Z ->
  exists r, B64.round64 x = Fin r /\ 0 <= r /\ r <= inject_Z z.
Proof.
  intros Hx Hz Hb.
  destruct (ilog2_spec x Hx) as [HL _].
  assert (HzQ : inject_Z z < 2 ^ 53).
  { rewrite <- pow2_inject by lia. rewrite <- Zlt_Qlt. exact Hb. }
  assert (HL52 : (B64.ilog2 x <= 52)%Z).
  { assert (H : 2 ^ B64.ilog2 x < 2 ^ 53) by lra.
    apply Qpower_lt_compat_l_inv in H; [lia | reflexivity]. }
  destruct (roundNearest_bound x Hx) as [H0 _].
  assert (Hle : B64.roundNearest x <= inject_Z z).
  { unfold B64.roundNearest. cbv zeta.
    set (e := Z.max (B64.ilog2 x - 52) (-1074)).
    assert (He0 : (e <= 0)%Z) by (unfold e; lia).
    pose proof (pow2_pos e) as He.
    pose proof (pow2_pos (- e)) as Hme.
    assert (Einv : 2 ^ e * 2 ^ (- e) == 1).
    { rewrite <- Qpower_plus by (intro H; discriminate H).
      replace (e + - e)%Z with 0%Z by lia. reflexivity. }
    assert (EN : inject_Z (z * 2 ^ (- e)) == inject_Z z * 2 ^ (- e)).
    { rewrite inject_Z_mult, pow2_inject by lia. reflexivity. }
    assert (Hy : x / 2 ^ e <= inject_Z (z * 2 ^ (- e))).
    { rewrite EN. apply Qle_shift_div_r; [exact He|].
      assert (E : inject_Z z * 2 ^ (- e) * 2 ^ e == inject_Z z).
      { rewrite <- Qmult_assoc, (Qmult_comm (2 ^ (- e))), Einv. ring. }
      rewrite E. exact Hz. }
    pose proof (nearestEven_le _ _ Hy) as Hm.
    rewrite Zle_Qle, EN in Hm.
    assert (E : inject_Z z == inject_Z z * 2 ^ (- e) * 2 ^ e).
    { rewrite <- Qmult_assoc, (Qmult_comm (2 ^ (- e))), Einv. ring. }
    rewrite E. apply Qmult_le_compat_r; [exact Hm | lra]. }
  rewrite (round64_pos_unfold x Hx).
  replace (Qle_bool (2 ^ 1024) (B64.roundNearest x)) with false.
  2:{ symmetry. apply Qle_bool_false.
      assert (Hc : 2 ^ 53 < 2 ^ 1024) by (vm_compute; reflexivity).
      set (C := 2 ^ 1024) in *. set (D := 2 ^ 53) in *. lra. }
  exists (Qred (B64.roundNearest x)). split; [reflexivity|].
  rewrite Qred_correct. split; assumption.
Qed.

(** ** The scale resolver *)

Section ScaleResolver.

Variable hmax : Q.
Hypothesis hmax_pos : 0 < hmax.

(** What [compute] stores for a mounted container: both scales are
    finite, the vertical one is the clamped height over [HEIGHT_MAX],
    and the horizontal one lies between 0 and the vertical one. *)
Lemma compute_mounted (e : Element) (T : num) (st : ScaleState) :
  T <> NaN ->
  exists sx sy,
    compute (Fin hmax) (Some e) T st = {| scaleX := Fin sx; scaleY := Fin sy |} /\
    sy = inject_Z (Z.max 1 (clientHeight e)) / hmax /\
    0 < sy /\ 0 <= sx /\ sx <= sy.
Proof.
  intro HT. unfold compute. rewrite !Math_max_1_of_Z. unfold of_Z.
  rewrite (div_Fin_pos _ hmax hmax_pos).
  pose proof (inject_Z_max1 (clientHeight e)) as Hh.
  pose proof (inject_Z_max1 (clientWidth e)) as Hw.
  set (bh := inject_Z (Z.max 1 (clientHeight e))) in *.
  set (bw := inject_Z (Z.max 1 (clientWidth e))) in *.
  assert (Hv : 0 < bh / hmax).
  { apply Qlt_shift_div_l; [exact hmax_pos | lra]. }
  destruct (Math_max_1_cases T) as [H | [H | [d [H Hd]]]]; [contradiction | |];
    rewrite H.
  - cbn [div].
    destruct (Math_min_Fin (bh / hmax) 0) as [m [Hm [Hq Hle]]].
    exists m, (bh / hmax). rewrite Hm. repeat split; try assumption.
    rewrite Hq, Q.min_r by lra. lra.
  - rewrite div_Fin_pos by lra.
    assert (Hq0 : 0 < bw / d) by (apply Qlt_shift_div_l; lra).
    destruct (Math_min_Fin (bh / hmax) (bw / d)) as [m [Hm [Hq Hle]]].
    exists m, (bh / hmax). rewrite Hm. repeat split; try assumption.
    rewrite Hq. apply Q.min_glb; lra.
Qed.


(** C8, as the code has it.  Whatever the container, the total width
    and the previous state, the [scaleX] that [compute] stores is at
    most the [scaleY] it stores, and never exceeds it. *)
Theorem compute_scaleX_le_scaleY (e : Element) (T : num) (st : ScaleState) :
  T <> NaN ->
  let st' := compute (Fin hmax) (Some e) T st in
  le (scaleX st') (scaleY st') = true /\ gt (scaleX st') (scaleY st') = false.
Proof.
  intros HT st'. subst st'.
  destruct (compute_mounted e T st HT) as [sx [sy [E [_ [_ [_ Hle]]]]]].
  rewrite E. cbn [scaleX scaleY le gt]. unfold Qltb.
  apply Qle_bool_iff in Hle. rewrite Hle. split; reflexivity.
Qed.

End ScaleResolver.

(** C6, as the code has it.  [compute] leaves the state alone only when
    the container is not mounted.  A mounted container of zero width or
    height is measured as 1 px in that direction and the scales are
    recomputed; what was stored before plays no part in the result. *)
Theorem compute_unmounted_or_zero_size (HEIGHT_MAX T : num) (st : ScaleState) :
  compute HEIGHT_MAX None T st = st /\
  (forall ch, compute HEIGHT_MAX (Some (mkElement 0 ch)) T st
              = compute HEIGHT_MAX (Some (mkElement 1 ch)) T st) /\
  (forall cw, compute HEIGHT_MAX (Some (mkElement cw 0)) T st
              = compute HEIGHT_MAX (Some (mkElement cw 1)) T st) /\
  (forall e st0, compute HEIGHT_MAX (Some e) T st
                 = compute HEIGHT_MAX (Some e) T st0).
Proof.
  repeat split; reflexivity.
Qed.

(** C6, the claim as written fails: with [HEIGHT_MAX = 220], a total
    width of 350 cm and a mounted container of size 0 x 0, [compute]
    replaces the initial scales (1, 1) by (1/350, 1/220). *)
Lemma compute_zero_size_overwrites :
  compute (Fin 220) (Some (mkElement 0 0)) (Fin 350) initialScale
    = {| scaleX := Fin (1 / 350); scaleY := Fin (1 / 220) |} /\
  compute (Fin 220) (Some (mkElement 0 0)) (Fin 350) initialScale
    <> initialScale.
Proof.
  split; [reflexivity | discriminate].
Qed.

(** C8, the claim as written fails: no positive container size, total
    width and height ceiling make [compute] store a [scaleX] above
    [scaleY]. *)
Lemma no_scaleX_above_scaleY :
  ~ exists (hmax t : Q) (cw ch : Z) (st : ScaleState),
      0 < hmax /\ 0 < t /\ (0 < cw)%Z /\ (0 < ch)%Z /\
      gt (scaleX (compute (Fin hmax) (Some (mkElement cw ch)) (Fin t) st))
         (scaleY (compute (Fin hmax) (Some (mkElement cw ch)) (Fin t) st))
      = true.
Proof.
  intros [hmax [t [cw [ch [st [Hh [_ [_ [_ H]]]]]]]]].
  assert (HT : Fin t <> NaN) by discriminate.
  destruct (compute_mounted hmax Hh (mkElement cw ch) (Fin t) st HT)
    as [sx [sy [E [_ [_ [_ Hle]]]]]].
  rewrite E in H. cbn [scaleX scaleY gt] in H. apply Qltb_iff in H. lra.
Qed.

(** ** The render loop *)

Section RenderFacts.

Variable el : option Element.
Variable st : ScaleState.
Variable totalW : num.

Let fd := frameDims el totalW (scaleX st).
Let tl := tile (scaleX st) (frameW fd).

(** The box of one plate, when the tile row can be built. *)
Lemma renderPlate_box (x : num) (i : nat) (p : Plate) :
  tileRowThrows el st totalW = false ->
  exists m,
    renderPlate el st totalW x i p =
      Some {| boxKey := id p;
              boxWidth := Math_max (Fin 1)
                            (Math_round (mul (plateWidthCm p) (scaleX st)));
              boxHeight := Math_max (Fin 1)
                             (Math_round (mul (plateHeightCm p) (scaleY st)));
              boxLeft := Math_round (mul x (scaleX st));
              boxMotif := m |} /\
    isTiled m = needMirror totalW /\
    (needMirror totalW = true ->
     tileRow tl (frameH fd) = Some (motifTiles m)).
Proof.
  unfold tileRowThrows, renderPlate. intro H.
  destruct (needMirror totalW) eqn:Hm; cbn [negb andb] in *.
  - unfold tileRow in *. fold fd. fold tl.
    fold fd in H. fold tl in H.
    destruct (Array_from_length (tileCount tl)) as [idxs|]; [|discriminate].
    eexists. split; [reflexivity|]. split; reflexivity.
  - eexists. split; [reflexivity|]. split; [reflexivity | discriminate].
Qed.

(** The loop returns one box per plate, the [k]-th being the callback's
    box at the offset the first [k] plates have accumulated. *)
Lemma renderFrom_boxes (ps : list Plate) :
  tileRowThrows el st totalW = false ->
  forall x i, exists bs,
    renderFrom el st totalW x i ps = Some bs /\
    List.length bs = List.length ps /\
    forall k p, nth_error ps k = Some p ->
      exists b, nth_error bs k = Some b /\
                renderPlate el st totalW (offsetCm x (firstn k ps)) (i + k) p
                  = Some b.
Proof.
  intro Hok. induction ps as [| q rest IH]; intros x i.
  - exists []. repeat split. intros [|k] p H; discriminate.
  - cbn [renderFrom].
    destruct (renderPlate_box x i q Hok) as [m [Eq _]].
    rewrite Eq.
    destruct (IH (add x (plateWidthCm q)) (S i)) as [bs [E [Hlen Hnth]]].
    rewrite E. eexists. split; [reflexivity|]. split.
    + cbn [List.length]. now rewrite Hlen.
    + intros [|k] p H.
      * cbn in H. injection H as <-. eexists. split; [reflexivity|].
        cbn [firstn offsetCm fold_left]. rewrite Nat.add_0_r. exact Eq.
      * cbn [nth_error] in H. destruct (Hnth k p H) as [b [Hb Hr]].
        exists b. split; [exact Hb|].
        cbn [firstn]. unfold offsetCm in *. cbn [fold_left].
        rewrite Nat.add_succ_r. exact Hr.
Qed.

End RenderFacts.

(** The clamp [Math.max(1, x)] yields NaN or a number at least 1. *)
Lemma Math_max_1_lower (t : num) :
  Math_max (Fin 1) t = NaN \/ le (Fin 1) (Math_max (Fin 1) t) = true.
Proof.
  destruct (Math_max_1_cases t) as [H | [H | [d [H Hd]]]].
  - subst t. left; reflexivity.
  - right. rewrite H. reflexivity.
  - right. rewrite H. cbn [le]. now apply Qle_bool_iff.
Qed.

(** ** The tiling test *)

Lemma needMirror_Fin (q : Q) : needMirror (Fin q) = true <-> 300 < q.
Proof.
  unfold needMirror, MOTIF_WIDTH_CM, of_Z. cbn [gt]. apply Qltb_iff.
Qed.

(** ** The tile row *)

Lemma mod2_odd (idx : nat) : (idx mod 2 =? 1)%nat = Nat.odd idx.
Proof.
  rewrite <- Nat.bit0_odd, <- Nat.bit0_mod.
  destruct (Nat.testbit idx 0); reflexivity.
Qed.

(** The row has ToLength(tileCount) tiles; tile [idx] has key [idx], the
    shared width, and is mirrored exactly when [idx] is odd. *)
Lemma tileRow_tiles (t : TileDims) (fh : num) (tiles : list TileImg) :
  tileRow t fh = Some tiles ->
  List.length tiles = Z.to_nat (ToLength (tileCount t)) /\
  forall idx ti, nth_error tiles idx = Some ti ->
    tileKey ti = idx /\ tileWidth ti = tileW t /\ tileHeight ti = fh /\
    mirrored ti = Nat.odd idx.
Proof.
  unfold tileRow, Array_from_length.
  destruct (ToLength (tileCount t) <=? 2 ^ 32 - 1)%Z; [|discriminate].
  intro H. injection H as <-. split.
  - now rewrite length_map, length_seq.
  - intros idx ti H. rewrite nth_error_map, nth_error_seq in H.
    destruct (idx <? Z.to_nat (ToLength (tileCount t)))%nat; [|discriminate].
    cbn in H. injection H as <-. cbn [tileKey tileWidth tileHeight mirrored].
    repeat split. apply mod2_odd.
Qed.

(** At a finite scale and a finite total width the frame width, the
    tile width and the tile count are positive integers, and the tiles
    together are at least as wide as the frame. *)
Lemma tile_dims_finite (el : option Element) (t s : Q) :
  let fw := roundClamp (t * s) in
  let tw := roundClamp (inject_Z 300 * s) in
  let n := Z.max 1 (Qceiling (inject_Z fw / inject_Z tw)) in
  frameW (frameDims el (Fin t) (Fin s)) = of_Z fw /\
  tile (Fin s) (of_Z fw) = {| tileW := of_Z tw; tileCount := of_Z n |} /\
  (1 <= fw)%Z /\ (1 <= tw)%Z /\ (1 <= n)%Z /\ (fw <= n * tw)%Z.
Proof.
  intros fw tw n.
  assert (Hfw : (1 <= fw)%Z) by (unfold fw, roundClamp; lia).
  assert (Htw : (1 <= tw)%Z) by (unfold tw, roundClamp; lia).
  assert (Hn : (1 <= n)%Z) by (unfold n; lia).
  assert (Htq : 0 < inject_Z tw).
  { change 0 with (inject_Z 0). rewrite <- Zlt_Qlt. lia. }
  split; [| split; [| repeat split; try assumption]].
  - unfold frameDims. cbn [frameW mul]. apply max1_round_Fin.
  - unfold tile, MOTIF_WIDTH_CM.
    change (mul (of_Z 300) (Fin s)) with (Fin (inject_Z 300 * s)).
    rewrite max1_round_Fin. fold tw.
    change (div (of_Z fw) (of_Z tw))
      with (div (Fin (inject_Z fw)) (Fin (inject_Z tw))).
    rewrite div_Fin_pos by exact Htq. cbn [Math_ceil].
    rewrite Math_max_1_of_Z. reflexivity.
  - assert (Hc : inject_Z fw / inject_Z tw <= inject_Z n).
    { eapply Qle_trans; [apply Qle_ceiling|].
      rewrite <- Zle_Qle. unfold n. lia. }
    assert (Hm : inject_Z fw <= inject_Z n * inject_Z tw).
    { assert (E : inject_Z fw == inject_Z fw / inject_Z tw * inject_Z tw).
      { field. lra. }
      rewrite E. apply Qmult_le_compat_r; [exact Hc | lra]. }
    rewrite <- inject_Z_mult in Hm. rewrite Zle_Qle. exact Hm.
Qed.

Lemma ToLength_of_Z (n : Z) : (1 <= n)%Z -> ToLength (of_Z n) = Z.min n (2 ^ 53 - 1).
Proof.
  intro H. unfold ToLength, of_Z. rewrite Qfloor_Z, Z.max_r by lia. reflexivity.
Qed.

(** The tile row can always be built when the frame is at most
    2^32 - 1 px wide: there are never more tiles than frame pixels. *)
Lemma tileRow_builds (el : option Element) (st : ScaleState) (t s : Q) :
  scaleX st = Fin s ->
  (roundClamp (t * s) <= 2 ^ 32 - 1)%Z ->
  tileRowThrows el st (Fin t) = false.
Proof.
  intros Hs Hfw. unfold tileRowThrows. rewrite Hs.
  destruct (tile_dims_finite el t s) as [Hf [Htl [Hfw1 [Htw [Hn _]]]]].
  rewrite Hf, Htl. cbn [tileCount].
  set (fw := roundClamp (t * s)) in *.
  set (tw := roundClamp (inject_Z 300 * s)) in *.
  assert (Hc : (Qceiling (inject_Z fw / inject_Z tw) <= fw)%Z).
  { rewrite <- (Qceiling_Z fw) at 2. apply Qceiling_resp_le.
    assert (H0 : 0 < inject_Z tw).
    { change 0 with (inject_Z 0). rewrite <- Zlt_Qlt. lia. }
    apply Qle_shift_div_r; [exact H0|].
    rewrite <- inject_Z_mult, <- Zle_Qle. nia. }
  unfold Array_from_length. rewrite ToLength_of_Z by exact Hn.
  replace (Z.min _ _ <=? 2 ^ 32 - 1)%Z with true
    by (symmetry; apply Z.leb_le; lia).
  apply andb_false_r.
Qed.

Lemma offsetCm_finite (ps : list Plate) :
  forallb finiteWidth ps = true ->
  forall x, offsetCm (Fin x) ps = Fin (fold_left Qplus (map widthQ ps) x).
Proof.
  induction ps as [| p rest IH]; intros H x; [reflexivity|].
  cbn [forallb] in H. apply andb_true_iff in H. destruct H as [Hp Hrest].
  unfold offsetCm in *. cbn [fold_left map].
  unfold finiteWidth in Hp.
  assert (E : plateWidthCm p = Fin (widthQ p)).
  { unfold widthQ. destruct (plateWidthCm p); try discriminate; reflexivity. }
  rewrite E. cbn [add]. apply IH. exact Hrest.
Qed.

Lemma totalWidthCm_finite (plates : list Plate) :
  forallb finiteWidth plates = true ->
  exists t, totalWidthCm plates = Fin t.
Proof.
  intro H. unfold totalWidthCm, sumWidthCm.
  change (fold_left (fun s p => add s (plateWidthCm p)) plates (Fin 0))
    with (offsetCm (Fin 0) plates).
  rewrite (offsetCm_finite plates H). unfold or_else. cbn [truthy].
  destruct (negb _); eexists; reflexivity.
Qed.

(** ** Rounding to pixels *)

Lemma roundClamp_lower (a : Q) : a - (1 # 2) < inject_Z (roundClamp a).
Proof.
  unfold roundClamp.
  pose proof (Qlt_floor (a + (1 # 2))) as H. rewrite inject_Z_plus in H.
  assert (Hm : inject_Z (Qfloor (a + (1 # 2)))
               <= inject_Z (Z.max 1 (Qfloor (a + (1 # 2))))).
  { rewrite <- Zle_Qle. lia. }
  change (inject_Z 1) with 1 in H. lra.
Qed.

Lemma roundClamp_upper (a : Q) : 0 <= a -> inject_Z (roundClamp a) <= a + 1.
Proof.
  intro Ha. unfold roundClamp.
  pose proof (Qfloor_le (a + (1 # 2))) as H.
  destruct (Z.max_spec 1 (Qfloor (a + (1 # 2)))) as [[_ E] | [_ E]]; rewrite E.
  - lra.
  - change (inject_Z 1) with 1. lra.
Qed.

Lemma roundClamp_upper_half (a : Q) :
  (2 <= roundClamp a)%Z -> inject_Z (roundClamp a) <= a + (1 # 2).
Proof.
  unfold roundClamp. intro H.
  rewrite Z.max_r by lia. apply Qfloor_le.
Qed.

Lemma roundClamp_nonpos (a : Q) : a <= 0 -> roundClamp a = 1%Z.
Proof.
  intro Ha. unfold roundClamp.
  assert (H : (Qfloor (a + (1 # 2)) <= 0)%Z).
  { assert (Hlt : inject_Z (Qfloor (a + (1 # 2))) < inject_Z 1).
    { eapply Qle_lt_trans; [apply Qfloor_le|]. change (inject_Z 1) with 1. lra. }
    rewrite <- Zlt_Qlt in Hlt. lia. }
  lia.
Qed.



(** ** Absent and invalid dimensions *)

Lemma absent_coerces_to_zero (v : value) :
  absentOrNaN v = true -> or_else (Number v) (Fin 0) = Fin 0.
Proof.
  destruct v as [| | [| | |q]]; try discriminate; reflexivity.
Qed.

Lemma num_eqv_refl (a : num) : num_eqv a a.
Proof. destruct a; cbn; auto. reflexivity. Qed.

Lemma add_zero_r (a : num) : num_eqv (add a (Fin 0)) a.
Proof. destruct a; cbn; auto. ring. Qed.

Lemma add_eqv (a b w : num) : num_eqv a b -> num_eqv (add a w) (add b w).
Proof.
  destruct a, b, w; cbn; try tauto. intro H. now rewrite H.
Qed.

Lemma offsetCm_eqv (ps : list Plate) :
  forall a b, num_eqv a b -> num_eqv (offsetCm a ps) (offsetCm b ps).
Proof.
  induction ps as [| p rest IH]; intros a b H; [exact H|].
  unfold offsetCm in *. cbn [fold_left]. apply IH. now apply add_eqv.
Qed.

Lemma or_else_eqv (a b d : num) : num_eqv a b -> num_eqv (or_else a d) (or_else b d).
Proof.
  unfold or_else. destruct a, b; cbn; try tauto; try (intros; apply num_eqv_refl).
  intro H. rewrite H. destruct (Qeq_bool q0 0); cbn; [apply num_eqv_refl | exact H].
Qed.

Lemma offsetCm_app (x : num) (l1 l2 : list Plate) :
  offsetCm x (l1 ++ l2) = offsetCm (offsetCm x l1) l2.
Proof. unfold offsetCm. apply fold_left_app. Qed.

(** C7, as the code has it.  A width or height that is absent or NaN is
    read as 0: such a width adds nothing to the summed and total width,
    and in a pass at a finite scale the plate's box is 1 px in that
    direction. *)
Theorem absent_dimension_is_zero (el : option Element) (st : ScaleState)
    (before after : list Plate) (p : Plate) :
  let plates := (before ++ p :: after)%list in
  (absentOrNaN (widthCm p) = true ->
   plateWidthCm p = Fin 0 /\
   num_eqv (sumWidthCm plates) (sumWidthCm (before ++ after)) /\
   num_eqv (totalWidthCm plates) (totalWidthCm (before ++ after))) /\
  (absentOrNaN (heightCm p) = true -> plateHeightCm p = Fin 0) /\
  (tileRowThrows el st (totalWidthCm plates) = false ->
   exists boxes b,
     render el st plates = Some boxes /\
     nth_error boxes (List.length before) = Some b /\
     (absentOrNaN (widthCm p) = true -> is_finite (scaleX st) = true ->
      boxWidth b = Fin 1) /\
     (absentOrNaN (heightCm p) = true -> is_finite (scaleY st) = true ->
      boxHeight b = Fin 1)).
Proof.
  intro plates. split; [| split].
  - intro Hw. pose proof (absent_coerces_to_zero _ Hw) as E.
    assert (Hsum : num_eqv (sumWidthCm plates) (sumWidthCm (before ++ after))).
    { unfold plates, sumWidthCm.
      change (num_eqv (offsetCm (Fin 0) (before ++ p :: after))
                      (offsetCm (Fin 0) (before ++ after))).
      rewrite !offsetCm_app. unfold offsetCm at 1. cbn [fold_left].
      fold (offsetCm (add (offsetCm (Fin 0) before) (plateWidthCm p)) after).
      apply offsetCm_eqv. unfold plateWidthCm. rewrite E. apply add_zero_r. }
    split; [exact E|]. split; [exact Hsum|].
    unfold totalWidthCm. now apply or_else_eqv.
  - intro Hh. exact (absent_coerces_to_zero _ Hh).
  - intro Hok.
    destruct (renderFrom_boxes el st _ plates Hok (Fin 0) 0%nat)
      as [boxes [E [_ Hnth]]].
    assert (Hp : nth_error plates (List.length before) = Some p).
    { unfold plates. rewrite nth_error_app2 by lia.
      rewrite Nat.sub_diag. reflexivity. }
    destruct (Hnth _ _ Hp) as [b [Hb Hr]].
    exists boxes, b. split; [exact E|]. split; [exact Hb|].
    destruct (renderPlate_box el st (totalWidthCm plates)
                (offsetCm (Fin 0) (firstn (List.length before) plates))
                (0 + List.length before) p Hok) as [m [Eq _]].
    rewrite Eq in Hr. injection Hr as <-. cbn [boxWidth boxHeight].
    split.
    + intros Hw Hs. unfold plateWidthCm.
      rewrite (absent_coerces_to_zero _ Hw).
      destruct (scaleX st) as [| | |s]; try discriminate.
      cbn [mul]. rewrite (round_zero_eqv (0 * s)) by ring. reflexivity.
    + intros Hh Hs. unfold plateHeightCm.
      rewrite (absent_coerces_to_zero _ Hh).
      destruct (scaleY st) as [| | |s]; try discriminate.
      cbn [mul]. rewrite (round_zero_eqv (0 * s)) by ring. reflexivity.
Qed.

(** C7, the claim as written fails: a width of +Infinity is not read
    as 0.  It is the plate's width and the total width, and the first
    pass (unmounted container, initial scales) throws while building
    the tile row; an infinite height is kept as well. *)
Lemma infinite_width_is_kept :
  plateWidthCm (mkPlate "a" (VNum PInf) (VNum NInf) "m") = PInf /\
  plateHeightCm (mkPlate "a" (VNum PInf) (VNum NInf) "m") = NInf /\
  totalWidthCm [mkPlate "a" (VNum PInf) (VNum NInf) "m"] = PInf /\
  render None initialScale [mkPlate "a" (VNum PInf) (VNum NInf) "m"] = None.
Proof.
  repeat split; vm_compute; reflexivity.
Qed.

(** * The preview as the engine computes it *)

(** ** The scale resolver in binary64 *)

Lemma round64_not_NaN (q : Q) : B64.round64 q <> NaN.
Proof.
  unfold B64.round64. destruct (Qeq_bool q 0); [discriminate|].
  destruct (Qle_bool _ _); [destruct (Qltb 0 q) |]; discriminate.
Qed.

Lemma div64_Fin_pos (a b : Q) :
  0 < b -> B64.div (Fin a) (Fin b) = B64.round64 (a / b).
Proof.
  intro Hb. unfold B64.div. now rewrite div_Fin_pos.
Qed.

(** C1.  For a mounted container of positive size [cw] x [ch], a
    positive total width [t] and a positive [HEIGHT_MAX], [compute]
    stores as [scaleY] the quotient [ch / HEIGHT_MAX] and as [scaleX]
    the smaller of [scaleY] and the quotient [cw / max(1, t)], each
    quotient being the double nearest to the exact one: the container
    sizes pass the clamp at 1 unchanged, the divisor [t] is clamped to
    at least 1, and nothing else is done to the two numbers.  Unless
    the quotient overflows, [scaleY] is within the relative error 2^-53
    of [ch / HEIGHT_MAX] (plus 2^-1075 among the subnormal numbers). *)
Theorem compute_scale_exact (hmax t : Q) (cw ch : Z) (st : ScaleState) :
  0 < hmax -> 0 < t -> (0 < cw)%Z -> (0 < ch)%Z ->
  let st' := B64.compute (Fin hmax) (Some (mkElement cw ch)) (Fin t) st in
  scaleY st' = B64.div (of_Z ch) (Fin hmax) /\
  scaleX st' = Math_min (scaleY st')
                 (B64.div (of_Z cw) (Math_max (Fin 1) (Fin t))) /\
  scaleY st' = B64.round64 (inject_Z ch / hmax) /\
  (exists d, d == Qmax 1 t /\
             scaleX st' = Math_min (B64.round64 (inject_Z ch / hmax))
                            (B64.round64 (inject_Z cw / d))) /\
  (inject_Z ch / hmax <= 2 ^ 1023 ->
   exists sy, scaleY st' = Fin sy /\ 0 <= sy /\
              Qabs (sy - inject_Z ch / hmax)
              <= inject_Z ch / hmax * u64 + eta64).
Proof.
  intros Hh Ht Hcw Hch st'. subst st'. unfold B64.compute.
  cbn [clientWidth clientHeight scaleX scaleY].
  rewrite !Math_max_1_of_Z, !Z.max_r by lia. unfold of_Z.
  rewrite (div64_Fin_pos _ hmax Hh).
  split; [reflexivity | split; [reflexivity | split; [reflexivity | split]]].
  - destruct (Math_max_1_Fin t) as [d [Hd Hdq]]. rewrite Hd.
    assert (Hd1 : 1 <= d) by (rewrite Hdq; apply Q.le_max_l).
    rewrite div64_Fin_pos by lra.
    exists d. split; [exact Hdq | reflexivity].
  - intro Hb.
    assert (Hq : 0 < inject_Z ch / hmax).
    { apply Qlt_shift_div_l; [exact Hh|].
      assert (H : inject_Z 0 < inject_Z ch) by (rewrite <- Zlt_Qlt; exact Hch).
      change (inject_Z 0) with 0 in H. lra. }
    assert (Ha : Qabs (inject_Z ch / hmax) == inject_Z ch / hmax)
      by (apply Qabs_pos; lra).
    destruct (round64_bound (inject_Z ch / hmax)) as [sy [E [Hd [H0 _]]]].
    { rewrite Ha. exact Hb. }
    exists sy. split; [exact E|]. split; [apply H0; lra|].
    rewrite Ha in Hd. exact Hd.
Qed.

Lemma compute_scale_exact_witness :
  let st' := B64.compute (Fin 220) (Some (mkElement 800 360)) (Fin 350)
               initialScale in
  scaleY st' = Fin (7369526662969903 # 4503599627370496) /\
  scaleX st' = Fin (7369526662969903 # 4503599627370496) /\
  scaleY st' = B64.div (of_Z 360) (Fin 220) /\
  scaleX st' = Math_min (scaleY st')
                 (B64.div (of_Z 800) (Math_max (Fin 1) (Fin 350))).
Proof.
  split; [reflexivity | split; [reflexivity |]].
  destruct (compute_scale_exact 220 350 800 360 initialScale
              eq_refl eq_refl eq_refl eq_refl) as [H1 [H2 _]].
  split; [exact H1 | exact H2].
Defined.

(** ** The render loop in binary64 *)

Section RenderFacts64.

Variable el : option Element.
Variable st : ScaleState.
Variable totalW : num.

Let fd := B64.frameDims el totalW (scaleX st).
Let tl := B64.tile (scaleX st) (frameW fd).

Lemma renderPlate64_throws (x : num) (i : nat) (p : Plate) :
  B64.tileRowThrows el st totalW = true ->
  B64.renderPlate el st totalW x i p = None.
Proof.
  unfold B64.tileRowThrows, B64.renderPlate, tileRow. intro H.
  apply andb_true_iff in H. destruct H as [Hm Ha]. rewrite Hm. cbn [negb].
  destruct (Array_from_length _); [discriminate | reflexivity].
Qed.

(** The box of one plate, when the tile row can be built. *)
Lemma renderPlate64_box (x : num) (i : nat) (p : Plate) :
  B64.tileRowThrows el st totalW = false ->
  exists m,
    B64.renderPlate el st totalW x i p =
      Some {| boxKey := id p;
              boxWidth := Math_max (Fin 1)
                            (Math_round (B64.mul (plateWidthCm p) (scaleX st)));
              boxHeight := Math_max (Fin 1)
                             (Math_round (B64.mul (plateHeightCm p) (scaleY st)));
              boxLeft := Math_round (B64.mul x (scaleX st));
              boxMotif := m |} /\
    (needMirror totalW = false ->
     m = Stretched (i + 1) (neg (Math_round (B64.mul x (scaleX st))))
           (frameW fd) (frameH fd)) /\
    (needMirror totalW = true ->
     exists tiles,
       tileRow tl (frameH fd) = Some tiles /\
       m = TileRow (neg (Math_round (B64.mul x (scaleX st))))
             (frameW fd) (frameH fd) tiles).
Proof.
  unfold B64.tileRowThrows, B64.renderPlate. intro H.
  destruct (needMirror totalW) eqn:Hm; cbn [negb andb] in *.
  - unfold tileRow in *. fold fd. fold tl.
    fold fd in H. fold tl in H.
    destruct (Array_from_length (tileCount tl)) as [idxs|]; [|discriminate].
    eexists. split; [reflexivity|]. split; [discriminate|].
    intros _. eexists. split; reflexivity.
  - eexists. split; [reflexivity|]. split; [reflexivity | discriminate].
Qed.

Lemma renderFrom64_throws (x : num) (i : nat) (p : Plate) (ps : list Plate) :
  B64.tileRowThrows el st totalW = true ->
  B64.renderFrom el st totalW x i (p :: ps) = None.
Proof.
  intro H. cbn [B64.renderFrom]. rewrite (renderPlate64_throws x i p H).
  reflexivity.
Qed.

(** The loop returns one box per plate, the [k]-th being the callback's
    box at the offset the first [k] plates have accumulated. *)
Lemma renderFrom64_boxes (ps : list Plate) :
  B64.tileRowThrows el st totalW = false ->
  forall x i, exists bs,
    B64.renderFrom el st totalW x i ps = Some bs /\
    List.length bs = List.length ps /\
    forall k p, nth_error ps k = Some p ->
      exists b, nth_error bs k = Some b /\
                B64.renderPlate el st totalW (B64.offsetCm x (firstn k ps))
                  (i + k) p = Some b.
Proof.
  intro Hok. induction ps as [| q rest IH]; intros x i.
  - exists []. repeat split. intros [|k] p H; discriminate.
  - cbn [B64.renderFrom].
    destruct (renderPlate64_box x i q Hok) as [m [Eq _]].
    rewrite Eq.
    destruct (IH (B64.add x (plateWidthCm q)) (S i)) as [bs [E [Hlen Hnth]]].
    rewrite E. eexists. split; [reflexivity|]. split.
    + cbn [List.length]. now rewrite Hlen.
    + intros [|k] p H.
      * cbn in H. injection H as <-. eexists. split; [reflexivity|].
        cbn [firstn B64.offsetCm fold_left]. rewrite Nat.add_0_r. exact Eq.
      * cbn [nth_error] in H. destruct (Hnth k p H) as [b [Hb Hr]].
        exists b. split; [exact Hb|].
        cbn [firstn]. unfold B64.offsetCm in *. cbn [fold_left].
        rewrite Nat.add_succ_r. exact Hr.
Qed.

End RenderFacts64.

Lemma render64_throws (el : option Element) (st : ScaleState)
    (plates : list Plate) :
  plates <> [] ->
  B64.tileRowThrows el st (B64.totalWidthCm plates) = true ->
  B64.render el st plates = None.
Proof.
  intros Hne H. destruct plates as [| p ps]; [contradiction|].
  unfold B64.render. now apply renderFrom64_throws.
Qed.

(** What a pass that returns holds for the plate at position [k]. *)
Lemma render64_box (el : option Element) (st : ScaleState)
    (plates : list Plate) :
  B64.tileRowThrows el st (B64.totalWidthCm plates) = false ->
  exists boxes,
    B64.render el st plates = Some boxes /\
    List.length boxes = List.length plates /\
    forall k p, nth_error plates k = Some p ->
      exists m,
        nth_error boxes k =
          Some {| boxKey := id p;
                  boxWidth := Math_max (Fin 1)
                    (Math_round (B64.mul (plateWidthCm p) (scaleX st)));
                  boxHeight := Math_max (Fin 1)
                    (Math_round (B64.mul (plateHeightCm p) (scaleY st)));
                  boxLeft := Math_round
                    (B64.mul (B64.offsetCm (Fin 0) (firstn k plates)) (scaleX st));
                  boxMotif := m |} /\
        (needMirror (B64.totalWidthCm plates) = false ->
         m = Stretched (k + 1)
               (neg (Math_round
                       (B64.mul (B64.offsetCm (Fin 0) (firstn k plates))
                          (scaleX st))))
               (frameW (B64.frameDims el (B64.totalWidthCm plates) (scaleX st)))
               (frameH (B64.frameDims el (B64.totalWidthCm plates) (scaleX st)))) /\
        (needMirror (B64.totalWidthCm plates) = true ->
         exists tiles,
           tileRow (B64.tile (scaleX st)
                      (frameW (B64.frameDims el (B64.totalWidthCm plates)
                                 (scaleX st))))
                   (frameH (B64.frameDims el (B64.totalWidthCm plates) (scaleX st)))
           = Some tiles /\
           m = TileRow
                 (neg (Math_round
                         (B64.mul (B64.offsetCm (Fin 0) (firstn k plates))
                            (scaleX st))))
                 (frameW (B64.frameDims el (B64.totalWidthCm plates) (scaleX st)))
                 (frameH (B64.frameDims el (B64.totalWidthCm plates) (scaleX st)))
                 tiles).
Proof.
  intro Hok. unfold B64.render.
  destruct (renderFrom64_boxes el st _ plates Hok (Fin 0) 0%nat)
    as [boxes [E [Hlen Hnth]]].
  exists boxes. split; [exact E|]. split; [exact Hlen|].
  intros k p Hk. destruct (Hnth k p Hk) as [b [Hb Hr]].
  destruct (renderPlate64_box el st (B64.totalWidthCm plates)
              (B64.offsetCm (Fin 0) (firstn k plates)) (0 + k) p Hok)
    as [m [Eq [Hs Ht]]].
  rewrite Eq in Hr. injection Hr as <-.
  exists m. split; [exact Hb|]. split; [exact Hs | exact Ht].
Qed.

Lemma or_else_nonzero (w : Q) : ~ w == 0 -> or_else (Fin w) (Fin 0) = Fin w.
Proof.
  intro H. unfold or_else. cbn [truthy].
  apply Qeq_bool_false in H. now rewrite H.
Qed.

(** C2.  When the tile row can be built, a render pass returns one box
    per plate, in plate order.  The box of the [k]-th plate [p] has
    [left = round(xCm * scaleX)] for [xCm] the sum, from 0 on, of what
    the plates before it store as width ([Number(widthCm) || 0]),
    [width = max(1, round(widthCm * scaleX))] and
    [height = max(1, round(heightCm * scaleY))] for what [p] stores as
    width and height; the next box starts at the offset advanced by the
    width of [p]; width and height are at least 1 (or NaN), the left
    offset is not clamped, and at a finite scale the first plate's left
    offset is 0.  All products and sums are those of binary64. *)
Theorem plate_geometry (el : option Element) (st : ScaleState)
    (plates : list Plate) :
  B64.tileRowThrows el st (B64.totalWidthCm plates) = false ->
  exists boxes,
    B64.render el st plates = Some boxes /\
    List.length boxes = List.length plates /\
    forall k p, nth_error plates k = Some p ->
      let xCm := fold_left
                   (fun x q => B64.add x (or_else (Number (widthCm q)) (Fin 0)))
                   (firstn k plates) (Fin 0) in
      exists b,
        nth_error boxes k = Some b /\
        boxKey b = id p /\
        boxLeft b = Math_round (B64.mul xCm (scaleX st)) /\
        boxWidth b = Math_max (Fin 1)
                       (Math_round (B64.mul (or_else (Number (widthCm p)) (Fin 0))
                                      (scaleX st))) /\
        boxHeight b = Math_max (Fin 1)
                        (Math_round (B64.mul (or_else (Number (heightCm p)) (Fin 0))
                                       (scaleY st))) /\
        (forall w, widthCm p = VNum (Fin w) -> ~ w == 0 ->
           boxWidth b = Math_max (Fin 1)
                          (Math_round (B64.mul (Fin w) (scaleX st)))) /\
        (forall h, heightCm p = VNum (Fin h) -> ~ h == 0 ->
           boxHeight b = Math_max (Fin 1)
                           (Math_round (B64.mul (Fin h) (scaleY st)))) /\
        (forall c, nth_error boxes (S k) = Some c ->
           boxLeft c = Math_round
                         (B64.mul
                            (B64.add xCm (or_else (Number (widthCm p)) (Fin 0)))
                            (scaleX st))) /\
        (boxWidth b = NaN \/ le (Fin 1) (boxWidth b) = true) /\
        (boxHeight b = NaN \/ le (Fin 1) (boxHeight b) = true) /\
        (k = 0%nat -> is_finite (scaleX st) = true -> boxLeft b = Fin 0).
Proof.
  intro Hok.
  destruct (render64_box el st plates Hok) as [boxes [E [Hlen Hnth]]].
  exists boxes. split; [exact E|]. split; [exact Hlen|].
  intros k p Hk xCm. destruct (Hnth k p Hk) as [m [Hb _]].
  eexists. split; [exact Hb|]. cbn [boxKey boxLeft boxWidth boxHeight].
  split; [reflexivity|]. split; [reflexivity|]. split; [reflexivity|].
  split; [reflexivity|]. split; [| split; [| split; [| split; [| split]]]].
  - intros w Hw Hnz. unfold plateWidthCm. rewrite Hw. cbn [Number].
    now rewrite or_else_nonzero.
  - intros h Hh Hnz. unfold plateHeightCm. rewrite Hh. cbn [Number].
    now rewrite or_else_nonzero.
  - intros c Hc.
    assert (Hq : exists q, nth_error plates (S k) = Some q).
    { destruct (nth_error plates (S k)) as [q|] eqn:Eq; [now exists q|].
      apply nth_error_None in Eq. assert (Hn : nth_error boxes (S k) <> None)
        by congruence.
      apply nth_error_Some in Hn. lia. }
    destruct Hq as [q Hq]. destruct (Hnth (S k) q Hq) as [m' [Hb' _]].
    rewrite Hb' in Hc. apply Some_eq in Hc. rewrite <- Hc. cbn [boxLeft].
    rewrite (firstn_snoc_nth plates k p Hk).
    unfold B64.offsetCm. rewrite fold_left_app. reflexivity.
  - apply Math_max_1_lower.
  - apply Math_max_1_lower.
  - intros -> Hfin. subst xCm. cbn [firstn B64.offsetCm fold_left].
    destruct (scaleX st) as [| | |s]; try discriminate.
    unfold B64.mul. cbn [JS.mul B64.rnd]. unfold B64.round64.
    replace (Qeq_bool (0 * s) 0) with true
      by (symmetry; apply Qeq_bool_iff; ring).
    reflexivity.
Qed.

Lemma plate_geometry_witness :
  B64.tileRowThrows (Some narrowElement) narrowScale
    (B64.totalWidthCm narrowPlates) = false /\
  exists boxes b c,
    B64.render (Some narrowElement) narrowScale narrowPlates = Some boxes /\
    nth_error boxes 0 = Some b /\ nth_error boxes 1 = Some c /\
    boxLeft b = Fin 0 /\ boxWidth b = Fin 187 /\ boxHeight b = Fin 273 /\
    boxLeft c = Fin 187 /\ boxWidth c = Fin 187.
Proof.
  assert (H : B64.tileRowThrows (Some narrowElement) narrowScale
                (B64.totalWidthCm narrowPlates) = false) by reflexivity.
  split; [exact H|].
  destruct (plate_geometry (Some narrowElement) narrowScale narrowPlates H)
    as [boxes [E [_ Hnth]]].
  destruct (Hnth 0%nat (plate91 "a") eq_refl)
    as [b [Hb [_ [Hl [Hw [Hh [_ [_ [Hnext _]]]]]]]]].
  destruct (Hnth 1%nat (plate91 "b") eq_refl)
    as [c [Hc [_ [_ [Hw' _]]]]].
  exists boxes, b, c. split; [exact E|]. split; [exact Hb|]. split; [exact Hc|].
  split; [exact Hl|]. split; [exact Hw|]. split; [exact Hh|].
  split; [exact (Hnext c Hc) | exact Hw'].
Defined.

(** ** Stretched or tiled, in binary64 *)

(** C3.  The mode of a pass is tiled exactly when [totalWidthCm]
    exceeds 300; a total of exactly 300 is stretched.  The mode is
    decided once per pass: when the pass returns, there is one box per
    plate, in plate order, and the box of every plate carries that one
    mode; when it does not return, the mode is tiled and no plate gets
    a box. *)
Theorem tiling_mode (el : option Element) (st : ScaleState)
    (plates : list Plate) :
  let T := B64.totalWidthCm plates in
  (needMirror T = true <-> T = PInf \/ exists q, T = Fin q /\ 300 < q) /\
  (forall q, needMirror (Fin q) = true <-> 300 < q) /\
  (forall q, q == 300 -> needMirror (Fin q) = false) /\
  (B64.tileRowThrows el st T = false ->
   exists boxes,
     B64.render el st plates = Some boxes /\
     List.length boxes = List.length plates /\
     forall k p, nth_error plates k = Some p ->
       exists b, nth_error boxes k = Some b /\ boxKey b = id p /\
                 isTiled (boxMotif b) = needMirror T) /\
  (B64.tileRowThrows el st T = true -> plates <> [] ->
   needMirror T = true /\ B64.render el st plates = None).
Proof.
  intro T. split; [| split; [| split; [| split]]].
  - destruct T as [| | |q] eqn:ET.
    + split; [discriminate | intros [H | [q [H _]]]; discriminate].
    + split; [intros _; left; reflexivity | reflexivity].
    + split; [discriminate | intros [H | [q [H _]]]; discriminate].
    + rewrite needMirror_Fin. split.
      * intro H. right. exists q. split; [reflexivity | exact H].
      * intros [H | [q' [H Hq]]]; [discriminate|]. injection H as ->. exact Hq.
  - exact needMirror_Fin.
  - intros q Hq. destruct (needMirror (Fin q)) eqn:E; [|reflexivity].
    apply needMirror_Fin in E. lra.
  - intro Hok.
    destruct (render64_box el st plates Hok) as [boxes [E [Hlen Hnth]]].
    exists boxes. split; [exact E|]. split; [exact Hlen|].
    intros k p Hk. destruct (Hnth k p Hk) as [m [Hb [Hs Ht]]].
    eexists. split; [exact Hb|]. cbn [boxKey boxMotif]. split; [reflexivity|].
    fold T in Hs, Ht. destruct (needMirror T).
    + destruct (Ht eq_refl) as [tiles [_ ->]]. reflexivity.
    + rewrite (Hs eq_refl). reflexivity.
  - intros Hthrow Hne. split.
    + unfold B64.tileRowThrows in Hthrow. apply andb_true_iff in Hthrow.
      exact (proj1 Hthrow).
    + now apply render64_throws.
Qed.

Lemma tiling_mode_witness :
  B64.tileRowThrows (Some exampleElement) exampleScale64
    (B64.totalWidthCm examplePlates) = false /\
  needMirror (B64.totalWidthCm examplePlates) = true /\
  exists boxes b c,
    B64.render (Some exampleElement) exampleScale64 examplePlates = Some boxes /\
    List.length boxes = 2%nat /\
    nth_error boxes 0 = Some b /\ isTiled (boxMotif b) = true /\
    nth_error boxes 1 = Some c /\ isTiled (boxMotif c) = true.
Proof.
  assert (H : B64.tileRowThrows (Some exampleElement) exampleScale64
                (B64.totalWidthCm examplePlates) = false) by reflexivity.
  split; [exact H|]. split; [reflexivity|].
  destruct (proj1 (proj2 (proj2 (proj2
              (tiling_mode (Some exampleElement) exampleScale64 examplePlates))))
              H) as [boxes [E [L Hnth]]].
  destruct (Hnth 0%nat plateA eq_refl) as [b [Hb [_ Mb]]].
  destruct (Hnth 1%nat plateB eq_refl) as [c [Hc [_ Mc]]].
  exists boxes, b, c. split; [exact E|]. split; [exact L|].
  split; [exact Hb|]. split; [exact Mb|]. split; [exact Hc | exact Mc].
Defined.

(** ** The tile row, in binary64 *)

(** [Math.max(1, x)] of an integer, Infinity or NaN. *)
Lemma Math_max_1_integral (x : num) :
  (x = NaN \/ x = PInf \/ x = NInf \/ exists z, x = of_Z z) ->
  Math_max (Fin 1) x = NaN \/ Math_max (Fin 1) x = PInf \/
  exists z, Math_max (Fin 1) x = of_Z z /\ (1 <= z)%Z.
Proof.
  intros [-> | [-> | [-> | [z ->]]]].
  - left; reflexivity.
  - right; left; reflexivity.
  - right; right. exists 1%Z. split; [reflexivity | lia].
  - right; right. exists (Z.max 1 z). split; [apply Math_max_1_of_Z | lia].
Qed.

Lemma Math_round_integral (x : num) :
  Math_round x = NaN \/ Math_round x = PInf \/ Math_round x = NInf \/
  exists z, Math_round x = of_Z z.
Proof.
  destruct x as [| | |q]; cbn [Math_round]; auto.
  right; right; right. eexists. reflexivity.
Qed.

Lemma Math_ceil_integral (x : num) :
  Math_ceil x = NaN \/ Math_ceil x = PInf \/ Math_ceil x = NInf \/
  exists z, Math_ceil x = of_Z z.
Proof.
  destruct x as [| | |q]; cbn [Math_ceil]; auto.
  right; right; right. eexists. reflexivity.
Qed.

(** C4.  [tileW = max(1, round(300 * scaleX))] and
    [tileCount = max(1, ceil(frameW / tileW))], product and quotient
    being those of binary64; each of the two is an integer of at least
    1, or Infinity, or NaN.  In tiled mode, when the row can be built,
    the box of every plate holds the row: ToLength(tileCount) tiles,
    which is [tileCount] itself when that is an integer, each [tileW]
    wide, tile [idx] having key [idx] and being mirrored exactly when
    [idx] is odd. *)
Theorem tiled_row (el : option Element) (st : ScaleState) (plates : list Plate) :
  let T := B64.totalWidthCm plates in
  let fd := B64.frameDims el T (scaleX st) in
  let tl := B64.tile (scaleX st) (frameW fd) in
  tileW tl = Math_max (Fin 1) (Math_round (B64.mul (of_Z 300) (scaleX st))) /\
  tileCount tl = Math_max (Fin 1) (Math_ceil (B64.div (frameW fd) (tileW tl))) /\
  (tileW tl = NaN \/ tileW tl = PInf \/
   exists tw, tileW tl = of_Z tw /\ (1 <= tw)%Z) /\
  (tileCount tl = NaN \/ tileCount tl = PInf \/
   exists n, tileCount tl = of_Z n /\ (1 <= n)%Z) /\
  (needMirror T = true -> B64.tileRowThrows el st T = false ->
   exists boxes,
     B64.render el st plates = Some boxes /\
     List.length boxes = List.length plates /\
     forall k p, nth_error plates k = Some p ->
       exists b tiles,
         nth_error boxes k = Some b /\ boxKey b = id p /\
         boxMotif b = TileRow (neg (boxLeft b)) (frameW fd) (frameH fd) tiles /\
         List.length tiles = Z.to_nat (ToLength (tileCount tl)) /\
         (forall n, tileCount tl = of_Z n ->
            (1 <= n <= 2 ^ 32 - 1)%Z /\ List.length tiles = Z.to_nat n) /\
         forall idx ti, nth_error tiles idx = Some ti ->
           tileKey ti = idx /\ tileWidth ti = tileW tl /\
           tileHeight ti = frameH fd /\ mirrored ti = Nat.odd idx).
Proof.
  intros T fd tl.
  assert (HtW : tileW tl = NaN \/ tileW tl = PInf \/
                exists tw, tileW tl = of_Z tw /\ (1 <= tw)%Z).
  { apply Math_max_1_integral. apply Math_round_integral. }
  assert (HtC : tileCount tl = NaN \/ tileCount tl = PInf \/
                exists n, tileCount tl = of_Z n /\ (1 <= n)%Z).
  { apply Math_max_1_integral. apply Math_ceil_integral. }
  split; [reflexivity | split; [reflexivity | split; [exact HtW |
    split; [exact HtC |]]]].
  intros Hm Hok.
  destruct (render64_box el st plates Hok) as [boxes [E [Hlen Hnth]]].
  exists boxes. split; [exact E|]. split; [exact Hlen|].
  intros k p Hk. destruct (Hnth k p Hk) as [m [Hb [_ Ht]]].
  destruct (Ht Hm) as [tiles [Hrow ->]].
  fold T in Hrow. fold fd in Hrow. fold tl in Hrow.
  destruct (tileRow_tiles _ _ _ Hrow) as [Hl Hti].
  eexists _, tiles. split; [exact Hb|]. cbn [boxKey boxMotif boxLeft].
  split; [reflexivity|]. split; [reflexivity|]. split; [exact Hl|].
  split; [| exact Hti].
  intros n Hn.
  assert (H1 : (1 <= n)%Z).
  { destruct HtC as [H | [H | [n' [H Hn']]]]; rewrite Hn in H;
      try discriminate.
    unfold of_Z in H. injection H as H. lia. }
  unfold tileRow, Array_from_length in Hrow.
  rewrite Hn, (ToLength_of_Z n H1) in Hrow.
  rewrite Hl, Hn, (ToLength_of_Z n H1).
  destruct (Z.min n (2 ^ 53 - 1) <=? 2 ^ 32 - 1)%Z eqn:Eb; [|discriminate].
  apply Z.leb_le in Eb.
  assert (Hle : (n <= 2 ^ 32 - 1)%Z) by lia.
  split; [lia|]. rewrite Z.min_l by lia. reflexivity.
Qed.

Lemma tiled_row_witness :
  needMirror (B64.totalWidthCm examplePlates) = true /\
  B64.tileRowThrows (Some exampleElement) exampleScale64
    (B64.totalWidthCm examplePlates) = false /\
  tileW (B64.tile (scaleX exampleScale64) (Fin 573)) = Fin 491 /\
  tileCount (B64.tile (scaleX exampleScale64) (Fin 573)) = Fin 2 /\
  exists boxes b tiles t0 t1,
    B64.render (Some exampleElement) exampleScale64 examplePlates = Some boxes /\
    nth_error boxes 1 = Some b /\
    boxMotif b = TileRow (neg (boxLeft b)) (Fin 573) (Fin 360) tiles /\
    List.length tiles = 2%nat /\
    nth_error tiles 0 = Some t0 /\ mirrored t0 = false /\
    nth_error tiles 1 = Some t1 /\ mirrored t1 = true.
Proof.
  assert (Hm : needMirror (B64.totalWidthCm examplePlates) = true) by reflexivity.
  assert (H : B64.tileRowThrows (Some exampleElement) exampleScale64
                (B64.totalWidthCm examplePlates) = false) by reflexivity.
  split; [exact Hm|]. split; [exact H|].
  split; [reflexivity|]. split; [reflexivity|].
  destruct (proj2 (proj2 (proj2 (proj2
              (tiled_row (Some exampleElement) exampleScale64 examplePlates))))
              Hm H) as [boxes [E [_ Hnth]]].
  destruct (Hnth 1%nat plateB eq_refl)
    as [b [tiles [Hb [_ [Hmot [Hlen [_ Hti]]]]]]].
  assert (Hlen2 : List.length tiles = 2%nat)
    by (rewrite Hlen; vm_compute; reflexivity).
  clear Hlen.
  destruct tiles as [| t0 [| t1 [| t2 rest]]]; try discriminate Hlen2.
  exists boxes, b, [t0; t1], t0, t1.
  split; [exact E|]. split; [exact Hb|]. split; [exact Hmot|].
  split; [reflexivity|]. split; [reflexivity|].
  split; [exact (proj2 (proj2 (proj2 (Hti 0%nat t0 eq_refl))))|].
  split; [reflexivity|].
  exact (proj2 (proj2 (proj2 (Hti 1%nat t1 eq_refl)))).
Defined.

(** ** Accuracy of the binary64 operations *)

Lemma eta64_pos : 0 < eta64.
Proof. apply pow2_pos. Qed.

Lemma eta64_small : eta64 <= 1 # 18446744073709551616.
Proof. apply Qle_bool_imp_le. vm_compute. reflexivity. Qed.

Lemma below_2_1023 (x : Q) : x <= inject_Z (2 ^ 64) -> x <= 2 ^ 1023.
Proof.
  intro H. eapply Qle_trans; [exact H|].
  apply Qle_bool_imp_le. vm_compute. reflexivity.
Qed.

(** A sum, product or quotient of magnitude at most 2^64 is a finite
    double of the same sign within the relative error 2^-53. *)
Lemma round64_small (x : Q) :
  Qabs x <= inject_Z (2 ^ 64) ->
  exists r, B64.round64 x = Fin r /\
            Qabs (r - x) <= Qabs x * u64 + eta64 /\
            (0 <= x -> 0 <= r) /\ (x <= 0 -> r <= 0).
Proof.
  intro H. apply round64_bound. now apply below_2_1023.
Qed.

Lemma mul64_Fin (a b : Q) : B64.mul (Fin a) (Fin b) = B64.round64 (a * b).
Proof. reflexivity. Qed.

Lemma add64_Fin (a b : Q) : B64.add (Fin a) (Fin b) = B64.round64 (a + b).
Proof. reflexivity. Qed.

(** ** The tile row covers the frame *)

Lemma inject_Z_pos (z : Z) : (1 <= z)%Z -> 1 <= inject_Z z.
Proof.
  intro H. change 1 with (inject_Z 1). rewrite <- Zle_Qle. exact H.
Qed.

(** For a frame of at most 2^32 - 1 px and a tile of [tw] px the tile
    count computed in binary64 is the one of the exact quotient. *)
Lemma tileCount64_exact (fw tw : Z) :
  (1 <= fw <= 2 ^ 32 - 1)%Z -> (1 <= tw)%Z ->
  Math_max (Fin 1) (Math_ceil (B64.div (of_Z fw) (of_Z tw)))
  = of_Z (Z.max 1 (Qceiling (inject_Z fw / inject_Z tw))).
Proof.
  intros Hfw Htw.
  pose proof (inject_Z_pos fw (proj1 Hfw)) as HX.
  pose proof (inject_Z_pos tw Htw) as HW.
  unfold of_Z at 1 2. rewrite div64_Fin_pos by lra.
  assert (HXb : inject_Z fw <= inject_Z (2 ^ 32)).
  { rewrite <- Zle_Qle. lia. }
  assert (Hx : 0 < inject_Z fw / inject_Z tw) by (apply Qlt_shift_div_l; lra).
  assert (HxX : inject_Z fw / inject_Z tw <= inject_Z fw).
  { apply Qle_shift_div_r; [lra|].
    assert (inject_Z fw * 1 <= inject_Z fw * inject_Z tw)
      by (apply Qmult_le_l; lra).
    lra. }
  assert (ExW : inject_Z fw / inject_Z tw * inject_Z tw == inject_Z fw)
    by (field; lra).
  pose proof (Qle_ceiling (inject_Z fw / inject_Z tw)) as Hc1.
  pose proof (Qceiling_lt (inject_Z fw / inject_Z tw)) as Hc2.
  assert (Hcfw : (Qceiling (inject_Z fw / inject_Z tw) <= fw)%Z).
  { rewrite <- (Qceiling_Z fw) at 2. apply Qceiling_resp_le. exact HxX. }
  set (x := inject_Z fw / inject_Z tw) in *.
  set (c := Qceiling x) in *.
  destruct (round64_le_int x c Hx Hc1) as [r [Er [Hr0 Hrc]]]; [lia|].
  rewrite Er. cbn [Math_ceil]. rewrite Math_max_1_of_Z. f_equal.
  assert (Hup : (Qceiling r <= c)%Z).
  { rewrite <- (Qceiling_Z c). apply Qceiling_resp_le. exact Hrc. }
  destruct (Z_le_gt_dec c 1) as [Hc | Hc]; [lia|].
  (* the quotient exceeds 1: the rounded one stays above [c - 1] *)
  assert (Hlo : inject_Z (c - 1) < r).
  { destruct (round64_small x) as [r' [Er' [Hd _]]].
    { rewrite Qabs_pos by lra.
      eapply Qle_trans; [exact HxX|]. eapply Qle_trans; [exact HXb|].
      rewrite <- Zle_Qle. lia. }
    rewrite Er in Er'. injection Er' as <-.
    rewrite (Qabs_pos x) in Hd by lra.
    apply Qabs_Qle_condition in Hd. destruct Hd as [Hd _].
    (* an integer below the quotient is below it by one tile-th *)
    assert (HcW : inject_Z (c - 1) * inject_Z tw + 1 <= inject_Z fw).
    { assert (H : inject_Z (c - 1) * inject_Z tw < inject_Z fw).
      { rewrite <- ExW. apply Qmult_lt_compat_r; lra. }
      rewrite <- inject_Z_mult in *. change 1 with (inject_Z 1).
      rewrite <- inject_Z_plus. rewrite <- Zle_Qle. rewrite <- Zlt_Qlt in H.
      lia. }
    assert (Htwfw : inject_Z tw <= inject_Z fw).
    { assert (H1 : 1 <= inject_Z (c - 1)).
      { change 1 with (inject_Z 1). rewrite <- Zle_Qle. lia. }
      assert (H2 : 1 * inject_Z tw <= inject_Z (c - 1) * inject_Z tw)
        by (apply Qmult_le_compat_r; lra).
      lra. }
    assert (HrW : (x - (x * u64 + eta64)) * inject_Z tw <= r * inject_Z tw).
    { apply Qmult_le_compat_r; lra. }
    assert (Hexp : (x - (x * u64 + eta64)) * inject_Z tw
                   == inject_Z fw - inject_Z fw * u64 - eta64 * inject_Z tw).
    { assert (E1 : (x - (x * u64 + eta64)) * inject_Z tw
                   == x * inject_Z tw - x * inject_Z tw * u64
                      - eta64 * inject_Z tw) by ring.
      rewrite E1, ExW. reflexivity. }
    pose proof eta64_small as He. pose proof eta64_pos as He0.
    assert (HeW : eta64 * inject_Z tw <= (1 # 18446744073709551616) * inject_Z tw).
    { apply Qmult_le_compat_r; lra. }
    assert (Hgoal : inject_Z (c - 1) * inject_Z tw < r * inject_Z tw).
    { rewrite Hexp in HrW. unfold u64 in *.
      change (inject_Z (2 ^ 32)) with 4294967296 in HXb.
      set (E := eta64 * inject_Z tw) in *.
      set (X := inject_Z fw) in *. set (W := inject_Z tw) in *.
      set (C := inject_Z (c - 1) * W) in *. set (R := r * W) in *.
      clearbody E X W C R. clear - HrW HcW HeW HXb Htwfw HX HW. lra. }
    destruct (Qlt_le_dec (inject_Z (c - 1)) r) as [H | H]; [exact H|].
    exfalso.
    assert (r * inject_Z tw <= inject_Z (c - 1) * inject_Z tw)
      by (apply Qmult_le_compat_r; lra).
    lra. }
  assert (Hge : (c - 1 < Qceiling r)%Z).
  { rewrite Zlt_Qlt. eapply Qlt_le_trans; [exact Hlo | apply Qle_ceiling]. }
  lia.
Qed.

Lemma Math_max_1_is_integer (x : num) (z : Z) :
  Math_max (Fin 1) x = of_Z z -> (1 <= z)%Z.
Proof.
  intro H. destruct (Math_max_1_cases x) as [-> | [E | [d [E Hd]]]].
  - discriminate H.
  - rewrite E in H. discriminate H.
  - rewrite E in H. unfold of_Z in H. injection H as ->.
    change 1 with (inject_Z 1) in Hd. now rewrite <- Zle_Qle in Hd.
Qed.

(** The tile of a frame of at most 2^32 - 1 px at a finite scale: the
    tile width is an integer of at least 1 (or Infinity, when
    [300 * scaleX] overflows, and then there is one tile), and the tile
    count is the least number of tiles that covers the frame. *)
Lemma tile64_cases (s : Q) (fw : Z) :
  (1 <= fw <= 2 ^ 32 - 1)%Z ->
  (tileW (B64.tile (Fin s) (of_Z fw)) = PInf /\
   tileCount (B64.tile (Fin s) (of_Z fw)) = of_Z 1) \/
  exists tw,
    tileW (B64.tile (Fin s) (of_Z fw)) = of_Z tw /\ (1 <= tw)%Z /\
    tileCount (B64.tile (Fin s) (of_Z fw))
    = of_Z (Z.max 1 (Qceiling (inject_Z fw / inject_Z tw))).
Proof.
  intro Hfw. unfold B64.tile, MOTIF_WIDTH_CM. cbn [tileW tileCount].
  assert (Em : B64.mul (of_Z 300) (Fin s) = B64.round64 (inject_Z 300 * s))
    by reflexivity.
  rewrite Em.
  destruct (B64.round64 (inject_Z 300 * s)) as [| | |r] eqn:E.
  - exfalso. exact (round64_not_NaN _ E).
  - left. split; reflexivity.
  - right. exists 1%Z. split; [reflexivity|]. split; [lia|].
    change (Math_max (Fin 1) (Math_round NInf)) with (of_Z 1).
    now apply tileCount64_exact.
  - right. exists (roundClamp r). rewrite max1_round_Fin.
    split; [reflexivity|]. split; [unfold roundClamp; lia|].
    apply tileCount64_exact; [exact Hfw | unfold roundClamp; lia].
Qed.

Lemma ceiling_covers (fw tw : Z) :
  (1 <= tw)%Z ->
  (fw <= Z.max 1 (Qceiling (inject_Z fw / inject_Z tw)) * tw)%Z.
Proof.
  intro Htw. pose proof (inject_Z_pos tw Htw) as HW.
  set (n := Z.max 1 (Qceiling (inject_Z fw / inject_Z tw))).
  assert (Hc : inject_Z fw / inject_Z tw <= inject_Z n).
  { eapply Qle_trans; [apply Qle_ceiling|].
    rewrite <- Zle_Qle. unfold n. lia. }
  assert (Hm : inject_Z fw <= inject_Z n * inject_Z tw).
  { assert (E : inject_Z fw == inject_Z fw / inject_Z tw * inject_Z tw)
      by (field; lra).
    rewrite E. apply Qmult_le_compat_r; [exact Hc | lra]. }
  rewrite <- inject_Z_mult in Hm. rewrite Zle_Qle. exact Hm.
Qed.

Lemma ceiling_at_most (fw tw : Z) :
  (1 <= fw)%Z -> (1 <= tw)%Z ->
  (Z.max 1 (Qceiling (inject_Z fw / inject_Z tw)) <= fw)%Z.
Proof.
  intros Hfw Htw.
  pose proof (inject_Z_pos tw Htw) as HW. pose proof (inject_Z_pos fw Hfw) as HX.
  assert (H : (Qceiling (inject_Z fw / inject_Z tw) <= fw)%Z).
  { rewrite <- (Qceiling_Z fw) at 2. apply Qceiling_resp_le.
    apply Qle_shift_div_r; [lra|].
    assert (inject_Z fw * 1 <= inject_Z fw * inject_Z tw)
      by (apply Qmult_le_l; lra).
    lra. }
  lia.
Qed.

(** C10, as the code has it.  In tiled mode at a finite scale, when the
    frame is an integer of at most 2^32 - 1 px, the pass returns and the
    box of every plate holds a row of [tileCount] tiles, each [tileW]
    wide, laid over a layer as wide as the frame, with [tileCount >= 1],
    [tileW >= 1] and [tileCount * tileW >= frameW]: the row spans the
    frame.  ([tileW] is Infinity when [300 * scaleX] overflows; the row
    is then one tile.) *)
Theorem tile_row_covers_frame (el : option Element) (st : ScaleState)
    (plates : list Plate) (fw : Z) :
  let T := B64.totalWidthCm plates in
  let fd := B64.frameDims el T (scaleX st) in
  let tl := B64.tile (scaleX st) (frameW fd) in
  is_finite (scaleX st) = true ->
  needMirror T = true ->
  frameW fd = of_Z fw -> (fw <= 2 ^ 32 - 1)%Z ->
  exists n boxes,
    tileCount tl = of_Z n /\ (1 <= n <= fw)%Z /\
    (tileW tl = PInf \/
     exists tw, tileW tl = of_Z tw /\ (1 <= tw)%Z /\ (fw <= n * tw)%Z) /\
    B64.render el st plates = Some boxes /\
    List.length boxes = List.length plates /\
    forall k p, nth_error plates k = Some p ->
      exists b tiles,
        nth_error boxes k = Some b /\ boxKey b = id p /\
        boxMotif b = TileRow (neg (boxLeft b)) (of_Z fw) (frameH fd) tiles /\
        List.length tiles = Z.to_nat n /\
        Forall (fun ti => tileWidth ti = tileW tl) tiles.
Proof.
  intros T fd tl Hs Hm Hf Hb.
  destruct (scaleX st) as [| | |s] eqn:Es; try discriminate.
  assert (Hfw1 : (1 <= fw)%Z).
  { unfold fd, B64.frameDims in Hf. cbn [frameW] in Hf.
    exact (Math_max_1_is_integer _ _ Hf). }
  assert (Htl : exists n,
             tileCount tl = of_Z n /\ (1 <= n <= fw)%Z /\
             (tileW tl = PInf \/
              exists tw, tileW tl = of_Z tw /\ (1 <= tw)%Z /\ (fw <= n * tw)%Z)).
  { unfold tl. rewrite Hf.
    destruct (tile64_cases s fw (conj Hfw1 Hb)) as [[Hw Hc] | [tw [Hw [Htw Hc]]]].
    - exists 1%Z. split; [exact Hc|]. split; [lia|]. left. exact Hw.
    - eexists. split; [exact Hc|]. split.
      + split; [lia | now apply ceiling_at_most].
      + right. exists tw. split; [exact Hw|]. split; [exact Htw|].
        now apply ceiling_covers. }
  destruct Htl as [n [Hn [Hnb Hw]]].
  assert (Hok : B64.tileRowThrows el st T = false).
  { unfold B64.tileRowThrows. rewrite Es. fold fd. fold tl. rewrite Hn.
    unfold Array_from_length. rewrite ToLength_of_Z by lia.
    replace (Z.min n (2 ^ 53 - 1) <=? 2 ^ 32 - 1)%Z with true
      by (symmetry; apply Z.leb_le; lia).
    apply andb_false_r. }
  destruct (render64_box el st plates Hok) as [boxes [E [Hlen Hnth]]].
  exists n, boxes. split; [exact Hn|]. split; [exact Hnb|].
  split; [exact Hw|]. split; [exact E|]. split; [exact Hlen|].
  intros k p Hk. destruct (Hnth k p Hk) as [m [Hbx [_ Ht]]].
  destruct (Ht Hm) as [tiles [Hrow ->]].
  rewrite Es in Hrow. fold T in Hrow. fold fd in Hrow. fold tl in Hrow.
  destruct (tileRow_tiles _ _ _ Hrow) as [Hl Hti].
  eexists _, tiles. split; [exact Hbx|]. cbn [boxKey boxMotif boxLeft].
  split; [reflexivity|]. split.
  - rewrite Es. fold T. fold fd. rewrite Hf. reflexivity.
  - split.
    + rewrite Hl, Hn, ToLength_of_Z by lia. rewrite Z.min_l by lia. reflexivity.
    + apply Forall_forall. intros ti Hin.
      apply In_nth_error in Hin. destruct Hin as [idx Hidx].
      exact (proj1 (proj2 (Hti idx ti Hidx))).
Qed.

Lemma tile_row_covers_frame_witness :
  is_finite (scaleX exampleScale64) = true /\
  needMirror (B64.totalWidthCm examplePlates) = true /\
  frameW (B64.frameDims (Some exampleElement) (B64.totalWidthCm examplePlates)
            (scaleX exampleScale64)) = of_Z 573 /\
  (573 <= 2 ^ 32 - 1)%Z /\
  tileW (B64.tile (scaleX exampleScale64) (of_Z 573)) = of_Z 491 /\
  exists n boxes,
    tileCount (B64.tile (scaleX exampleScale64) (of_Z 573)) = of_Z n /\
    (1 <= n <= 573)%Z /\
    B64.render (Some exampleElement) exampleScale64 examplePlates = Some boxes /\
    List.length boxes = 2%nat.
Proof.
  assert (H1 : is_finite (scaleX exampleScale64) = true) by reflexivity.
  assert (H2 : needMirror (B64.totalWidthCm examplePlates) = true) by reflexivity.
  assert (H3 : frameW (B64.frameDims (Some exampleElement)
                         (B64.totalWidthCm examplePlates)
                         (scaleX exampleScale64)) = of_Z 573)
    by (vm_compute; reflexivity).
  assert (H4 : (573 <= 2 ^ 32 - 1)%Z) by (vm_compute; discriminate).
  split; [exact H1|]. split; [exact H2|]. split; [exact H3|]. split; [exact H4|].
  split; [vm_compute; reflexivity|].
  destruct (tile_row_covers_frame (Some exampleElement) exampleScale64
              examplePlates 573 H1 H2 H3 H4)
    as [n [boxes [Hn [Hb [_ [E [L _]]]]]]].
  exists n, boxes. rewrite H3 in Hn.
  split; [exact Hn|]. split; [exact Hb|]. split; [exact E | exact L].
Defined.

(** C10, the claim as written fails: a stored plate of 3 * 10^12 cm at
    the initial scales (the first pass, before [compute] has run) puts
    the pass in tiled mode with a frame of 3 * 10^12 px, tiles of 300 px
    and a tile count of 10^10; the array constructor rejects that
    length, the pass throws and no row of tiles is rendered. *)
Lemma tile_row_not_rendered :
  needMirror (B64.totalWidthCm [heavyPlate]) = true /\
  B64.frameDims None (B64.totalWidthCm [heavyPlate]) (scaleX initialScale)
  = {| frameW := of_Z (3 * 10 ^ 12); frameH := of_Z 360 |} /\
  B64.tile (scaleX initialScale) (of_Z (3 * 10 ^ 12))
  = {| tileW := of_Z 300; tileCount := of_Z (10 ^ 10) |} /\
  Array_from_length (of_Z (10 ^ 10)) = None /\
  B64.render None initialScale [heavyPlate] = None.
Proof.
  repeat split; vm_compute; reflexivity.
Qed.

(** ** Rounding drift of the plate widths, in binary64 *)

Lemma sumQ_cons (w : Q) (l : list Q) : sumQ (w :: l) == w + sumQ l.
Proof. reflexivity. Qed.

Lemma sumZ_cons (z : Z) (l : list Z) : sumZ (z :: l) = (z + sumZ l)%Z.
Proof. reflexivity. Qed.

Lemma inject_length_succ {A : Type} (x : A) (l : list A) :
  inject_Z (Z.of_nat (List.length (x :: l)))
  == inject_Z (Z.of_nat (List.length l)) + 1.
Proof.
  cbn [List.length]. rewrite Nat2Z.inj_succ, <- Z.add_1_r, inject_Z_plus.
  reflexivity.
Qed.

Lemma inject_length_nonneg {A : Type} (l : list A) :
  0 <= inject_Z (Z.of_nat (List.length l)).
Proof. change 0 with (inject_Z 0). rewrite <- Zle_Qle. lia. Qed.

(** The clamped roundings of non-negative numbers: their sum is within
    the count of the sum of the numbers from above, and within half the
    count from below. *)
Lemma roundClamp_sum_bounds (l : list Q) :
  Forall (fun a => 0 <= a) l ->
  0 <= sumQ l /\
  (Z.of_nat (List.length l) <= sumZ (map roundClamp l))%Z /\
  inject_Z (sumZ (map roundClamp l))
    <= sumQ l + inject_Z (Z.of_nat (List.length l)) /\
  sumQ l - inject_Z (Z.of_nat (List.length l)) * (1 # 2)
    <= inject_Z (sumZ (map roundClamp l)).
Proof.
  induction 1 as [| a l Ha _ [IH0 [IHn [IHu IHl]]]].
  - unfold sumQ, sumZ. cbn [map fold_right List.length Z.of_nat].
    change (inject_Z 0) with 0. split; [lra|]. split; [lia|]. split; lra.
  - rewrite sumQ_cons, inject_length_succ.
    cbn [map]. rewrite sumZ_cons, inject_Z_plus.
    pose proof (roundClamp_upper a Ha) as Hu.
    pose proof (roundClamp_lower a) as Hl.
    assert (H1 : (1 <= roundClamp a)%Z) by (unfold roundClamp; lia).
    repeat split; try lra.
    cbn [List.length]. lia.
Qed.

(** The summed pixel widths and the pixel width of a number within a
    quarter of their unrounded sum differ by at most one pixel per
    plate. *)
Lemma drift_bound_near (l : list Q) (A : Q) :
  l <> [] -> Forall (fun a => 0 <= a) l ->
  Qabs (A - sumQ l) <= 1 # 4 ->
  (Z.abs (sumZ (map roundClamp l) - roundClamp A)
   <= Z.of_nat (List.length l))%Z.
Proof.
  intros Hne Hl HA.
  assert (Hn : (1 <= Z.of_nat (List.length l))%Z).
  { destruct l; [contradiction | cbn [List.length]; lia]. }
  destruct (roundClamp_sum_bounds l Hl) as [_ [Hge [Hu Hlo]]].
  apply Qabs_Qle_condition in HA.
  pose proof (roundClamp_lower A) as Hfl.
  set (P := sumZ (map roundClamp l)) in *.
  set (F := roundClamp A) in *.
  set (n := Z.of_nat (List.length l)) in *.
  assert (H1 : (P - F < n + 1)%Z).
  { rewrite Zlt_Qlt. unfold Zminus.
    rewrite !inject_Z_plus, inject_Z_opp. change (inject_Z 1) with 1. lra. }
  assert (H2 : (F - P <= n)%Z).
  { destruct (Z_lt_le_dec F 2) as [Hsmall | Hbig].
    - assert (1 <= F)%Z by (unfold F, roundClamp; lia). lia.
    - pose proof (roundClamp_upper_half A Hbig) as Hfu.
      fold F in Hfu.
      assert (Hq : inject_Z (F - P) < inject_Z (n + 1)).
      { unfold Zminus. rewrite !inject_Z_plus, inject_Z_opp.
        change (inject_Z 1) with 1.
        assert (1 <= inject_Z n)
          by (change 1 with (inject_Z 1); rewrite <- Zle_Qle; exact Hn).
        lra. }
      rewrite <- Zlt_Qlt in Hq. lia. }
  lia.
Qed.

(** A width that [widthWithin] accepts is read by the preview as a
    number between 0 and the bound. *)
Lemma widthWithin_Fin (hi : Q) (p : Plate) :
  widthWithin hi p = true ->
  plateWidthCm p = Fin (widthQ p) /\ 0 <= widthQ p /\ widthQ p <= hi.
Proof.
  unfold widthWithin, widthQ, plateWidthCm, or_else.
  destruct (Number (widthCm p)) as [| | |w]; try discriminate.
  intro H. apply andb_true_iff in H. destruct H as [H0 H1].
  apply Qle_bool_iff in H0, H1. cbn [truthy].
  destruct (Qeq_bool w 0) eqn:E; cbn [negb].
  - split; [reflexivity|]. split; lra.
  - split; [reflexivity|]. split; assumption.
Qed.

Lemma add64_small (a w : Q) :
  0 <= a -> 0 <= w -> a + w <= 2097152 ->
  exists r, B64.add (Fin a) (Fin w) = Fin r /\ 0 <= r /\
            Qabs (r - (a + w)) <= 1 # 2147483648.
Proof.
  intros Ha Hw Hb. rewrite add64_Fin.
  assert (Habs : Qabs (a + w) == a + w) by (apply Qabs_pos; lra).
  destruct (round64_small (a + w)) as [r [E [Hd [H0 _]]]].
  { rewrite Habs. eapply Qle_trans; [exact Hb|].
    apply Qle_bool_imp_le. vm_compute. reflexivity. }
  exists r. split; [exact E|]. split; [apply H0; lra|].
  rewrite Habs in Hd. eapply Qle_trans; [exact Hd|].
  pose proof eta64_small as He. unfold u64. lra.
Qed.

Lemma mul64_small (a b : Q) :
  Qabs (a * b) <= 8589934592 ->
  exists r, B64.mul (Fin a) (Fin b) = Fin r /\
            Qabs (r - a * b) <= 1 # 524288 /\
            (0 <= a * b -> 0 <= r) /\ (a * b <= 0 -> r <= 0).
Proof.
  intro Hb. rewrite mul64_Fin.
  destruct (round64_small (a * b)) as [r [E [Hd Hs]]].
  { eapply Qle_trans; [exact Hb|].
    apply Qle_bool_imp_le. vm_compute. reflexivity. }
  exists r. split; [exact E|]. split; [| exact Hs].
  eapply Qle_trans; [exact Hd|].
  pose proof eta64_small as He.
  assert (Hm : Qabs (a * b) * u64 <= 8589934592 * u64).
  { apply Qmult_le_compat_r; [exact Hb | discriminate]. }
  unfold u64 in *. lra.
Qed.

Lemma widths_sum_bound (ps : list Plate) :
  forallb (widthWithin 1024) ps = true ->
  0 <= sumQ (map widthQ ps) /\
  sumQ (map widthQ ps) <= inject_Z (Z.of_nat (List.length ps)) * 1024.
Proof.
  induction ps as [| p rest IH]; intro H.
  - unfold sumQ. cbn [map fold_right List.length Z.of_nat].
    change (inject_Z 0) with 0. split; lra.
  - cbn [forallb] in H. apply andb_true_iff in H. destruct H as [Hp Hr].
    destruct (widthWithin_Fin _ _ Hp) as [_ [H0 H1]].
    destruct (IH Hr) as [I0 I1].
    cbn [map]. rewrite sumQ_cons, inject_length_succ. split; lra.
Qed.

(** The running offset in doubles stays within 2^-31 cm per plate of
    the exact sum, for plates of 0 to 1024 cm whose sum is at most
    2^20 cm. *)
Lemma offset64_near (ps : list Plate) :
  forallb (widthWithin 1024) ps = true ->
  forall a A E,
    0 <= a -> Qabs (a - A) <= E ->
    E + inject_Z (Z.of_nat (List.length ps)) * (1 # 2147483648) <= 1 ->
    A + sumQ (map widthQ ps) <= 1048576 ->
    exists r, B64.offsetCm (Fin a) ps = Fin r /\ 0 <= r /\
              Qabs (r - (A + sumQ (map widthQ ps)))
              <= E + inject_Z (Z.of_nat (List.length ps)) * (1 # 2147483648).
Proof.
  induction ps as [| p rest IH]; intros H a A E Ha HE Hbud Hsum.
  - exists a. split; [reflexivity|]. split; [exact Ha|].
    cbn [map List.length Z.of_nat]. unfold sumQ. cbn [fold_right].
    apply Qabs_Qle_condition in HE. apply Qabs_Qle_condition.
    change (inject_Z 0) with 0. split; lra.
  - cbn [forallb] in H. apply andb_true_iff in H. destruct H as [Hp Hr].
    destruct (widthWithin_Fin _ _ Hp) as [Ep [H0 H1]].
    destruct (widths_sum_bound rest Hr) as [S0 _].
    pose proof (inject_length_nonneg rest) as Hn.
    cbn [map] in *. rewrite sumQ_cons in *. rewrite inject_length_succ in *.
    apply Qabs_Qle_condition in HE.
    destruct (add64_small a (widthQ p) Ha H0) as [a' [Ea [Ha' Hd]]]; [lra|].
    apply Qabs_Qle_condition in Hd.
    destruct (IH Hr a' (A + widthQ p) (E + (1 # 2147483648)) Ha')
      as [r [Er [Hr0 Hrd]]].
    + apply Qabs_Qle_condition. split; lra.
    + lra.
    + lra.
    + exists r. unfold B64.offsetCm in *. cbn [fold_left]. rewrite Ep, Ea.
      split; [exact Er|]. split; [exact Hr0|].
      cbn [map]. rewrite ?sumQ_cons, ?inject_length_succ.
      apply Qabs_Qle_condition in Hrd. apply Qabs_Qle_condition. split; lra.
Qed.

(** The scaled width of each plate in doubles is within 2^-19 px of the
    exact product and has its sign. *)
Lemma scaledWidth64_near (s : Q) (p : Plate) :
  Qabs s <= 4096 -> widthWithin 1024 p = true ->
  B64.mul (plateWidthCm p) (Fin s) = Fin (scaledWidth64 s p) /\
  Qabs (scaledWidth64 s p - widthQ p * s) <= 1 # 524288 /\
  (0 <= s -> 0 <= scaledWidth64 s p) /\
  (s <= 0 -> scaledWidth64 s p <= 0).
Proof.
  intros Hs Hp. destruct (widthWithin_Fin _ _ Hp) as [Ep [H0 H1]].
  unfold scaledWidth64. rewrite Ep.
  destruct (mul64_small (widthQ p) s) as [r [E [Hd [Hpos Hneg]]]].
  { rewrite Qabs_Qmult, (Qabs_pos (widthQ p)) by exact H0.
    assert (Ha : 0 <= Qabs s) by apply Qabs_nonneg.
    assert (H2 : widthQ p * Qabs s <= 1024 * Qabs s)
      by (apply Qmult_le_compat_r; assumption).
    lra. }
  rewrite E. split; [reflexivity|]. split; [exact Hd|]. split; intro H.
  - apply Hpos. apply Qmult_le_0_compat; assumption.
  - apply Hneg.
    assert (0 <= widthQ p * (- s)) by (apply Qmult_le_0_compat; lra). lra.
Qed.

Lemma scaledWidths64_near (s : Q) (ps : list Plate) :
  Qabs s <= 4096 -> forallb (widthWithin 1024) ps = true ->
  Qabs (sumQ (map (scaledWidth64 s) ps) - sumQ (map widthQ ps) * s)
  <= inject_Z (Z.of_nat (List.length ps)) * (1 # 524288).
Proof.
  intros Hs. induction ps as [| p rest IH]; intro H.
  - unfold sumQ. cbn [map fold_right List.length Z.of_nat].
    change (inject_Z 0) with 0. apply Qabs_Qle_condition. split; lra.
  - cbn [forallb] in H. apply andb_true_iff in H. destruct H as [Hp Hr].
    destruct (scaledWidth64_near s p Hs Hp) as [_ [Hd _]].
    specialize (IH Hr).
    cbn [map]. rewrite !sumQ_cons, inject_length_succ.
    apply Qabs_Qle_condition in Hd, IH. apply Qabs_Qle_condition.
    split; lra.
Qed.

Lemma renderPlate64_width (el : option Element) (st : ScaleState) (totalW : num)
    (x : num) (i : nat) (p : Plate) (b : PlateBox) :
  B64.renderPlate el st totalW x i p = Some b ->
  boxWidth b
  = Math_max (Fin 1) (Math_round (B64.mul (plateWidthCm p) (scaleX st))).
Proof.
  unfold B64.renderPlate.
  destruct (if negb (needMirror totalW) then _ else _); [|discriminate].
  intro H. injection H as <-. reflexivity.
Qed.

Lemma renderFrom64_widths (el : option Element) (st : ScaleState) (totalW : num)
    (ps : list Plate) :
  forall x i bs,
    B64.renderFrom el st totalW x i ps = Some bs ->
    map boxWidth bs
    = map (fun p => Math_max (Fin 1)
                      (Math_round (B64.mul (plateWidthCm p) (scaleX st)))) ps.
Proof.
  induction ps as [| q rest IH]; intros x i bs H; cbn [B64.renderFrom] in H.
  - injection H as <-. reflexivity.
  - destruct (B64.renderPlate el st totalW x i q) as [b|] eqn:Eb; [|discriminate].
    destruct (B64.renderFrom el st totalW (B64.add x (plateWidthCm q)) (S i) rest)
      as [bs'|] eqn:Er; [|discriminate].
    injection H as <-. cbn [map].
    rewrite (renderPlate64_width _ _ _ _ _ _ _ Eb), (IH _ _ _ Er). reflexivity.
Qed.

Lemma roundClamp_all_one (l : list Q) :
  Forall (fun a => a <= 0) l ->
  sumZ (map roundClamp l) = Z.of_nat (List.length l).
Proof.
  induction 1 as [| a l Ha _ IH]; [reflexivity|].
  cbn [map List.length]. rewrite sumZ_cons, IH, (roundClamp_nonpos a Ha). lia.
Qed.

(** C5, as the code has it.  For plates whose stored widths are numbers
    between 0 and 1024 cm, at most 1024 of them, whose summed width is
    more than 0, and a finite scale of at most 4096 px per cm in
    magnitude: when the pass returns, the box widths are integers, the
    frame width is an integer, and the sum of the box widths differs
    from the frame width by at most one pixel per plate, the clamps at
    1 px and the rounding of every sum and product to a double
    included. *)
Theorem width_sum_drift (el : option Element) (st : ScaleState)
    (plates : list Plate) (s : Q) :
  scaleX st = Fin s -> Qabs s <= 4096 ->
  forallb (widthWithin 1024) plates = true ->
  (List.length plates <= 1024)%nat ->
  gt (B64.sumWidthCm plates) (Fin 0) = true ->
  B64.tileRowThrows el st (B64.totalWidthCm plates) = false ->
  exists boxes ws F,
    B64.render el st plates = Some boxes /\
    map boxWidth boxes = map of_Z ws /\
    frameW (B64.frameDims el (B64.totalWidthCm plates) (scaleX st)) = of_Z F /\
    (Z.abs (sumZ ws - F) <= Z.of_nat (List.length plates))%Z.
Proof.
  intros Es Hs Hw Hlen Hpos Hok.
  set (n := inject_Z (Z.of_nat (List.length plates))).
  assert (Hn0 : 0 <= n) by apply inject_length_nonneg.
  assert (Hn : n <= 1024).
  { unfold n. change 1024 with (inject_Z 1024). rewrite <- Zle_Qle. lia. }
  destruct (widths_sum_bound plates Hw) as [HW0 HWn]. fold n in HWn.
  set (W := sumQ (map widthQ plates)) in *.
  (* the total width in doubles *)
  destruct (offset64_near plates Hw 0 0 0) as [T [ET [HT0 HTd]]];
    try fold n; try fold W.
  { lra. }
  { apply Qabs_Qle_condition. split; lra. }
  { lra. }
  { lra. }
  fold n in HTd. fold W in HTd.
  change (B64.offsetCm (Fin 0) plates) with (B64.sumWidthCm plates) in ET.
  rewrite ET in Hpos. cbn [gt] in Hpos. apply Qltb_iff in Hpos.
  assert (ETot : B64.totalWidthCm plates = Fin T).
  { unfold B64.totalWidthCm, or_else. rewrite ET. cbn [truthy].
    replace (Qeq_bool T 0) with false; [reflexivity|].
    symmetry. apply Qeq_bool_false. lra. }
  assert (Hne : plates <> []).
  { intro E. rewrite E in ET. cbn in ET. injection ET as ET1.
    rewrite <- ET1 in Hpos. exact (Qlt_irrefl 0 Hpos). }
  apply Qabs_Qle_condition in HTd.
  assert (Habs : 0 <= Qabs s) by apply Qabs_nonneg.
  (* the frame *)
  destruct (mul64_small T s) as [A [EA [HAd [HApos HAneg]]]].
  { rewrite Qabs_Qmult, (Qabs_pos T) by exact HT0.
    assert (H : T * Qabs s <= 1048577 * 4096).
    { apply Qmult_le_compat_nonneg; split; lra. }
    lra. }
  assert (EF : frameW (B64.frameDims el (B64.totalWidthCm plates) (scaleX st))
               = of_Z (roundClamp A)).
  { rewrite ETot, Es. unfold B64.frameDims. cbn [frameW]. rewrite EA.
    apply max1_round_Fin. }
  (* the boxes *)
  destruct (renderFrom64_boxes el st _ plates Hok (Fin 0) 0%nat)
    as [boxes [E _]].
  pose proof (renderFrom64_widths _ _ _ _ _ _ _ E) as Hmap.
  exists boxes, (map roundClamp (map (scaledWidth64 s) plates)), (roundClamp A).
  split; [exact E|]. split; [| split; [exact EF|]].
  { rewrite Hmap, !map_map. apply map_ext_in. intros p Hp.
    rewrite forallb_forall in Hw.
    destruct (scaledWidth64_near s p Hs (Hw p Hp)) as [Ep _].
    rewrite Es, Ep. apply max1_round_Fin. }
  set (l := map (scaledWidth64 s) plates).
  assert (Hll : List.length l = List.length plates) by (unfold l; apply length_map).
  rewrite <- Hll.
  destruct (Qlt_le_dec s 0) as [Hneg | Hnn].
  - (* a negative scale: every box and the frame are 1 px *)
    assert (Hl : Forall (fun a => a <= 0) l).
    { unfold l. apply Forall_map. apply Forall_forall. intros p Hp.
      rewrite forallb_forall in Hw.
      destruct (scaledWidth64_near s p Hs (Hw p Hp)) as [_ [_ [_ H]]].
      apply H. lra. }
    rewrite (roundClamp_all_one l Hl).
    assert (HA0 : A <= 0).
    { apply HAneg.
      assert (0 <= T * (- s)) by (apply Qmult_le_0_compat; lra). lra. }
    rewrite (roundClamp_nonpos A HA0).
    assert (1 <= List.length l)%nat.
    { rewrite Hll. destruct plates; [contradiction | cbn; lia]. }
    lia.
  - assert (Hl : Forall (fun a => 0 <= a) l).
    { unfold l. apply Forall_map. apply Forall_forall. intros p Hp.
      rewrite forallb_forall in Hw.
      destruct (scaledWidth64_near s p Hs (Hw p Hp)) as [_ [_ [H _]]].
      apply H. exact Hnn. }
    apply drift_bound_near; [| exact Hl |].
    { unfold l. destruct plates; [contradiction | discriminate]. }
    pose proof (scaledWidths64_near s plates Hs Hw) as Hsum.
    fold l in Hsum. fold n in Hsum. fold W in Hsum.
    apply Qabs_Qle_condition in Hsum, HAd.
    assert (Hts : Qabs ((T - W) * s) <= (1 # 2097152) * 4096).
    { rewrite Qabs_Qmult. apply Qmult_le_compat_nonneg.
      - split; [apply Qabs_nonneg|]. apply Qabs_Qle_condition. split; lra.
      - split; [apply Qabs_nonneg | exact Hs]. }
    apply Qabs_Qle_condition in Hts.
    assert (Ets : (T - W) * s == T * s - W * s) by ring.
    rewrite Ets in Hts.
    set (TS := T * s) in *. set (WS := W * s) in *.
    set (SL := sumQ l) in *.
    clearbody TS WS SL n. clear - Hsum HAd Hts Hn Hn0.
    apply Qabs_Qle_condition. split; lra.
Qed.

Lemma width_sum_drift_witness :
  scaleX narrowScale = Fin (1159924354576879 # 562949953421312) /\
  Qabs (1159924354576879 # 562949953421312) <= 4096 /\
  forallb (widthWithin 1024) narrowPlates = true /\
  (List.length narrowPlates <= 1024)%nat /\
  gt (B64.sumWidthCm narrowPlates) (Fin 0) = true /\
  B64.tileRowThrows (Some narrowElement) narrowScale
    (B64.totalWidthCm narrowPlates) = false /\
  map boxWidth
    (match B64.render (Some narrowElement) narrowScale narrowPlates with
     | Some boxes => boxes
     | None => []
     end) = [Fin 187; Fin 187] /\
  frameW (B64.frameDims (Some narrowElement) (B64.totalWidthCm narrowPlates)
            (scaleX narrowScale)) = Fin 375 /\
  exists boxes ws F,
    B64.render (Some narrowElement) narrowScale narrowPlates = Some boxes /\
    map boxWidth boxes = map of_Z ws /\
    frameW (B64.frameDims (Some narrowElement) (B64.totalWidthCm narrowPlates)
              (scaleX narrowScale)) = of_Z F /\
    (Z.abs (sumZ ws - F) <= 2)%Z.
Proof.
  assert (H1 : scaleX narrowScale = Fin (1159924354576879 # 562949953421312))
    by (vm_compute; reflexivity).
  assert (H2 : Qabs (1159924354576879 # 562949953421312) <= 4096)
    by (apply Qle_bool_imp_le; vm_compute; reflexivity).
  assert (H3 : forallb (widthWithin 1024) narrowPlates = true)
    by (vm_compute; reflexivity).
  assert (H4 : (List.length narrowPlates <= 1024)%nat) by (cbn; lia).
  assert (H5 : gt (B64.sumWidthCm narrowPlates) (Fin 0) = true)
    by (vm_compute; reflexivity).
  assert (H6 : B64.tileRowThrows (Some narrowElement) narrowScale
                 (B64.totalWidthCm narrowPlates) = false)
    by (vm_compute; reflexivity).
  repeat (split; [assumption|]).
  split; [vm_compute; reflexivity|]. split; [vm_compute; reflexivity|].
  exact (width_sum_drift (Some narrowElement) narrowScale narrowPlates _
           H1 H2 H3 H4 H5 H6).
Defined.

(** C5, the claim as written fails.  One plate whose stored width is
    [null], in the 800 x 360 px container with a height ceiling of
    128 cm: the total width falls back to 1 cm, the scale is 2.8125,
    the frame is 3 px wide and the only box 1 px, two pixels apart for
    one plate.  And in doubles the sum of two widths can lose the
    smaller one: plates of 256 cm and 2^-45 cm at a scale of 2^50 px
    per cm get boxes of 2^58 and 32 px in a frame of 2^58 px. *)
Lemma width_sum_drift_fails :
  B64.render (Some exampleElement) nullScale [nullPlate]
  = Some [{| boxKey := "n"; boxWidth := Fin 1; boxHeight := Fin 281;
             boxLeft := Fin 0;
             boxMotif := Stretched 1 (Fin 0) (Fin 3) (Fin 360) |}] /\
  frameW (B64.frameDims (Some exampleElement) (B64.totalWidthCm [nullPlate])
            (scaleX nullScale)) = Fin 3 /\
  (Z.abs (1 - 3) > 1)%Z /\
  map boxWidth
    (match B64.render None hugeScale tinyPlates with
     | Some boxes => boxes
     | None => []
     end) = [of_Z (2 ^ 58); of_Z 32] /\
  frameW (B64.frameDims None (B64.totalWidthCm tinyPlates) (scaleX hugeScale))
  = of_Z (2 ^ 58) /\
  (Z.abs (2 ^ 58 + 32 - 2 ^ 58) > 2)%Z.
Proof.
  repeat split; vm_compute; reflexivity.
Qed.

(** * The plate list *)

(** ** The plate list keeps one to ten plates *)

Section PlateList.

Variable NEW_PLATE : Plate.
Variable DEFAULT_MOTIF_URL : string.

Let add_plate := addPlate NEW_PLATE DEFAULT_MOTIF_URL.
Let run := runOps NEW_PLATE DEFAULT_MOTIF_URL.
Let fresh := freshOps NEW_PLATE DEFAULT_MOTIF_URL.

Lemma filter_absent_id (id0 : string) (l : list Plate) :
  ~ In id0 (map id l) -> filter (keepOthers id0) l = l.
Proof.
  induction l as [| p l IH]; intro H; [reflexivity|].
  cbn [filter map In] in *. unfold keepOthers at 1.
  destruct (String.eqb (id p) id0) eqn:E.
  - apply String.eqb_eq in E. exfalso. apply H. left. exact E.
  - cbn [negb]. f_equal. apply IH. intro Hin. apply H. right. exact Hin.
Qed.

(** With unique ids the filter of [removePlate] drops at most one plate. *)
Lemma filter_unique_length (id0 : string) (l : list Plate) :
  uniqueIds l ->
  (List.length l - 1 <= List.length (filter (keepOthers id0) l)
   <= List.length l)%nat.
Proof.
  unfold uniqueIds. induction l as [| p l IH]; intro H; [cbn; lia|].
  cbn [map] in H. inversion H as [| x xs Hnotin Hnd]; subst.
  cbn [filter]. destruct (keepOthers id0 p) eqn:E; cbn [List.length].
  - specialize (IH Hnd). lia.
  - unfold keepOthers in E. apply negb_false_iff in E.
    apply String.eqb_eq in E. subst id0.
    rewrite (filter_absent_id _ _ Hnotin). lia.
Qed.

Lemma filter_keeps_unique (f : Plate -> bool) (l : list Plate) :
  uniqueIds l -> uniqueIds (filter f l).
Proof.
  unfold uniqueIds. induction l as [| p l IH]; intro H; [exact H|].
  cbn [map] in H. inversion H as [| x xs Hnotin Hnd]; subst.
  cbn [filter]. destruct (f p); [| exact (IH Hnd)].
  cbn [map]. constructor; [| exact (IH Hnd)].
  intro Hin. apply Hnotin. apply in_map_iff in Hin.
  destruct Hin as [q [Hq Hf]]. apply filter_In in Hf.
  apply in_map_iff. exists q. tauto.
Qed.

Lemma addPlate_count (uuid : string) (prev : list Plate) :
  plateCountOk prev -> plateCountOk (add_plate uuid prev).
Proof.
  unfold plateCountOk, add_plate, addPlate. intro H.
  destruct (10 <=? List.length prev)%nat eqn:E; [exact H|].
  apply Nat.leb_gt in E. rewrite length_app. cbn [List.length]. lia.
Qed.

Lemma addPlate_unique (uuid : string) (prev : list Plate) :
  uniqueIds prev -> ~ In uuid (map id prev) ->
  uniqueIds (add_plate uuid prev).
Proof.
  unfold uniqueIds, add_plate, addPlate. intros H Hfresh.
  destruct (10 <=? List.length prev)%nat; [exact H|].
  rewrite map_app. cbn [map withId id]. apply NoDup_app; [exact H | |].
  - constructor; [intros [] | constructor].
  - intros a Ha [Hb | []]. subst a. contradiction.
Qed.

Lemma removePlate_count (id0 : string) (prev : list Plate) :
  plateCountOk prev -> uniqueIds prev ->
  plateCountOk (removePlate id0 prev).
Proof.
  unfold plateCountOk, removePlate. intros H Hu.
  destruct (List.length prev <=? 1)%nat eqn:E; [exact H|].
  apply Nat.leb_gt in E.
  pose proof (filter_unique_length id0 prev Hu) as Hf.
  unfold keepOthers in Hf. lia.
Qed.

Lemma removePlate_unique (id0 : string) (prev : list Plate) :
  uniqueIds prev -> uniqueIds (removePlate id0 prev).
Proof.
  unfold removePlate. intro H.
  destruct (List.length prev <=? 1)%nat; [exact H|].
  now apply filter_keeps_unique.
Qed.

(** C9, as the code has it.  [addPlate] returns a list of ten or more
    plates unchanged and otherwise appends one plate; [removePlate]
    returns a list of one plate or none unchanged and otherwise filters
    out the given id, which drops at most one plate when ids are
    unique; so a list of one to ten plates with unique ids keeps one to
    ten plates, and unique ids, under every sequence of adds (each with
    a fresh id) and removes. *)
Theorem plate_count_invariant (ops : list PlateOp) (plates : list Plate) :
  plateCountOk plates -> uniqueIds plates -> fresh ops plates ->
  plateCountOk (run ops plates) /\ uniqueIds (run ops plates) /\
  (forall uuid, (10 <= List.length plates)%nat ->
                add_plate uuid plates = plates) /\
  (forall uuid, (List.length plates < 10)%nat ->
                add_plate uuid plates
                = (plates ++ [withId DEFAULT_MOTIF_URL NEW_PLATE uuid])%list) /\
  (forall id0, (List.length plates <= 1)%nat ->
               removePlate id0 plates = plates) /\
  (forall id0, (1 < List.length plates)%nat ->
               removePlate id0 plates
               = filter (fun p => negb (String.eqb (id p) id0)) plates /\
               (List.length plates - 1
                <= List.length (removePlate id0 plates)
                <= List.length plates)%nat).
Proof.
  intros Hc Hu Hf.
  assert (Hrun : plateCountOk (run ops plates) /\ uniqueIds (run ops plates)).
  { revert plates Hc Hu Hf. unfold run, runOps, fresh.
    induction ops as [| op rest IH]; intros plates Hc Hu Hf; [split; assumption|].
    cbn [fold_left]. cbn [freshOps] in Hf. destruct Hf as [Hop Hrest].
    apply IH; [| | exact Hrest]; destruct op as [uuid | id0]; cbn [applyOp].
    - now apply addPlate_count.
    - now apply removePlate_count.
    - now apply addPlate_unique.
    - now apply removePlate_unique. }
  destruct Hrun as [H1 H2]. split; [exact H1|]. split; [exact H2|].
  unfold add_plate, addPlate, removePlate. repeat split.
  - intros uuid H. apply Nat.leb_le in H. now rewrite H.
  - intros uuid H. apply Nat.leb_gt in H. now rewrite H.
  - intros id0 H. apply Nat.leb_le in H. now rewrite H.
  - apply Nat.leb_gt in H. now rewrite H.
  - apply Nat.leb_gt in H. rewrite H.
    pose proof (filter_unique_length id0 plates Hu) as Hl.
    unfold keepOthers in Hl. lia.
  - apply Nat.leb_gt in H. rewrite H.
    pose proof (filter_unique_length id0 plates Hu) as Hl.
    unfold keepOthers in Hl. lia.
Qed.

End PlateList.

(** C9, the claim as written fails: ids need not be unique.  Two stored
    plates with the same id are both removed by one [removePlate], and
    so is a plate together with one added under its id: the list is
    left empty. *)
Lemma duplicate_ids_empty_the_list :
  plateCountOk twinPlates /\
  removePlate "a" twinPlates = [] /\
  ~ plateCountOk (removePlate "a" twinPlates) /\
  plateCountOk [plateA] /\
  runOps blankPlate "m" [OpAdd "a"; OpRemove "a"] [plateA] = [] /\
  ~ plateCountOk (runOps blankPlate "m" [OpAdd "a"; OpRemove "a"] [plateA]).
Proof.
  unfold plateCountOk. cbn. repeat split; lia.
Qed.

(** ** The properties at concrete inputs *)

Lemma compute_scaleX_le_scaleY_witness :
  Fin 350 <> NaN /\
  le (scaleX (compute (Fin 220) (Some exampleElement) (Fin 350) initialScale))
     (scaleY (compute (Fin 220) (Some exampleElement) (Fin 350) initialScale))
  = true.
Proof.
  assert (H : Fin 350 <> NaN) by discriminate.
  split; [exact H|].
  exact (proj1 (compute_scaleX_le_scaleY 220 eq_refl exampleElement (Fin 350)
                  initialScale H)).
Defined.

Lemma absent_dimension_is_zero_witness :
  absentOrNaN (widthCm blankPlate) = true /\
  absentOrNaN (heightCm blankPlate) = true /\
  tileRowThrows (Some exampleElement) exampleScale
    (totalWidthCm [plateA; blankPlate; plateB]) = false /\
  plateWidthCm blankPlate = Fin 0 /\
  plateHeightCm blankPlate = Fin 0 /\
  num_eqv (totalWidthCm [plateA; blankPlate; plateB]) (totalWidthCm examplePlates) /\
  exists boxes b,
    render (Some exampleElement) exampleScale [plateA; blankPlate; plateB]
      = Some boxes /\
    nth_error boxes 1 = Some b /\ boxWidth b = Fin 1 /\ boxHeight b = Fin 1.
Proof.
  assert (Hw : absentOrNaN (widthCm blankPlate) = true) by reflexivity.
  assert (Hh : absentOrNaN (heightCm blankPlate) = true) by reflexivity.
  assert (Hok : tileRowThrows (Some exampleElement) exampleScale
                  (totalWidthCm [plateA; blankPlate; plateB]) = false)
    by reflexivity.
  split; [exact Hw|]. split; [exact Hh|]. split; [exact Hok|].
  destruct (absent_dimension_is_zero (Some exampleElement) exampleScale
              [plateA] [plateB] blankPlate) as [HW [HH HR]].
  destruct (HW Hw) as [E [_ HT]].
  split; [exact E|]. split; [exact (HH Hh)|]. split; [exact HT|].
  destruct (HR Hok) as [boxes [b [Er [Hb [Hbw Hbh]]]]].
  exists boxes, b. split; [exact Er|]. split; [exact Hb|].
  split; [exact (Hbw Hw eq_refl) | exact (Hbh Hh eq_refl)].
Defined.

Lemma plate_count_invariant_witness :
  plateCountOk examplePlates /\ uniqueIds examplePlates /\
  freshOps blankPlate "m" exampleOps examplePlates /\
  plateCountOk (runOps blankPlate "m" exampleOps examplePlates) /\
  uniqueIds (runOps blankPlate "m" exampleOps examplePlates).
Proof.
  assert (Hc : plateCountOk examplePlates).
  { unfold plateCountOk. simpl. lia. }
  assert (Hu : uniqueIds examplePlates).
  { unfold uniqueIds. simpl. constructor.
    - intros [H | []]. discriminate H.
    - constructor; [intros [] | constructor]. }
  assert (Hf : freshOps blankPlate "m" exampleOps examplePlates).
  { simpl. repeat split.
    - intros [H | [H | []]]; discriminate H.
    - intros [H | []]. discriminate H. }
  split; [exact Hc|]. split; [exact Hu|]. split; [exact Hf|].
  destruct (plate_count_invariant blankPlate "m" exampleOps examplePlates
              Hc Hu Hf) as [H1 [H2 _]].
  split; [exact H1 | exact H2].
Defined.

(** * Further properties of the preview *)

(** ** The scale resolver over time *)

Section ScaleResolverMore.

Variable hmax : Q.
Hypothesis hmax_pos : 0 < hmax.

(** For a finite total width [t] the stored [scaleX] is non-negative
    and [scaleX * max(1, t)] is at most the clamped container width. *)
Lemma compute_scaleX_bound (e : Element) (t : Q) (st : ScaleState) :
  exists sx,
    scaleX (compute (Fin hmax) (Some e) (Fin t) st) = Fin sx /\
    0 <= sx /\
    sx * Qmax 1 t <= inject_Z (Z.max 1 (clientWidth e)) /\
    sx * t <= inject_Z (Z.max 1 (clientWidth e)).
Proof.
  unfold compute. cbn [scaleX]. rewrite !Math_max_1_of_Z. unfold of_Z.
  rewrite (div_Fin_pos _ hmax hmax_pos).
  pose proof (inject_Z_max1 (clientHeight e)) as Hh.
  pose proof (inject_Z_max1 (clientWidth e)) as Hw.
  set (bh := inject_Z (Z.max 1 (clientHeight e))) in *.
  set (bw := inject_Z (Z.max 1 (clientWidth e))) in *.
  destruct (Math_max_1_Fin t) as [d [Hd Hdq]]. rewrite Hd.
  assert (Hd1 : 1 <= d) by (rewrite Hdq; apply Q.le_max_l).
  assert (Htd : t <= d) by (rewrite Hdq; apply Q.le_max_r).
  rewrite div_Fin_pos by lra.
  assert (Hv : 0 < bh / hmax) by (apply Qlt_shift_div_l; [exact hmax_pos | lra]).
  assert (Hq0 : 0 < bw / d) by (apply Qlt_shift_div_l; lra).
  destruct (Math_min_Fin (bh / hmax) (bw / d)) as [m [Hm [Hq _]]].
  exists m. split; [exact Hm|].
  assert (Hm0 : 0 <= m) by (rewrite Hq; apply Q.min_glb; lra).
  assert (Hmh : m <= bw / d) by (rewrite Hq; apply Q.le_min_r).
  assert (Hmd : m * d <= bw).
  { assert (E : bw == bw / d * d) by (field; lra).
    rewrite E. apply Qmult_le_compat_r; lra. }
  split; [exact Hm0|]. split.
  - rewrite <- Hdq. exact Hmd.
  - eapply Qle_trans; [| exact Hmd].
    rewrite (Qmult_comm m t), (Qmult_comm m d).
    apply Qmult_le_compat_r; assumption.
Qed.

(** X1.  Growing the total width while the container stays the same
    never changes [scaleY] and never increases [scaleX]. *)
Theorem compute_monotone (e : Element) (t1 t2 : Q) (st1 st2 : ScaleState) :
  t1 <= t2 ->
  scaleY (compute (Fin hmax) (Some e) (Fin t2) st2)
  = scaleY (compute (Fin hmax) (Some e) (Fin t1) st1) /\
  le (scaleX (compute (Fin hmax) (Some e) (Fin t2) st2))
     (scaleX (compute (Fin hmax) (Some e) (Fin t1) st1)) = true.
Proof.
  intro Ht. split; [reflexivity|].
  unfold compute. cbn [scaleX]. rewrite !Math_max_1_of_Z. unfold of_Z.
  rewrite (div_Fin_pos _ hmax hmax_pos).
  pose proof (inject_Z_max1 (clientWidth e)) as Hw.
  set (v := inject_Z (Z.max 1 (clientHeight e)) / hmax).
  set (bw := inject_Z (Z.max 1 (clientWidth e))) in *.
  destruct (Math_max_1_Fin t1) as [d1 [Hd1 Hq1]].
  destruct (Math_max_1_Fin t2) as [d2 [Hd2 Hq2]].
  rewrite Hd1, Hd2.
  assert (H1 : 1 <= d1) by (rewrite Hq1; apply Q.le_max_l).
  assert (H12 : d1 <= d2) by (rewrite Hq1, Hq2; apply Q.max_le_compat_l; exact Ht).
  rewrite !div_Fin_pos by lra.
  destruct (Math_min_Fin v (bw / d1)) as [m1 [Hm1 [He1 _]]].
  destruct (Math_min_Fin v (bw / d2)) as [m2 [Hm2 [He2 _]]].
  rewrite Hm1, Hm2. cbn [le]. apply Qle_bool_iff. rewrite He1, He2.
  apply Q.min_le_compat_l.
  apply Qle_shift_div_l; [lra|].
  assert (E : bw / d2 * d2 == bw) by (field; lra).
  assert (Hpos : 0 <= bw / d2) by (apply Qle_shift_div_l; lra).
  assert (Hle : bw / d2 * d1 <= bw / d2 * d2).
  { rewrite (Qmult_comm _ d1), (Qmult_comm _ d2).
    apply Qmult_le_compat_r; assumption. }
  lra.
Qed.

Lemma Qfloor_half (z : Z) : Qfloor (inject_Z z + (1 # 2)) = z.
Proof.
  pose proof (Qfloor_le (inject_Z z + (1 # 2))) as Hl.
  pose proof (Qlt_floor (inject_Z z + (1 # 2))) as Hu.
  set (f := Qfloor (inject_Z z + (1 # 2))) in *.
  assert (H1 : inject_Z f < inject_Z (z + 1)).
  { rewrite inject_Z_plus. change (inject_Z 1) with 1. lra. }
  assert (H2 : inject_Z z < inject_Z (f + 1)) by lra.
  rewrite <- Zlt_Qlt in H1, H2. lia.
Qed.

(** Rounding a number that is at most the integer [z] gives at most
    [z]; with the clamp, at most [max(1, z)]. *)
Lemma roundClamp_le (x : Q) (z : Z) :
  x <= inject_Z z -> (roundClamp x <= Z.max 1 z)%Z.
Proof.
  intro H. unfold roundClamp.
  assert (Hf : (Qfloor (x + (1 # 2)) <= z)%Z).
  { rewrite <- (Qfloor_half z). apply Qfloor_resp_le. lra. }
  lia.
Qed.

(** After [compute] the rounded frame is no wider than the container. *)
Lemma frame_width_bound (e : Element) (t : Q) (st : ScaleState) :
  exists sx,
    scaleX (compute (Fin hmax) (Some e) (Fin t) st) = Fin sx /\
    (1 <= roundClamp (t * sx) <= Z.max 1 (clientWidth e))%Z.
Proof.
  destruct (compute_scaleX_bound e t st) as [sx [E [_ [_ Hb]]]].
  exists sx. split; [exact E|]. split; [unfold roundClamp; lia|].
  rewrite <- (Z.max_id 1), <- Z.max_assoc. apply roundClamp_le.
  rewrite Qmult_comm. exact Hb.
Qed.


(** X3.  Once [compute] has run in a mounted container narrower than
    2^32 px for the current plates (all of finite width), a render pass
    returns: it cannot throw while building the tile row. *)
Theorem render_after_compute_returns (e : Element) (el : option Element)
    (plates : list Plate) (st : ScaleState) :
  forallb finiteWidth plates = true ->
  (clientWidth e <= 2 ^ 32 - 1)%Z ->
  let st' := compute (Fin hmax) (Some e) (totalWidthCm plates) st in
  tileRowThrows el st' (totalWidthCm plates) = false /\
  exists boxes,
    render el st' plates = Some boxes /\
    List.length boxes = List.length plates.
Proof.
  intros Hw Hcw st'.
  assert (Hok : tileRowThrows el st' (totalWidthCm plates) = false).
  { subst st'. destruct (totalWidthCm_finite plates Hw) as [t Ht]. rewrite Ht.
    destruct (frame_width_bound e t st) as [sx [E Hb]].
    apply (tileRow_builds el _ t sx E). lia. }
  split; [exact Hok|].
  destruct (renderFrom_boxes el st' _ plates Hok (Fin 0) 0%nat)
    as [boxes [E [Hlen _]]].
  exists boxes. split; [exact E | exact Hlen].
Qed.

End ScaleResolverMore.

(** ** How the boxes sit in the frame *)





(** * Properties of the other components *)

(** ** Reordering *)

Lemma skipn_nth_cons {A : Type} (l : list A) (k : nat) (x : A) :
  nth_error l k = Some x -> skipn k l = x :: skipn (S k) l.
Proof.
  revert k. induction l as [| y l IH]; intros [| k] H; try discriminate.
  - cbn in H. injection H as ->. reflexivity.
  - cbn [nth_error] in H. cbn [skipn]. exact (IH k H).
Qed.

Lemma split_at_nth {A : Type} (l : list A) (k : nat) (x : A) :
  nth_error l k = Some x -> l = (firstn k l ++ x :: skipn (S k) l)%list.
Proof.
  intro H. rewrite <- (skipn_nth_cons l k x H). symmetry. apply firstn_skipn.
Qed.

Lemma removeAt_length {A : Type} (l : list A) (k : nat) :
  (k < List.length l)%nat -> List.length (removeAt k l) = (List.length l - 1)%nat.
Proof.
  intro H. unfold removeAt. rewrite length_app, length_firstn, length_skipn. lia.
Qed.

Lemma insertAt_length {A : Type} (l : list A) (k : nat) (x : A) :
  List.length (insertAt k x l) = S (List.length l).
Proof.
  unfold insertAt. rewrite length_app. cbn [List.length].
  rewrite length_firstn, length_skipn. lia.
Qed.

(** Inserting puts the element at the index, or at the end when the
    index is past it. *)
Lemma insertAt_nth {A : Type} (l : list A) (k : nat) (x : A) :
  nth_error (insertAt k x l) (Nat.min k (List.length l)) = Some x.
Proof.
  unfold insertAt. rewrite nth_error_app2; rewrite length_firstn; [|lia].
  rewrite Nat.sub_diag. reflexivity.
Qed.

Lemma removeAt_insertAt {A : Type} (l : list A) (k : nat) (x : A) :
  removeAt (Nat.min k (List.length l)) (insertAt k x l) = l.
Proof.
  unfold removeAt, insertAt.
  assert (Hlen : List.length (firstn k l) = Nat.min k (List.length l))
    by apply length_firstn.
  rewrite <- Hlen.
  rewrite firstn_app, Nat.sub_diag, firstn_all. cbn [firstn].
  rewrite app_nil_r.
  replace (S (List.length (firstn k l)))
    with (List.length (firstn k l) + 1)%nat by lia.
  rewrite skipn_app, skipn_all2 by lia.
  replace (List.length (firstn k l) + 1 - List.length (firstn k l))%nat
    with 1%nat by lia.
  cbn [skipn app]. apply firstn_skipn.
Qed.

Lemma insertAt_removeAt {A : Type} (l : list A) (k : nat) (x : A) :
  nth_error l k = Some x -> insertAt k x (removeAt k l) = l.
Proof.
  intro H.
  assert (Hk : (k < List.length l)%nat) by (apply nth_error_Some; congruence).
  unfold insertAt, removeAt.
  assert (Hlen : List.length (firstn k l) = k)
    by (rewrite length_firstn; lia).
  rewrite firstn_app, Hlen, Nat.sub_diag. cbn [firstn].
  rewrite app_nil_r, firstn_firstn, Nat.min_id.
  rewrite skipn_app, Hlen, Nat.sub_diag. cbn [skipn].
  rewrite skipn_all2 by lia. cbn [app].
  symmetry. now apply split_at_nth.
Qed.

Lemma insertAt_removeAt_perm {A : Type} (l : list A) (s e : nat) (x : A) :
  nth_error l s = Some x -> Permutation l (insertAt e x (removeAt s l)).
Proof.
  intro H. unfold insertAt.
  rewrite (split_at_nth l s x H) at 1. fold (removeAt s l).
  apply Permutation_trans with (x :: removeAt s l).
  - apply Permutation_sym. unfold removeAt. apply Permutation_middle.
  - rewrite <- (firstn_skipn e (removeAt s l)) at 1. apply Permutation_middle.
Qed.

(** [reorder] with a start index inside the list. *)
Lemma reorder_inside {A : Type} (l : list A) (s e : nat) (x : A) :
  nth_error l s = Some x ->
  reorder l s e = map Some (insertAt e x (removeAt s l)).
Proof.
  intro H. unfold reorder, splice. cbn [fst app].
  rewrite !skipn_map, !firstn_map, <- !map_app.
  rewrite (skipn_nth_cons l s x H). cbn [map firstn].
  rewrite Nat.add_1_r, Nat.add_0_r. fold (removeAt s l).
  rewrite firstn_map, skipn_map. unfold insertAt.
  rewrite map_app. reflexivity.
Qed.

(** X8.  With a start index inside the list, [reorder] returns the same
    elements in a new order, none of them [undefined]: the element at
    [startIndex] now sits at [endIndex] (at the end when [endIndex] is
    past it) and the other elements keep their order. *)
Theorem reorder_moves_one {A : Type} (l : list A) (s e : nat) :
  (s < List.length l)%nat ->
  exists x l',
    nth_error l s = Some x /\
    reorder l s e = map Some l' /\
    Permutation l l' /\
    List.length l' = List.length l /\
    nth_error l' (Nat.min e (List.length l - 1)) = Some x /\
    removeAt (Nat.min e (List.length l - 1)) l' = removeAt s l.
Proof.
  intro Hs.
  destruct (nth_error l s) as [x|] eqn:Hx;
    [| apply nth_error_None in Hx; lia].
  exists x, (insertAt e x (removeAt s l)).
  split; [reflexivity|]. split; [now apply reorder_inside|].
  split; [now apply insertAt_removeAt_perm|].
  pose proof (removeAt_length l s Hs) as Hlen.
  split; [rewrite insertAt_length, Hlen; lia|].
  rewrite <- Hlen. split; [apply insertAt_nth | apply removeAt_insertAt].
Qed.

(** X9.  Dragging an item from [s] to [e] and then back from [e] to
    [s] restores the list, for indices inside the list. *)
Theorem reorder_round_trip {A : Type} (l : list A) (s e : nat) :
  (s < List.length l)%nat -> (e < List.length l)%nat ->
  exists l', reorder l s e = map Some l' /\ reorder l' e s = map Some l.
Proof.
  intros Hs He.
  destruct (nth_error l s) as [x|] eqn:Hx;
    [| apply nth_error_None in Hx; lia].
  exists (insertAt e x (removeAt s l)).
  split; [now apply reorder_inside|].
  pose proof (removeAt_length l s Hs) as Hlen.
  assert (Hmin : Nat.min e (List.length (removeAt s l)) = e) by lia.
  assert (Hn : nth_error (insertAt e x (removeAt s l)) e = Some x).
  { rewrite <- Hmin at 2. apply insertAt_nth. }
  rewrite (reorder_inside _ e s x Hn). f_equal.
  rewrite <- Hmin at 1. rewrite removeAt_insertAt.
  now apply insertAt_removeAt.
Qed.

(** X10.  With a start index past the end nothing is removed and
    [reorder] inserts [undefined]: the result is the list with one
    extra, empty slot at [endIndex]. *)
Theorem reorder_start_past_end {A : Type} (l : list A) (s e : nat) :
  (List.length l <= s)%nat ->
  reorder l s e = insertAt e None (map Some l) /\
  List.length (reorder l s e) = S (List.length l) /\
  In None (reorder l s e).
Proof.
  intro Hs.
  assert (E : reorder l s e = insertAt e None (map Some l)).
  { unfold reorder, splice. cbn [fst app].
    assert (H1 : skipn s (map Some l) = [])
      by (apply skipn_all2; rewrite length_map; lia).
    assert (H2 : firstn s (map Some l) = map Some l)
      by (apply firstn_all2; rewrite length_map; lia).
    assert (H3 : skipn (s + 1) (map Some l) = [])
      by (apply skipn_all2; rewrite length_map; lia).
    rewrite H1, H2, H3. cbn [firstn].
    rewrite app_nil_r, Nat.add_0_r. reflexivity. }
  rewrite E. split; [reflexivity|].
  split; [rewrite insertAt_length, length_map; reflexivity|].
  unfold insertAt. apply in_or_app. right. left. reflexivity.
Qed.

(** X11.  [onDragEnd] calls [onReorder] only for a drop inside the
    list at a different position; for a source position inside the
    list it then hands over a permutation of the plates, so a list of
    one to ten plates with unique ids stays one. *)
Theorem onDragEnd_keeps_plate_set (plates : list Plate) (r : DropResult) (d : nat) :
  destination r = Some d -> d <> source r ->
  (source r < List.length plates)%nat ->
  onDragEnd plates None = None /\
  onDragEnd plates (Some (mkDrop None (source r))) = None /\
  onDragEnd plates (Some (mkDrop (Some (source r)) (source r))) = None /\
  exists next,
    onDragEnd plates (Some r) = Some (map Some next) /\
    Permutation plates next /\
    (plateCountOk plates -> plateCountOk next) /\
    (uniqueIds plates -> uniqueIds next).
Proof.
  intros Hd Hne Hs. split; [reflexivity|]. split; [reflexivity|]. split.
  - unfold onDragEnd. cbn [destination source]. now rewrite Nat.eqb_refl.
  - destruct (nth_error plates (source r)) as [x|] eqn:Hx;
      [| apply nth_error_None in Hx; lia].
    exists (insertAt d x (removeAt (source r) plates)).
    pose proof (insertAt_removeAt_perm plates (source r) d x Hx) as Hperm.
    split; [| split; [exact Hperm | split]].
    + unfold onDragEnd. rewrite Hd.
      apply Nat.eqb_neq in Hne. rewrite Hne.
      f_equal. now apply reorder_inside.
    + unfold plateCountOk. now rewrite <- (Permutation_length Hperm).
    + unfold uniqueIds. intro Hu.
      eapply Permutation_NoDup; [| exact Hu].
      now apply Permutation_map.
Qed.

(** ** Editing plates and the motif *)

Lemma map_fixed {A : Type} (f : A -> A) (l : list A) :
  (forall x, In x l -> f x = x) -> map f l = l.
Proof.
  intro H. rewrite <- (map_id l) at 2. apply map_ext_in. exact H.
Qed.

Lemma spread_twice (p : Plate) (next : PlatePatch) :
  spread (spread p next) next = spread p next.
Proof.
  destruct next as [[i|] [w|] [h|] [m|]]; reflexivity.
Qed.

Lemma spread_id (p : Plate) (next : PlatePatch) (id0 : string) :
  id p = id0 ->
  patchId next = None \/ patchId next = Some id0 ->
  id (spread p next) = id p.
Proof.
  intros Hp [H | H]; unfold spread; cbn [id]; rewrite H; congruence.
Qed.

(** X12.  [updatePlate] with a patch that carries no id, or the id it
    is applied to (as [PlateItem] passes it), keeps the ids in place, so
    the list keeps its length and its unique ids; and for an id that no
    plate has, it returns the list unchanged. *)
Theorem updatePlate_keeps_plate_set (id0 : string) (next : PlatePatch)
    (prev : list Plate) :
  patchId next = None \/ patchId next = Some id0 ->
  map id (updatePlate id0 next prev) = map id prev /\
  List.length (updatePlate id0 next prev) = List.length prev /\
  (plateCountOk prev -> plateCountOk (updatePlate id0 next prev)) /\
  (uniqueIds prev -> uniqueIds (updatePlate id0 next prev)) /\
  (~ In id0 (map id prev) -> updatePlate id0 next prev = prev).
Proof.
  intro Hid.
  assert (Hids : map id (updatePlate id0 next prev) = map id prev).
  { unfold updatePlate. rewrite map_map. apply map_ext. intro p.
    destruct (String.eqb (id p) id0) eqn:E; [|reflexivity].
    apply String.eqb_eq in E. now apply (spread_id p next id0). }
  split; [exact Hids|]. split; [unfold updatePlate; apply length_map|].
  split; [unfold plateCountOk, updatePlate; now rewrite length_map|].
  split; [unfold uniqueIds; now rewrite Hids|].
  intro Hnot. unfold updatePlate. apply map_fixed. intros p Hp.
  destruct (String.eqb (id p) id0) eqn:E; [|reflexivity].
  apply String.eqb_eq in E. exfalso. apply Hnot. rewrite <- E.
  now apply in_map.
Qed.

(** X13.  With unique ids [updatePlate] changes the one plate that has
    the id and no other: the plate at its position becomes
    [{ ...p, ...next }], every other position is untouched. *)
Theorem updatePlate_only_target (id0 : string) (next : PlatePatch)
    (prev : list Plate) (k : nat) (p : Plate) :
  uniqueIds prev -> nth_error prev k = Some p -> id p = id0 ->
  updatePlate id0 next prev
  = (firstn k prev ++ spread p next :: skipn (S k) prev)%list.
Proof.
  intros Hu Hk Hp. unfold uniqueIds in Hu.
  rewrite (split_at_nth prev k p Hk) in Hu.
  rewrite map_app in Hu. cbn [map] in Hu.
  apply NoDup_remove_2 in Hu. rewrite <- map_app in Hu.
  assert (Hother : forall x, In x (firstn k prev ++ skipn (S k) prev) ->
                             String.eqb (id x) id0 = false).
  { intros x Hx. apply String.eqb_neq. intro E. apply Hu.
    rewrite Hp, <- E. now apply in_map. }
  unfold updatePlate.
  rewrite (split_at_nth prev k p Hk) at 1.
  rewrite map_app. cbn [map].
  apply String.eqb_eq in Hp. rewrite Hp. f_equal; [| f_equal].
  - apply map_fixed. intros x Hx. rewrite Hother; [reflexivity|].
    apply in_or_app. now left.
  - apply map_fixed. intros x Hx. rewrite Hother; [reflexivity|].
    apply in_or_app. now right.
Qed.

(** X14.  Applying the same update twice is the same as applying it
    once. *)
Theorem updatePlate_idempotent (id0 : string) (next : PlatePatch)
    (prev : list Plate) :
  updatePlate id0 next (updatePlate id0 next prev) = updatePlate id0 next prev.
Proof.
  unfold updatePlate. rewrite map_map. apply map_ext. intro p.
  destruct (String.eqb (id p) id0) eqn:E.
  - destruct (String.eqb (id (spread p next)) id0); [apply spread_twice | reflexivity].
  - rewrite E. reflexivity.
Qed.

Section Motif.

Variable DEFAULT_MOTIF_URL : string.

(** After [setMotifForAll(url)] the current motif is [url], unless
    [url] is the empty string or there is no plate, in which case it is
    the default motif. *)
Lemma currentMotif_after_set (url : string) (prev : list Plate) :
  currentMotif DEFAULT_MOTIF_URL (setMotifForAll url prev)
  = if String.eqb url "" then DEFAULT_MOTIF_URL
    else match prev with [] => DEFAULT_MOTIF_URL | _ :: _ => url end.
Proof.
  destruct prev as [| p rest]; cbn [setMotifForAll map currentMotif motifUrl].
  - destruct (String.eqb url ""); reflexivity.
  - reflexivity.
Qed.

Lemma ensure_one_twice (m : string) :
  (let m' := if motifOk m then m else DEFAULT_MOTIF_URL in
   if motifOk m' then m' else DEFAULT_MOTIF_URL)
  = if motifOk m then m else DEFAULT_MOTIF_URL.
Proof.
  cbv zeta. destruct (motifOk m) eqn:E.
  - now rewrite E.
  - destruct (motifOk DEFAULT_MOTIF_URL); reflexivity.
Qed.

(** X16.  [ensureMotif] leaves every plate with a motif that starts
    with "http" or "data:" or is the default motif, keeps the ids,
    widths and heights of the plates in place, and running it again
    changes nothing. *)
Theorem ensureMotif_normalises (lst : list Plate) :
  Forall (fun p => motifOk (motifUrl p) = true \/
                   motifUrl p = DEFAULT_MOTIF_URL)
         (ensureMotif DEFAULT_MOTIF_URL lst) /\
  ensureMotif DEFAULT_MOTIF_URL (ensureMotif DEFAULT_MOTIF_URL lst)
  = ensureMotif DEFAULT_MOTIF_URL lst /\
  map id (ensureMotif DEFAULT_MOTIF_URL lst) = map id lst /\
  map widthCm (ensureMotif DEFAULT_MOTIF_URL lst) = map widthCm lst /\
  map heightCm (ensureMotif DEFAULT_MOTIF_URL lst) = map heightCm lst /\
  (forall k p, nth_error lst k = Some p ->
     nth_error (ensureMotif DEFAULT_MOTIF_URL lst) k
     = Some {| id := id p; widthCm := widthCm p; heightCm := heightCm p;
               motifUrl := if motifOk (motifUrl p) then motifUrl p
                           else DEFAULT_MOTIF_URL |}).
Proof.
  unfold ensureMotif. repeat split.
  - apply Forall_map. apply Forall_forall. intros p _. cbn [motifUrl].
    destruct (motifOk (motifUrl p)) eqn:E; [left; exact E | right; reflexivity].
  - rewrite map_map. apply map_ext. intro p. cbn [id widthCm heightCm motifUrl].
    f_equal. apply ensure_one_twice.
  - rewrite map_map. reflexivity.
  - rewrite map_map. reflexivity.
  - rewrite map_map. reflexivity.
  - intros k p H. rewrite nth_error_map, H. reflexivity.
Qed.

(** A motif set for all plates survives [ensureMotif] exactly when it
    starts with "http" or "data:"; any other string is replaced by the
    default motif on every plate. *)
Lemma ensureMotif_after_set (url : string) (prev : list Plate) :
  ensureMotif DEFAULT_MOTIF_URL (setMotifForAll url prev)
  = setMotifForAll (if motifOk url then url else DEFAULT_MOTIF_URL) prev.
Proof.
  unfold ensureMotif, setMotifForAll. rewrite map_map. reflexivity.
Qed.

End Motif.

(** ** Units and validation *)





(** ** The total width card *)

Lemma num_eqv_trans (a b c : num) : num_eqv a b -> num_eqv b c -> num_eqv a c.
Proof.
  destruct a, b, c; cbn; try tauto. intros H1 H2. now rewrite H1.
Qed.

Lemma add_eqv_r (w a b : num) : num_eqv a b -> num_eqv (add w a) (add w b).
Proof.
  destruct w, a, b; cbn; try tauto. intro H. now rewrite H.
Qed.


Lemma coerced_width_eqv (v : value) :
  Number v <> NaN -> num_eqv (Number v) (or_else (Number v) (Fin 0)).
Proof.
  intro H. unfold or_else. destruct (Number v) as [| | |q]; cbn;
    try tauto; try contradiction.
  destruct (Qeq_bool q 0) eqn:E; cbn; [now apply Qeq_bool_iff | reflexivity].
Qed.

Lemma totals_eqv_from (ps : list Plate) :
  Forall (fun p => Number (widthCm p) <> NaN) ps ->
  forall a b, num_eqv a b ->
    num_eqv (fold_left (fun s p => add s (Number (widthCm p))) ps a)
            (offsetCm b ps).
Proof.
  unfold offsetCm. induction 1 as [| p rest Hp _ IH]; intros a b Hab; [exact Hab|].
  cbn [fold_left]. apply IH.
  eapply num_eqv_trans; [apply add_eqv; exact Hab|].
  apply add_eqv_r. unfold plateWidthCm. now apply coerced_width_eqv.
Qed.

(** X21.  When no width is [undefined] or NaN, the total of [App] and
    the summed width of the preview are the same number, and unless
    that sum is 0 it is also the total width the preview scales by. *)
Theorem totals_agree (plates : list Plate) :
  Forall (fun p => Number (widthCm p) <> NaN) plates ->
  num_eqv (appTotalWidthCm plates) (sumWidthCm plates) /\
  (truthy (sumWidthCm plates) = true ->
   num_eqv (appTotalWidthCm plates) (totalWidthCm plates)).
Proof.
  intro H.
  assert (E : num_eqv (appTotalWidthCm plates) (sumWidthCm plates)).
  { unfold appTotalWidthCm. apply (totals_eqv_from plates H). apply num_eqv_refl. }
  split; [exact E|]. intro Ht. unfold totalWidthCm, or_else. now rewrite Ht.
Qed.


(** ** The motif input *)

Lemma trimStart_not_white (s : string) : startsWhite (trimStart s) = false.
Proof.
  induction s as [| c r IH]; [reflexivity|].
  cbn [trimStart]. destruct (isWhite c) eqn:E; [exact IH|].
  cbn [startsWhite]. exact E.
Qed.

Lemma trimEnd_keeps_start (s : string) :
  startsWhite s = false -> startsWhite (trimEnd s) = false.
Proof.
  destruct s as [| c r]; [reflexivity|]. cbn [startsWhite trimEnd]. intro E.
  destruct (trimEnd r); [rewrite E|]; cbn [startsWhite]; exact E.
Qed.

Lemma trimEnd_not_white (s : string) : endsWhite (trimEnd s) = false.
Proof.
  induction s as [| c r IH]; [reflexivity|].
  cbn [trimEnd]. destruct (trimEnd r) as [| c' r'] eqn:Er.
  - destruct (isWhite c) eqn:E; [reflexivity|]. cbn [endsWhite]. exact E.
  - cbn [endsWhite]. cbn [endsWhite] in IH. exact IH.
Qed.

Lemma trimStart_fixed (s : string) : startsWhite s = false -> trimStart s = s.
Proof.
  destruct s as [| c r]; [reflexivity|]. cbn [startsWhite trimStart].
  intro E. now rewrite E.
Qed.

Lemma trimEnd_fixed (s : string) : endsWhite s = false -> trimEnd s = s.
Proof.
  induction s as [| c r IH]; [reflexivity|].
  destruct r as [| c' r'].
  - cbn [endsWhite trimEnd]. intro E. now rewrite E.
  - intro E. change (endsWhite (String c' r') = false) in E.
    specialize (IH E). cbn [trimEnd] in *. rewrite IH. reflexivity.
Qed.

Lemma trim_trimmed (s : string) :
  startsWhite (trim s) = false /\ endsWhite (trim s) = false /\
  trim (trim s) = trim s.
Proof.
  assert (H1 : startsWhite (trim s) = false)
    by (apply trimEnd_keeps_start, trimStart_not_white).
  assert (H2 : endsWhite (trim s) = false) by apply trimEnd_not_white.
  split; [exact H1|]. split; [exact H2|].
  unfold trim at 1. now rewrite (trimStart_fixed _ H1), (trimEnd_fixed _ H2).
Qed.

(** X23.  [applyUrl] either finds only white space, hands nothing over
    and keeps the text field, or hands over the trimmed text, which is
    not empty and has no white space at either end, and clears the text
    field.  No other check stops a string. *)
Theorem applyUrl_hands_over_trimmed (urlInput : string) :
  (trim urlInput = ""%string /\ applyUrl urlInput = (None, urlInput)) \/
  (trim urlInput <> ""%string /\
   applyUrl urlInput = (Some (trim urlInput), ""%string) /\
   startsWhite (trim urlInput) = false /\
   endsWhite (trim urlInput) = false /\
   applyUrl (trim urlInput) = (Some (trim urlInput), ""%string)).
Proof.
  unfold applyUrl.
  destruct (trim_trimmed urlInput) as [H1 [H2 H3]]. rewrite H3.
  destruct (String.eqb (trim urlInput) "") eqn:E.
  - left. apply String.eqb_eq in E. split; [exact E | reflexivity].
  - right. apply String.eqb_neq in E. repeat split; assumption.
Qed.

Lemma prefix_trans (a b c : string) :
  String.prefix a b = true -> String.prefix b c = true ->
  String.prefix a c = true.
Proof.
  revert b c. induction a as [| x a IH]; intros b c Hab Hbc;
    [destruct c; reflexivity|].
  destruct b as [| y b]; [discriminate|].
  destruct c as [| z c]; [discriminate|].
  cbn [String.prefix] in *.
  destruct (ascii_dec x y) as [-> |]; [|discriminate].
  destruct (ascii_dec y z) as [-> |]; [|discriminate].
  exact (IH b c Hab Hbc).
Qed.

Section MotifInput.

Variable DEFAULT_MOTIF_URL : string.

(** X24.  A text that [isLikelyUrl] accepts is handed over by
    [applyUrl]; once [App] has set it for all plates it is the current
    motif of a list that has plates, and [ensureMotif] keeps it. *)
Theorem likely_url_is_kept (urlInput : string) (prev : list Plate) :
  isLikelyUrl urlInput = true ->
  exists raw,
    applyUrl urlInput = (Some raw, ""%string) /\
    motifOk raw = true /\
    ensureMotif DEFAULT_MOTIF_URL (setMotifForAll raw prev)
      = setMotifForAll raw prev /\
    (prev <> [] ->
     currentMotif DEFAULT_MOTIF_URL (setMotifForAll raw prev) = raw).
Proof.
  unfold isLikelyUrl. cbv zeta. intro H.
  assert (Hok : motifOk (trim urlInput) = true).
  { unfold motifOk. apply orb_true_iff.
    apply orb_true_iff in H. destruct H as [H | H].
    - left. apply orb_true_iff in H. destruct H as [H | H].
      + now apply (prefix_trans "http" "http://").
      + now apply (prefix_trans "http" "https://").
    - right. exact H. }
  assert (Hne : String.eqb (trim urlInput) "" = false).
  { destruct (trim urlInput); [discriminate Hok | reflexivity]. }
  exists (trim urlInput). split; [unfold applyUrl; now rewrite Hne|].
  split; [exact Hok|]. split.
  - rewrite ensureMotif_after_set. now rewrite Hok.
  - intro Hp. rewrite currentMotif_after_set, Hne.
    destruct prev; [contradiction | reflexivity].
Qed.

End MotifInput.

(** ** Loading the plates *)

Section Loading.

Variable DEFAULT_PLATE NEW_PLATE : Plate.
Variable DEFAULT_MOTIF_URL : string.

Lemma ensureMotif_valid (lst : list Plate) :
  Forall (fun p => motifOk (motifUrl p) = true \/
                   motifUrl p = DEFAULT_MOTIF_URL)
         (ensureMotif DEFAULT_MOTIF_URL lst).
Proof.
  unfold ensureMotif. apply Forall_map. apply Forall_forall. intros p _.
  cbn [motifUrl].
  destruct (motifOk (motifUrl p)) eqn:E; [left; exact E | right; reflexivity].
Qed.

(** X25.  Whatever the storage holds, the initial list has at least
    one plate and every motif in it starts with "http" or "data:" or
    is the default motif. *)
Theorem initialPlates_never_empty (saved : Stored SavedJson)
    (single : Stored LegacyJson) (uuid1 uuid2 : string) :
  initialPlates DEFAULT_PLATE NEW_PLATE DEFAULT_MOTIF_URL saved single uuid1 uuid2
    <> [] /\
  Forall (fun p => motifOk (motifUrl p) = true \/
                   motifUrl p = DEFAULT_MOTIF_URL)
    (initialPlates DEFAULT_PLATE NEW_PLATE DEFAULT_MOTIF_URL saved single
       uuid1 uuid2).
Proof.
  unfold initialPlates, defaultPlates.
  destruct saved as [| | [| [| p l]]]; destruct single as [| | q];
    (split; [discriminate | apply ensureMotif_valid]).
Qed.

(** X26.  A corrupt primary record gives the two default plates even
    when a legacy record exists.  When the primary record is absent and
    a legacy record is migrated, the result is one plate with the fresh
    id whose motif is the default motif whatever motif the record held;
    its width is the record's width when [Number] of that is finite and
    the default plate's width otherwise, and likewise its height. *)
Theorem legacy_migration (single : Stored LegacyJson) (p : LegacyJson)
    (uuid1 uuid2 : string) :
  initialPlates DEFAULT_PLATE NEW_PLATE DEFAULT_MOTIF_URL Corrupt single
    uuid1 uuid2
  = defaultPlates DEFAULT_PLATE NEW_PLATE DEFAULT_MOTIF_URL uuid1 uuid2 /\
  exists q,
    initialPlates DEFAULT_PLATE NEW_PLATE DEFAULT_MOTIF_URL Absent (Parsed p)
      uuid1 uuid2 = [q] /\
    id q = uuid1 /\ motifUrl q = DEFAULT_MOTIF_URL /\
    (forall w, Number (legacyWidthCm p) = Fin w -> widthCm q = VNum (Fin w)) /\
    (is_finite (Number (legacyWidthCm p)) = false ->
     widthCm q = widthCm DEFAULT_PLATE) /\
    (forall h, Number (legacyHeightCm p) = Fin h -> heightCm q = VNum (Fin h)) /\
    (is_finite (Number (legacyHeightCm p)) = false ->
     heightCm q = heightCm DEFAULT_PLATE).
Proof.
  split; [reflexivity|].
  unfold initialPlates, ensureMotif, withId, legacyPlate.
  cbn [map id widthCm heightCm motifUrl].
  eexists. split; [reflexivity|]. cbn [id widthCm heightCm motifUrl].
  split; [reflexivity|]. split.
  - destruct (motifOk DEFAULT_MOTIF_URL); reflexivity.
  - repeat split.
    + intros w E. rewrite E. reflexivity.
    + intro E. rewrite E. reflexivity.
    + intros h E. rewrite E. reflexivity.
    + intro E. rewrite E. reflexivity.
Qed.

(** X27.  A stored array is taken with all its plates: loading does
    not cut it to ten.  From a stored array of more than ten plates the
    list starts outside the range 1..10, and [addPlate] leaves it as it
    is. *)
Theorem stored_array_not_capped (lst : list Plate) (single : Stored LegacyJson)
    (uuid1 uuid2 uuid : string) :
  (10 < List.length lst)%nat ->
  let plates := initialPlates DEFAULT_PLATE NEW_PLATE DEFAULT_MOTIF_URL
                  (Parsed (SavedArray lst)) single uuid1 uuid2 in
  List.length plates = List.length lst /\
  map id plates = map id lst /\
  ~ plateCountOk plates /\
  addPlate NEW_PLATE DEFAULT_MOTIF_URL uuid plates = plates.
Proof.
  intros Hlen plates.
  assert (E : plates = ensureMotif DEFAULT_MOTIF_URL lst).
  { subst plates. unfold initialPlates.
    destruct lst as [| p l]; [cbn in Hlen; lia | reflexivity]. }
  assert (Hl : List.length plates = List.length lst).
  { rewrite E. unfold ensureMotif. apply length_map. }
  split; [exact Hl|]. split.
  - rewrite E. unfold ensureMotif. rewrite map_map. reflexivity.
  - split.
    + unfold plateCountOk. lia.
    + unfold addPlate.
      replace (10 <=? List.length plates)%nat with true; [reflexivity|].
      symmetry. apply Nat.leb_le. lia.
Qed.

End Loading.

(** ** Accepted heights and reachable scales *)

Section HeightLimit.

Variable lo hmax : Q.
Hypothesis hmax_pos : 0 < hmax.


End HeightLimit.

(** ** Resize events and animation frames *)

Lemma cancelFrame_own (h : nat) : cancelFrame (Some h) [h] = [].
Proof. cbn. now rewrite Nat.eqb_refl. Qed.

Lemma effectStep_invariant (frames : nat) (st : EffectState) (ev : EffectEvent) :
  effectInvariant frames st ->
  effectInvariant
    (match ev with EvFrame => S frames | _ => frames end) (effectStep st ev).
Proof.
  intros [Hp Hc]. destruct ev; unfold effectStep.
  - destruct (listening st) eqn:Hl.
    2:{ split; [| exact Hc].
        destruct Hp as [E | [h [_ [_ F]]]]; [left; exact E | discriminate F]. }
    split; [| exact Hc]. right. exists (nextHandle st).
    cbn [pendingFrames rafId listening].
    destruct Hp as [-> | [h [-> [-> _]]]].
    + destruct (rafId st); repeat split.
    + rewrite cancelFrame_own. repeat split.
  - split; [left; reflexivity|]. cbn [computeRuns].
    destruct Hp as [-> | [h [-> _]]]; cbn [List.length]; lia.
  - split; [| exact Hc]. left. cbn [pendingFrames].
    destruct Hp as [-> | [h [-> [-> _]]]].
    + destruct (rafId st); reflexivity.
    + apply cancelFrame_own.
Qed.

Lemma runEffect_invariant (events : list EffectEvent) :
  forall frames st, effectInvariant frames st ->
    effectInvariant (frames + countFrames events) (fold_left effectStep events st).
Proof.
  unfold countFrames.
  induction events as [| ev rest IH]; intros frames st H.
  - cbn. now rewrite Nat.add_0_r.
  - cbn [fold_left filter].
    pose proof (effectStep_invariant frames st ev H) as Hs.
    destruct ev; cbn [List.length].
    + exact (IH _ _ Hs).
    + rewrite Nat.add_succ_r. exact (IH _ _ Hs).
    + exact (IH _ _ Hs).
Qed.

(** X30.  However resize events, animation frames and the cleanup
    follow one another after the effect has mounted, at most one frame
    callback is pending at any time, so a burst of resize events leads
    to one run of [compute] in the next frame; [compute] has run at
    most once per frame plus the run at mount; and once the cleanup has
    run nothing is pending any more. *)
Theorem resize_is_coalesced (events : list EffectEvent) :
  (List.length (pendingFrames (runEffect events)) <= 1)%nat /\
  (computeRuns (runEffect events) <= 1 + countFrames events)%nat /\
  (listening (runEffect events) = false -> pendingFrames (runEffect events) = []).
Proof.
  assert (H0 : effectInvariant 0 mountEffect).
  { split; [right; exists 0%nat; repeat split | cbn; lia]. }
  destruct (runEffect_invariant events 0 mountEffect H0) as [Hp Hc].
  fold (runEffect events) in Hp, Hc. cbn [Nat.add] in Hc.
  split; [| split; [exact Hc|]].
  - destruct Hp as [-> | [h [-> _]]]; cbn; lia.
  - intro Hl. destruct Hp as [E | [h [_ [_ Hl']]]]; [exact E | congruence].
Qed.

(** ** The further properties at concrete inputs *)

Lemma compute_monotone_witness :
  350 <= 400 /\
  le (scaleX (compute (Fin 220) (Some exampleElement) (Fin 400) initialScale))
     (scaleX (compute (Fin 220) (Some exampleElement) (Fin 350) initialScale))
  = true.
Proof.
  assert (H : 350 <= 400) by (apply Qle_bool_imp_le; reflexivity).
  split; [exact H|].
  exact (proj2 (compute_monotone 220 eq_refl exampleElement 350 400
                  initialScale initialScale H)).
Defined.


Lemma render_after_compute_returns_witness :
  forallb finiteWidth examplePlates = true /\
  (clientWidth exampleElement <= 2 ^ 32 - 1)%Z /\
  exists boxes,
    render (Some exampleElement) exampleScale examplePlates = Some boxes /\
    List.length boxes = List.length examplePlates.
Proof.
  assert (H : forallb finiteWidth examplePlates = true) by reflexivity.
  assert (Hw : (clientWidth exampleElement <= 2 ^ 32 - 1)%Z)
    by (vm_compute; discriminate).
  split; [exact H|]. split; [exact Hw|].
  exact (proj2 (render_after_compute_returns 220 eq_refl exampleElement
                  (Some exampleElement) examplePlates initialScale H Hw)).
Defined.



Lemma reorder_moves_one_witness :
  (0 < List.length examplePlates)%nat /\
  exists x l',
    nth_error examplePlates 0 = Some x /\
    reorder examplePlates 0 1 = map Some l' /\
    Permutation examplePlates l'.
Proof.
  assert (H : (0 < List.length examplePlates)%nat) by (simpl; lia).
  split; [exact H|].
  destruct (reorder_moves_one examplePlates 0 1 H) as [x [l' [E1 [E2 [E3 _]]]]].
  exists x, l'. repeat split; assumption.
Defined.

Lemma reorder_round_trip_witness :
  (0 < List.length examplePlates)%nat /\ (1 < List.length examplePlates)%nat /\
  exists l', reorder examplePlates 0 1 = map Some l' /\
             reorder l' 1 0 = map Some examplePlates.
Proof.
  assert (H0 : (0 < List.length examplePlates)%nat) by (simpl; lia).
  assert (H1 : (1 < List.length examplePlates)%nat) by (simpl; lia).
  split; [exact H0|]. split; [exact H1|].
  exact (reorder_round_trip examplePlates 0 1 H0 H1).
Defined.

Lemma reorder_start_past_end_witness :
  (List.length examplePlates <= 5)%nat /\
  reorder examplePlates 5 1 = insertAt 1 None (map Some examplePlates) /\
  List.length (reorder examplePlates 5 1) = 3%nat.
Proof.
  assert (H : (List.length examplePlates <= 5)%nat) by (simpl; lia).
  split; [exact H|].
  destruct (reorder_start_past_end examplePlates 5 1 H) as [E [L _]].
  split; [exact E | exact L].
Defined.

Lemma onDragEnd_keeps_plate_set_witness :
  destination exampleDrop = Some 1%nat /\ 1%nat <> source exampleDrop /\
  (source exampleDrop < List.length examplePlates)%nat /\
  exists next,
    onDragEnd examplePlates (Some exampleDrop) = Some (map Some next) /\
    Permutation examplePlates next.
Proof.
  assert (H1 : destination exampleDrop = Some 1%nat) by reflexivity.
  assert (H2 : 1%nat <> source exampleDrop) by discriminate.
  assert (H3 : (source exampleDrop < List.length examplePlates)%nat)
    by (simpl; lia).
  repeat (split; [assumption|]).
  destruct (onDragEnd_keeps_plate_set examplePlates exampleDrop 1 H1 H2 H3)
    as [_ [_ [_ [next [E [P _]]]]]].
  exists next. split; assumption.
Defined.

Lemma updatePlate_keeps_plate_set_witness :
  (patchId (patchOf widerPlateA) = None \/
   patchId (patchOf widerPlateA) = Some "a"%string) /\
  map id (updatePlate "a" (patchOf widerPlateA) examplePlates)
  = map id examplePlates.
Proof.
  assert (H : patchId (patchOf widerPlateA) = None \/
              patchId (patchOf widerPlateA) = Some "a"%string)
    by (right; reflexivity).
  split; [exact H|].
  exact (proj1 (updatePlate_keeps_plate_set "a" (patchOf widerPlateA)
                  examplePlates H)).
Defined.

Lemma updatePlate_only_target_witness :
  uniqueIds examplePlates /\ nth_error examplePlates 0 = Some plateA /\
  id plateA = "a"%string /\
  updatePlate "a" (patchOf widerPlateA) examplePlates
  = (firstn 0 examplePlates
     ++ spread plateA (patchOf widerPlateA) :: skipn 1 examplePlates)%list.
Proof.
  assert (Hu : uniqueIds examplePlates).
  { unfold uniqueIds. simpl. constructor.
    - intros [H | []]. discriminate H.
    - constructor; [intros [] | constructor]. }
  split; [exact Hu|]. split; [reflexivity|]. split; [reflexivity|].
  exact (updatePlate_only_target "a" (patchOf widerPlateA) examplePlates
           0%nat plateA Hu eq_refl eq_refl).
Defined.

Lemma totals_agree_witness :
  Forall (fun p => Number (widthCm p) <> NaN) examplePlates /\
  num_eqv (appTotalWidthCm examplePlates) (sumWidthCm examplePlates).
Proof.
  assert (H : Forall (fun p => Number (widthCm p) <> NaN) examplePlates).
  { repeat constructor; discriminate. }
  split; [exact H|].
  exact (proj1 (totals_agree examplePlates H)).
Defined.

Lemma likely_url_is_kept_witness :
  isLikelyUrl exampleAddress = true /\
  exists raw,
    applyUrl exampleAddress = (Some raw, ""%string) /\
    motifOk raw = true /\
    ensureMotif "m" (setMotifForAll raw examplePlates)
      = setMotifForAll raw examplePlates.
Proof.
  assert (H : isLikelyUrl exampleAddress = true) by reflexivity.
  split; [exact H|].
  destruct (likely_url_is_kept "m" exampleAddress examplePlates H)
    as [raw [E1 [E2 [E3 _]]]].
  exists raw. repeat split; assumption.
Defined.

Lemma stored_array_not_capped_witness :
  (10 < List.length (repeat plateA 11))%nat /\
  List.length (initialPlates plateA plateB "m"
                 (Parsed (SavedArray (repeat plateA 11))) Absent "x" "y")
  = 11%nat.
Proof.
  assert (H : (10 < List.length (repeat plateA 11))%nat) by (simpl; lia).
  split; [exact H|].
  exact (proj1 (stored_array_not_capped plateA plateB "m" (repeat plateA 11)
                  Absent "x" "y" "z" H)).
Defined.


(** * Further properties of the preview as the engine computes it *)

(** ** Validation of an edited width, in binary64 *)

Lemma toFixed2_64_not_NaN (x : num) : x <> NaN -> B64.toFixed2 x <> NaN.
Proof.
  destruct x as [| | |q]; intro H; try contradiction; try discriminate.
  unfold B64.toFixed2.
  destruct (Qle_bool _ _); [discriminate|].
  destruct (Qltb q 0); apply round64_not_NaN.
Qed.

Lemma unitToCm64_not_NaN (val : num) (unit : string) :
  is_finite val = true -> B64.unitToCm val unit <> NaN.
Proof.
  destruct val as [| | |q]; try discriminate. intros _. unfold B64.unitToCm.
  destruct (String.eqb unit "in"); apply toFixed2_64_not_NaN.
  - unfold B64.mul, B64.CM_PER_IN.
    destruct (B64.round64 (254 # 100)) as [| | |c] eqn:E;
      try (vm_compute in E; discriminate E).
    cbn [JS.mul B64.rnd]. apply round64_not_NaN.
  - discriminate.
Qed.

Section Commit.

Variable lo hi : Q.

(** X17.  [commitWidth] hands a plate to [onCommit] exactly when the
    parsed input is finite and its value in cm, as [unitToCm] computes
    it in doubles, is a finite number within [WIDTH_MIN .. WIDTH_MAX];
    the plate it hands over is the edited one with only the width
    replaced, by that value. *)
Theorem commitWidth_validates (plate : Plate) (unit : string) (nUnit : num)
    (next : Plate) :
  B64.commitWidth (Fin lo) (Fin hi) plate unit nUnit = Some next <->
  exists w,
    is_finite nUnit = true /\ B64.unitToCm nUnit unit = Fin w /\
    lo <= w /\ w <= hi /\
    next = {| id := id plate; widthCm := VNum (Fin w);
              heightCm := heightCm plate; motifUrl := motifUrl plate |}.
Proof.
  unfold B64.commitWidth. split.
  - destruct (is_finite nUnit) eqn:Hf; cbn [negb]; [|discriminate].
    pose proof (unitToCm64_not_NaN nUnit unit Hf) as Hn.
    destruct (B64.unitToCm nUnit unit) as [| | |w]; try contradiction;
      try discriminate.
    cbn [gt]. destruct (Qltb w lo) eqn:E1; cbn [orb]; [discriminate|].
    destruct (Qltb hi w) eqn:E2; [discriminate|].
    intro H. injection H as <-. exists w.
    unfold Qltb in E1, E2. apply negb_false_iff in E1, E2.
    apply Qle_bool_iff in E1, E2. repeat split; assumption.
  - intros [w [Hf [Hw [Hlo [Hhi ->]]]]]. rewrite Hf, Hw. cbn [negb gt].
    assert (E1 : Qltb w lo = false).
    { unfold Qltb. apply negb_false_iff. now apply Qle_bool_iff. }
    assert (E2 : Qltb hi w = false).
    { unfold Qltb. apply negb_false_iff. now apply Qle_bool_iff. }
    rewrite E1, E2. reflexivity.
Qed.

End Commit.

Lemma commitWidth_validates_witness :
  B64.unitToCm (Fin (1075 # 100)) "in" = B64.round64 (2730 # 100) /\
  B64.commitWidth (Fin 20) (Fin 300) plateA "in" (Fin (1075 # 100))
  = Some {| id := "a";
            widthCm := VNum (Fin (7684266864200909 # 281474976710656));
            heightCm := VNum (Fin 128); motifUrl := "m" |} /\
  exists w,
    is_finite (Fin (1075 # 100)) = true /\
    B64.unitToCm (Fin (1075 # 100)) "in" = Fin w /\
    20 <= w /\ w <= 300.
Proof.
  assert (H : B64.commitWidth (Fin 20) (Fin 300) plateA "in" (Fin (1075 # 100))
              = Some {| id := "a";
                        widthCm := VNum (Fin (7684266864200909 # 281474976710656));
                        heightCm := VNum (Fin 128); motifUrl := "m" |})
    by (vm_compute; reflexivity).
  destruct (proj1 (commitWidth_validates 20 300 plateA "in" (Fin (1075 # 100)) _) H)
    as [w [H1 [H2 [H3 [H4 _]]]]].
  split; [vm_compute; reflexivity|]. split; [exact H|].
  exists w. repeat split; assumption.
Defined.

(** ** Plate heights fit the container, in binary64 *)

Lemma round64_nonpos (x : Q) :
  x <= 0 ->
  B64.round64 x = NInf \/ exists r, B64.round64 x = Fin r /\ r <= 0.
Proof.
  intro Hx. destruct (Qlt_le_dec x 0) as [Hneg | Hge].
  - assert (Hp : 0 < - x) by lra.
    assert (Ex : x = - - x).
    { destruct x as [n d]. unfold Qopp. cbn. now rewrite Z.opp_involutive. }
    destruct (roundNearest_bound (- x) Hp) as [H0 _].
    replace (B64.round64 x) with (B64.round64 (- - x)) by (now rewrite <- Ex).
    rewrite (round64_neg_unfold (- x) Hp).
    destruct (Qle_bool _ _); [left; reflexivity|].
    right. eexists. split; [reflexivity|]. rewrite Qred_correct. lra.
  - right. exists 0. unfold B64.round64.
    replace (Qeq_bool x 0) with true
      by (symmetry; apply Qeq_bool_iff; lra).
    split; [reflexivity | lra].
Qed.

Lemma roundClamp_below (r : Q) (z : Z) :
  r < inject_Z z + (1 # 2) -> (roundClamp r <= Z.max 1 z)%Z.
Proof.
  intro H. unfold roundClamp.
  assert (Hf : (Qfloor (r + (1 # 2)) < z + 1)%Z).
  { rewrite Zlt_Qlt. eapply Qle_lt_trans; [apply Qfloor_le|].
    rewrite inject_Z_plus. change (inject_Z 1) with 1. lra. }
  lia.
Qed.

Section HeightFit.

Variable hmax : Q.
Hypothesis hmax_lower : 1 <= hmax.
Hypothesis hmax_upper : hmax <= 4294967296.

(** The vertical scale that [compute] stores, times [HEIGHT_MAX], is
    the container height up to 2^-20 px. *)
Lemma compute64_scaleY (e : Element) (T : num) (st : ScaleState) :
  (clientHeight e <= 2 ^ 32)%Z ->
  exists sy,
    scaleY (B64.compute (Fin hmax) (Some e) T st) = Fin sy /\ 0 <= sy /\
    hmax * sy <= inject_Z (Z.max 1 (clientHeight e)) + (1 # 1048576).
Proof.
  intro Hch. unfold B64.compute. cbn [scaleY].
  rewrite Math_max_1_of_Z. unfold of_Z. rewrite div64_Fin_pos by lra.
  pose proof (inject_Z_max1 (clientHeight e)) as Hb1.
  assert (Hb2 : inject_Z (Z.max 1 (clientHeight e)) <= 4294967296).
  { change 4294967296 with (inject_Z 4294967296). rewrite <- Zle_Qle. lia. }
  set (bh := inject_Z (Z.max 1 (clientHeight e))) in *.
  assert (Hq0 : 0 < bh / hmax) by (apply Qlt_shift_div_l; lra).
  assert (Hqb : bh / hmax <= bh).
  { apply Qle_shift_div_r; [lra|].
    assert (bh * 1 <= bh * hmax) by (apply Qmult_le_l; lra). lra. }
  assert (Eq : hmax * (bh / hmax) == bh) by (field; lra).
  destruct (round64_small (bh / hmax)) as [sy [E [Hd [H0 _]]]].
  { rewrite Qabs_pos by lra.
    eapply Qle_trans; [exact Hqb|]. eapply Qle_trans; [exact Hb2|].
    apply Qle_bool_imp_le. vm_compute. reflexivity. }
  exists sy. split; [exact E|]. split; [apply H0; lra|].
  rewrite (Qabs_pos (bh / hmax)) in Hd by lra.
  apply Qabs_Qle_condition in Hd. destruct Hd as [_ Hd].
  assert (Hm : hmax * sy
               <= hmax * (bh / hmax + (bh / hmax * u64 + eta64))).
  { apply Qmult_le_l; lra. }
  assert (Ex : hmax * (bh / hmax + (bh / hmax * u64 + eta64))
               == bh + bh * u64 + hmax * eta64).
  { assert (E1 : hmax * (bh / hmax + (bh / hmax * u64 + eta64))
                 == hmax * (bh / hmax) + hmax * (bh / hmax) * u64
                    + hmax * eta64) by ring.
    rewrite E1, Eq. reflexivity. }
  rewrite Ex in Hm.
  pose proof eta64_small as He. pose proof eta64_pos as He0.
  assert (Hhe : hmax * eta64 <= 4294967296 * eta64).
  { apply Qmult_le_compat_r; lra. }
  unfold u64 in *.
  set (X := hmax * sy) in *. set (Y := hmax * eta64) in *.
  clearbody X Y bh. clear - Hm He Hhe Hb2. lra.
Qed.

(** A plate whose stored height is a number of at most [HEIGHT_MAX]
    gets a box no higher than the container. *)
Lemma box_height_fits64 (e : Element) (el : option Element)
    (plates : list Plate) (st : ScaleState) (k : nat) (p : Plate) (h : Q) :
  (clientHeight e <= 2 ^ 32)%Z ->
  B64.tileRowThrows el
    (B64.compute (Fin hmax) (Some e) (B64.totalWidthCm plates) st)
    (B64.totalWidthCm plates) = false ->
  nth_error plates k = Some p ->
  heightCm p = VNum (Fin h) -> h <= hmax ->
  exists boxes b hz,
    B64.render el (B64.compute (Fin hmax) (Some e) (B64.totalWidthCm plates) st)
      plates = Some boxes /\
    nth_error boxes k = Some b /\
    boxHeight b = of_Z hz /\
    (1 <= hz <= Z.max 1 (clientHeight e))%Z.
Proof.
  intros Hch Hok Hk Hh Hle.
  destruct (compute64_scaleY e (B64.totalWidthCm plates) st Hch)
    as [sy [Esy [Hsy0 Hsyb]]].
  destruct (render64_box el _ plates Hok) as [boxes [E [_ Hnth]]].
  destruct (Hnth k p Hk) as [m [Hb _]].
  assert (Hph : exists h', plateHeightCm p = Fin h' /\ h' <= hmax).
  { unfold plateHeightCm, or_else. rewrite Hh. cbn [Number truthy].
    destruct (Qeq_bool h 0); cbn [negb];
      [exists 0; split; [reflexivity | lra]
      | exists h; split; [reflexivity | exact Hle]]. }
  destruct Hph as [h' [Eh Hle']].
  rewrite Eh, Esy, mul64_Fin in Hb.
  pose proof (inject_Z_max1 (clientHeight e)) as Hb1.
  assert (Hb2 : inject_Z (Z.max 1 (clientHeight e)) <= 4294967296).
  { change 4294967296 with (inject_Z 4294967296). rewrite <- Zle_Qle. lia. }
  assert (Hbox : exists hz,
             Math_max (Fin 1) (Math_round (B64.round64 (h' * sy))) = of_Z hz /\
             (1 <= hz <= Z.max 1 (clientHeight e))%Z).
  { destruct (Qlt_le_dec 0 h') as [Hpos | Hnp].
    - assert (HP0 : 0 <= h' * sy) by (apply Qmult_le_0_compat; lra).
      assert (HPb : h' * sy <= hmax * sy)
        by (apply Qmult_le_compat_r; assumption).
      destruct (round64_small (h' * sy)) as [r [Er [Hd _]]].
      { rewrite Qabs_pos by exact HP0.
        eapply Qle_trans; [exact HPb|]. eapply Qle_trans; [exact Hsyb|].
        apply Qle_trans with (4294967296 + (1 # 1048576)); [lra|].
        apply Qle_bool_imp_le. vm_compute. reflexivity. }
      rewrite Er, max1_round_Fin. exists (roundClamp r).
      split; [reflexivity|]. split; [unfold roundClamp; lia|].
      rewrite <- (Z.max_id 1), <- Z.max_assoc. apply roundClamp_below.
      rewrite (Qabs_pos (h' * sy)) in Hd by exact HP0.
      apply Qabs_Qle_condition in Hd.
      destruct Hd as [_ Hd].
      assert (HPu : h' * sy * u64 <= (4294967296 + (1 # 1048576)) * u64).
      { apply Qmult_le_compat_r; [lra | discriminate]. }
      pose proof eta64_small as He. unfold u64 in *.
      set (P := h' * sy) in *. set (X := hmax * sy) in *.
      set (B := inject_Z (Z.max 1 (Z.max 1 (clientHeight e)))).
      assert (EB : B == inject_Z (Z.max 1 (clientHeight e))).
      { unfold B. rewrite Z.max_assoc, Z.max_id. reflexivity. }
      set (bh := inject_Z (Z.max 1 (clientHeight e))) in *.
      clearbody P X B bh. clear - Hd HPu He HPb Hsyb Hb2 EB. lra.
    - assert (HP : h' * sy <= 0).
      { assert (0 <= (- h') * sy) by (apply Qmult_le_0_compat; lra). lra. }
      exists 1%Z. split; [| lia].
      destruct (round64_nonpos _ HP) as [-> | [r [-> Hr]]]; [reflexivity|].
      rewrite max1_round_Fin, (roundClamp_nonpos r Hr). reflexivity. }
  destruct Hbox as [hz [Ehz Hhz]].
  eexists boxes, _, hz. split; [exact E|]. split; [exact Hb|].
  cbn [boxHeight]. split; [exact Ehz | exact Hhz].
Qed.

(** X4.  After [compute] in a mounted container of at most 2^32 px
    height, with a height ceiling between 1 and 2^32 cm, every plate
    whose stored height is a number of at most [HEIGHT_MAX] cm gets a
    box whose height is an integer between 1 and the container height,
    the rounding of the scale and of the product to doubles included. *)
Theorem plate_heights_fit (e : Element) (el : option Element)
    (plates : list Plate) (st : ScaleState) (k : nat) (p : Plate) (h : Q) :
  (clientHeight e <= 2 ^ 32)%Z ->
  let st' := B64.compute (Fin hmax) (Some e) (B64.totalWidthCm plates) st in
  B64.tileRowThrows el st' (B64.totalWidthCm plates) = false ->
  nth_error plates k = Some p ->
  heightCm p = VNum (Fin h) -> h <= hmax ->
  exists boxes b hz,
    B64.render el st' plates = Some boxes /\
    nth_error boxes k = Some b /\
    boxHeight b = of_Z hz /\
    (1 <= hz <= Z.max 1 (clientHeight e))%Z.
Proof.
  intros Hch st'. exact (box_height_fits64 e el plates st k p h Hch).
Qed.

Variable lo : Q.

Lemma commitHeight64_committed (plate : Plate) (unit : string) (nUnit : num)
    (next : Plate) :
  B64.commitHeight (Fin lo) (Fin hmax) plate unit nUnit = Some next ->
  exists w, heightCm next = VNum (Fin w) /\ lo <= w /\ w <= hmax /\
            id next = id plate /\ widthCm next = widthCm plate.
Proof.
  unfold B64.commitHeight.
  destruct (is_finite nUnit) eqn:Hf; cbn [negb]; [|discriminate].
  pose proof (unitToCm64_not_NaN nUnit unit Hf) as Hn.
  destruct (B64.unitToCm nUnit unit) as [| | |w]; try contradiction;
    try discriminate.
  cbn [gt]. destruct (Qltb w lo) eqn:E1; cbn [orb]; [discriminate|].
  destruct (Qltb hmax w) eqn:E2; [discriminate|].
  intro H. injection H as <-. exists w.
  unfold Qltb in E1, E2. apply negb_false_iff in E1, E2.
  apply Qle_bool_iff in E1, E2. repeat split; assumption.
Qed.

(** X28.  The preview and the height field share [HEIGHT_MAX]: a plate
    that [commitHeight] has accepted, in whatever list it stands, gets
    after [compute] (container of at most 2^32 px height, ceiling
    between 1 and 2^32 cm) a box whose height is an integer between 1
    and the height of the container. *)
Theorem accepted_height_fits_preview (plate next : Plate) (unit : string)
    (nUnit : num) (e : Element) (el : option Element) (plates : list Plate)
    (st : ScaleState) (k : nat) :
  (clientHeight e <= 2 ^ 32)%Z ->
  B64.commitHeight (Fin lo) (Fin hmax) plate unit nUnit = Some next ->
  nth_error plates k = Some next ->
  B64.tileRowThrows el
    (B64.compute (Fin hmax) (Some e) (B64.totalWidthCm plates) st)
    (B64.totalWidthCm plates) = false ->
  exists boxes b hz,
    B64.render el (B64.compute (Fin hmax) (Some e) (B64.totalWidthCm plates) st)
      plates = Some boxes /\
    nth_error boxes k = Some b /\
    boxHeight b = of_Z hz /\
    (1 <= hz <= Z.max 1 (clientHeight e))%Z.
Proof.
  intros Hch Hc Hk Hok.
  destruct (commitHeight64_committed plate unit nUnit next Hc)
    as [w [Hw [_ [Hhi _]]]].
  exact (box_height_fits64 e el plates st k next w Hch Hok Hk Hw Hhi).
Qed.

End HeightFit.

Lemma plate_heights_fit_witness :
  1 <= 220 /\ 220 <= 4294967296 /\
  (clientHeight tallElement <= 2 ^ 32)%Z /\
  heightCm halfPlate = VNum (Fin 110) /\ 110 <= 220 /\
  option_map (map boxHeight)
    (B64.render (Some tallElement)
       (B64.compute (Fin 220) (Some tallElement) (B64.totalWidthCm [halfPlate])
          initialScale) [halfPlate]) = Some [Fin 220] /\
  exists boxes b hz,
    B64.render (Some tallElement)
      (B64.compute (Fin 220) (Some tallElement) (B64.totalWidthCm [halfPlate])
         initialScale) [halfPlate] = Some boxes /\
    nth_error boxes 0 = Some b /\
    boxHeight b = of_Z hz /\
    (1 <= hz <= Z.max 1 441)%Z.
Proof.
  assert (H1 : 1 <= 220) by (apply Qle_bool_imp_le; reflexivity).
  assert (H2 : 220 <= 4294967296) by (apply Qle_bool_imp_le; reflexivity).
  assert (H3 : (clientHeight tallElement <= 2 ^ 32)%Z)
    by (vm_compute; discriminate).
  assert (H4 : 110 <= 220) by (apply Qle_bool_imp_le; reflexivity).
  assert (H5 : B64.tileRowThrows (Some tallElement)
                 (B64.compute (Fin 220) (Some tallElement)
                    (B64.totalWidthCm [halfPlate]) initialScale)
                 (B64.totalWidthCm [halfPlate]) = false)
    by (vm_compute; reflexivity).
  split; [exact H1|]. split; [exact H2|]. split; [exact H3|].
  split; [reflexivity|]. split; [exact H4|].
  split; [vm_compute; reflexivity|].
  exact (plate_heights_fit 220 H1 H2 tallElement (Some tallElement) [halfPlate]
           initialScale 0%nat halfPlate 110 H3 H5 eq_refl eq_refl H4).
Defined.

Lemma accepted_height_fits_preview_witness :
  1 <= 220 /\ 220 <= 4294967296 /\
  (clientHeight exampleElement <= 2 ^ 32)%Z /\
  B64.commitHeight (Fin 30) (Fin 220) plateB "cm" (Fin 128)
  = Some {| id := "b"; widthCm := VNum (Fin 100);
            heightCm := VNum (Fin 128); motifUrl := "m" |} /\
  exists boxes b hz,
    nth_error boxes 1 = Some b /\
    boxHeight b = of_Z hz /\
    (1 <= hz <= Z.max 1 360)%Z.
Proof.
  assert (H1 : 1 <= 220) by (apply Qle_bool_imp_le; reflexivity).
  assert (H2 : 220 <= 4294967296) by (apply Qle_bool_imp_le; reflexivity).
  assert (H3 : (clientHeight exampleElement <= 2 ^ 32)%Z)
    by (vm_compute; discriminate).
  assert (H : B64.commitHeight (Fin 30) (Fin 220) plateB "cm" (Fin 128)
              = Some {| id := "b"; widthCm := VNum (Fin 100);
                        heightCm := VNum (Fin 128); motifUrl := "m" |})
    by (vm_compute; reflexivity).
  assert (H5 : B64.tileRowThrows (Some exampleElement)
                 (B64.compute (Fin 220) (Some exampleElement)
                    (B64.totalWidthCm
                       [plateA; {| id := "b"; widthCm := VNum (Fin 100);
                                   heightCm := VNum (Fin 128);
                                   motifUrl := "m" |}]) initialScale)
                 (B64.totalWidthCm
                    [plateA; {| id := "b"; widthCm := VNum (Fin 100);
                                heightCm := VNum (Fin 128);
                                motifUrl := "m" |}]) = false)
    by (vm_compute; reflexivity).
  split; [exact H1|]. split; [exact H2|]. split; [exact H3|]. split; [exact H|].
  destruct (accepted_height_fits_preview 220 H1 H2 30 plateB _ "cm" (Fin 128)
              exampleElement (Some exampleElement)
              [plateA; {| id := "b"; widthCm := VNum (Fin 100);
                          heightCm := VNum (Fin 128); motifUrl := "m" |}]
              initialScale 1%nat H3 H eq_refl H5)
    as [boxes [b [hz [_ [E2 [E3 E4]]]]]].
  exists boxes, b, hz. split; [exact E2|]. split; [exact E3 | exact E4].
Defined.
